(** * GeojsonGenerator: streaming export of PostGIS tables to GeoJSON

    A shallow embedding of [PythonModule/GeojsonGenerator/GeojsonGenerator.py]:
    the SQL composition helpers ([_geom_expr], [_props_expr], [_build_query]),
    the single-table export ([export_table]) with its connection, cursor and
    file handling, and the batch runner ([export_many]).

    - [Py], [Sql]: the pieces of Python and of [psycopg2.sql] the code uses.
    - [Json]: a reader of JSON texts, to say what the written file holds.
    - [World], [Driver]: the database sessions, the file system and the
      diagnostic streams as explicit state, and the calls the program makes
      on them, in a monad of state and exceptions.
    - The program, method by method.
    - The properties of the specification, each proved on these definitions.
    - Further properties of the same code: the text of the statements, what a
      run logs, prints and leaves in the files when steps fail, the arguments
      that mean the default, and batches of exports.

    Text is modelled as [string] (a sequence of bytes, the UTF-8 encoding of the
    Python [str]); on ASCII text the two views coincide, and [strip] knows the
    encodings of the white space beyond ASCII. *)

From Stdlib Require Import String Ascii List ZArith Arith Lia Bool.
From Stdlib Require Import DecimalString.
Import ListNotations.
Open Scope string_scope.
Set Warnings "-register-all".

(* ================================================================== *)
(** * Python runtime: values, exceptions, truthiness *)
(* ================================================================== *)

Module Py.

(** Exceptions the code and its libraries can raise. *)
Inductive exn : Type :=
| ValueError (msg : string)
| KeyError (key : string)
| IndexError
| ZeroDivisionError
| DatabaseError (msg : string)
| OSError (msg : string).

(** Result of a pure computation that may raise. *)
Inductive result (A : Type) : Type :=
| Ok (a : A)
| Raise (e : exn).
Arguments Ok {A} a.
Arguments Raise {A} e.

Definition rbind {A B} (r : result A) (k : A -> result B) : result B :=
  match r with
  | Ok a => k a
  | Raise e => Raise e
  end.

Fixpoint rmap {A B} (f : A -> result B) (l : list A) : result (list B) :=
  match l with
  | [] => Ok []
  | x :: xs => rbind (f x) (fun y => rbind (rmap f xs) (fun ys => Ok (y :: ys)))
  end.

(** Values that travel as query parameters or SQL literals. *)
Inductive pyval : Type :=
| PyStr (s : string)
| PyInt (z : Z).

(** The white space of [str.strip] and [str.isspace]. Within ASCII: the
    characters 9 to 13 and 28 to 32. *)
Definition is_space (c : ascii) : bool :=
  let n := nat_of_ascii c in
  (((9 <=? n) && (n <=? 13)) || ((28 <=? n) && (n <=? 32)))%nat.

(** Beyond ASCII, in UTF-8: U+0085 and U+00A0, of two bytes. *)
Definition is_space2 (a b : ascii) : bool :=
  let x := nat_of_ascii a in
  let y := nat_of_ascii b in
  ((x =? 194) && ((y =? 133) || (y =? 160)))%nat.

(** U+1680, U+2000 to U+200A, U+2028, U+2029, U+202F, U+205F and U+3000, of
    three bytes. *)
Definition is_space3 (a b c : ascii) : bool :=
  let x := nat_of_ascii a in
  let y := nat_of_ascii b in
  let z := nat_of_ascii c in
  (((x =? 225) && (y =? 154) && (z =? 128))
   || ((x =? 226) && (y =? 128)
       && (((128 <=? z) && (z <=? 138)) || (z =? 168) || (z =? 169) || (z =? 175)))
   || ((x =? 226) && (y =? 129) && (z =? 159))
   || ((x =? 227) && (y =? 128) && (z =? 128)))%nat.

(** The text is the encoding of one white space character. *)
Definition is_space_char (s : string) : bool :=
  match s with
  | String a EmptyString => is_space a
  | String a (String b EmptyString) => is_space2 a b
  | String a (String b (String c EmptyString)) => is_space3 a b c
  | _ => false
  end.

Definition is_empty (s : string) : bool :=
  match s with
  | EmptyString => true
  | String _ _ => false
  end.

(** [s.lstrip()]: the white space characters at the start are dropped, of one,
    two or three bytes each. *)
Fixpoint lstrip (s : string) : string :=
  match s with
  | EmptyString => EmptyString
  | String a r =>
      if is_space a then lstrip r
      else
        match r with
        | String b r2 =>
            if is_space2 a b then lstrip r2
            else
              match r2 with
              | String c r3 => if is_space3 a b c then lstrip r3 else s
              | EmptyString => s
              end
        | EmptyString => s
        end
  end.

(** [s.rstrip()]: a byte is dropped when, with what is left of the text after
    it, it makes one white space character. *)
Fixpoint rstrip (s : string) : string :=
  match s with
  | EmptyString => EmptyString
  | String c r =>
      let r' := rstrip r in
      if is_space_char (String c r') then EmptyString else String c r'
  end.

(** [s.strip()] *)
Definition strip (s : string) : string := rstrip (lstrip s).

(** Truth value of an optional string: [None] and [""] are false. *)
Definition truthy (o : option string) : bool :=
  match o with
  | None => false
  | Some s => negb (is_empty s)
  end.

(** [x and x.strip()] used as a condition. *)
Definition nonblank (o : option string) : bool :=
  match o with
  | None => false
  | Some s => negb (is_empty s) && negb (is_empty (strip s))
  end.

(** [x or d] for an optional string [x] and a string default [d]. *)
Definition str_or (o : option string) (d : string) : string :=
  if truthy o then match o with Some s => s | None => d end else d.

(** [a or b] for two optional strings. *)
Definition opt_or (a b : option string) : option string :=
  if truthy a then a else b.

(** The bytes of UTF-8 that continue a character. *)
Definition is_continuation (c : ascii) : bool :=
  let n := nat_of_ascii c in ((128 <=? n) && (n <=? 191))%nat.

(** A [str] seen as the sequence of its one-character strings: a character is
    a byte that is no continuation byte, with the continuation bytes that
    follow it. *)
Fixpoint chars (s : string) : list string :=
  match s with
  | EmptyString => []
  | String c r =>
      let rest := chars r in
      match r with
      | String d _ =>
          if is_continuation d then
            match rest with
            | h :: t => String c h :: t
            | [] => [String c EmptyString]
            end
          else String c EmptyString :: rest
      | EmptyString => String c EmptyString :: rest
      end
  end.

Definition dq : string := String (ascii_of_nat 34) EmptyString.
Definition nl : string := String (ascii_of_nat 10) EmptyString.

End Py.
Import Py.

Notation "'let!' x ':=' e 'in' k" := (rbind e (fun x => k))
  (at level 10, x name, e at level 100, k at level 200).

(* ================================================================== *)
(** * psycopg2.sql: composable SQL fragments *)
(* ================================================================== *)

Module Sql.

Inductive Composable : Type :=
| SQL (s : string)
| Identifier (name : string)
| Literal (v : pyval)
| Composed (seq : list Composable).

(** ** Rendering ([as_string]) *)

Fixpoint double_char (q : ascii) (s : string) : string :=
  match s with
  | EmptyString => EmptyString
  | String c r =>
      if Ascii.eqb c q then String c (String c (double_char q r))
      else String c (double_char q r)
  end.

(** [quote_ident]: wrap in double quotes, doubling embedded ones. *)
Definition quote_ident (s : string) : string :=
  dq ++ double_char (ascii_of_nat 34) s ++ dq.

(** Adaptation of a literal (connection with standard-conforming strings):
    strings are wrapped in single quotes with embedded ones doubled; negative
    integers get a leading blank. *)
Definition adapt (v : pyval) : string :=
  match v with
  | PyStr s => "'" ++ double_char "'"%char s ++ "'"
  | PyInt z =>
      if (z <? 0)%Z then " " ++ NilEmpty.string_of_int (Z.to_int z)
      else NilEmpty.string_of_int (Z.to_int z)
  end.

Fixpoint as_string (c : Composable) : string :=
  match c with
  | SQL s => s
  | Identifier n => quote_ident n
  | Literal v => adapt v
  | Composed seq => String.concat "" (map as_string seq)
  end.

(** The non-composite fragments of a composable, left to right. *)
Fixpoint leaves (c : Composable) : list Composable :=
  match c with
  | Composed seq => flat_map leaves seq
  | x => [x]
  end.

(** ** [string.Formatter.parse], as far as [SQL.format] accepts its output:
    a field is a name between braces, with neither conversion nor format
    specification; doubled braces are literal braces. *)

Inductive pmode : Type :=
| InText (lit : string)
| InField (lit : string) (name : string).

Definition snoc (s : string) (c : ascii) : string := s ++ String c EmptyString.

Definition chunk : Type := (string * option string)%type.

Fixpoint fparse (s : string) (m : pmode) : result (list chunk) :=
  match s with
  | EmptyString =>
      match m with
      | InText lit => Ok (if is_empty lit then [] else [(lit, None)])
      | InField _ _ => Raise (ValueError "expected '}' before end of string")
      end
  | String c r =>
      match m with
      | InText lit =>
          if Ascii.eqb c "{"%char then
            match r with
            | String c' r' =>
                if Ascii.eqb c' "{"%char then
                  let! rest := fparse r' (InText "") in Ok ((snoc lit c, None) :: rest)
                else fparse r (InField lit "")
            | EmptyString => fparse r (InField lit "")
            end
          else if Ascii.eqb c "}"%char then
            match r with
            | String c' r' =>
                if Ascii.eqb c' "}"%char then
                  let! rest := fparse r' (InText "") in Ok ((snoc lit c, None) :: rest)
                else Raise (ValueError "Single '}' encountered in format string")
            | EmptyString => Raise (ValueError "Single '}' encountered in format string")
            end
          else fparse r (InText (snoc lit c))
      | InField lit name =>
          if Ascii.eqb c "}"%char then
            let! rest := fparse r (InText "") in Ok ((lit, Some name) :: rest)
          else if Ascii.eqb c "!"%char then
            Raise (ValueError "no format conversion supported by SQL")
          else if Ascii.eqb c ":"%char then
            Raise (ValueError "no format specification supported by SQL")
          else if Ascii.eqb c "{"%char then
            Raise (ValueError "unexpected '{' in field name")
          else fparse r (InField lit (snoc name c))
      end
  end.

Definition is_digit (c : ascii) : bool :=
  let n := nat_of_ascii c in ((48 <=? n) && (n <=? 57))%nat.

Fixpoint all_digits (s : string) : bool :=
  match s with
  | EmptyString => true
  | String c r => is_digit c && all_digits r
  end.

Fixpoint digits_value (acc : nat) (s : string) : nat :=
  match s with
  | EmptyString => acc
  | String c r => digits_value (10 * acc + (nat_of_ascii c - 48)) r
  end.

Fixpoint lookup (k : string) (kw : list (string * Composable)) : option Composable :=
  match kw with
  | [] => None
  | (k', v) :: kw' => if String.eqb k k' then Some v else lookup k kw'
  end.

Definition positional (args : list Composable) (i : nat) : result Composable :=
  match nth_error args i with
  | Some a => Ok a
  | None => Raise IndexError
  end.

(** The body of [SQL.format]: [autonum] is [Some n] while fields are numbered
    automatically and [None] once a field was numbered by hand. *)
Fixpoint fill (cs : list chunk) (args : list Composable)
         (kwargs : list (string * Composable)) (autonum : option nat)
  : result (list Composable) :=
  match cs with
  | [] => Ok []
  | (pre, field) :: cs' =>
      let prefix := if is_empty pre then [] else [SQL pre] in
      match field with
      | None =>
          let! rest := fill cs' args kwargs autonum in Ok (prefix ++ rest)%list
      | Some name =>
          if negb (is_empty name) && all_digits name then
            match autonum with
            | Some (S _) =>
                Raise (ValueError "cannot switch from automatic field numbering to manual")
            | _ =>
                let! a := positional args (digits_value 0 name) in
                let! rest := fill cs' args kwargs None in
                Ok (prefix ++ a :: rest)%list
            end
          else if is_empty name then
            match autonum with
            | None =>
                Raise (ValueError "cannot switch from manual field numbering to automatic")
            | Some n =>
                let! a := positional args n in
                let! rest := fill cs' args kwargs (Some (S n)) in
                Ok (prefix ++ a :: rest)%list
            end
          else
            match lookup name kwargs with
            | None => Raise (KeyError name)
            | Some a =>
                let! rest := fill cs' args kwargs autonum in
                Ok (prefix ++ a :: rest)%list
            end
      end
  end.

(** [sql.SQL(tpl).format( *args, **kwargs)] *)
Definition SQL_format (tpl : string) (args : list Composable)
           (kwargs : list (string * Composable)) : result Composable :=
  let! cs := fparse tpl (InText "") in
  let! rv := fill cs args kwargs (Some 0) in
  Ok (Composed rv).

(** [sql.SQL(sep).join(seq)] *)
Fixpoint intersperse (sep : Composable) (seq : list Composable) : list Composable :=
  match seq with
  | [] => []
  | [x] => [x]
  | x :: rest => x :: sep :: intersperse sep rest
  end.

Definition SQL_join (sep : string) (seq : list Composable) : Composable :=
  Composed (intersperse (SQL sep) seq).

End Sql.
Import Sql.

(* ================================================================== *)
(** * JSON texts (RFC 8259), to read back what the export writes *)
(* ================================================================== *)

Module Json.

(** Numbers and strings are kept as their validated lexemes: escapes are
    checked, not decoded. *)
Inductive json : Type :=
| JNull
| JBool (b : bool)
| JNumber (lexeme : string)
| JString (s : string)
| JArray (elements : list json)
| JObject (members : list (string * json)).

Definition is_ws (c : ascii) : bool :=
  let n := nat_of_ascii c in
  ((n =? 32) || (n =? 9) || (n =? 10) || (n =? 13))%nat.

Fixpoint skip_ws (s : string) : string :=
  match s with
  | EmptyString => EmptyString
  | String c r => if is_ws c then skip_ws r else s
  end.

Definition is_hex (c : ascii) : bool :=
  let n := nat_of_ascii c in
  (((48 <=? n) && (n <=? 57)) || ((65 <=? n) && (n <=? 70))
   || ((97 <=? n) && (n <=? 102)))%nat.

(** The characters that may follow a backslash, [u] apart. *)
Definition is_escape (c : ascii) : bool :=
  let n := nat_of_ascii c in
  ((n =? 34) || (n =? 92) || (n =? 47) || (n =? 98) || (n =? 102)
   || (n =? 110) || (n =? 114) || (n =? 116))%nat.

Definition is_control (c : ascii) : bool := (nat_of_ascii c <? 32)%nat.

Definition backslash : ascii := ascii_of_nat 92.
Definition quote : ascii := ascii_of_nat 34.

Definition prepend (pre : string) (r : option (string * string))
  : option (string * string) :=
  match r with
  | Some (body, rest) => Some (pre ++ body, rest)
  | None => None
  end.

(** The characters of a string up to its closing quote, and what follows. *)
Fixpoint parse_chars (s : string) : option (string * string) :=
  match s with
  | EmptyString => None
  | String c r =>
      if Ascii.eqb c quote then Some (EmptyString, r)
      else if Ascii.eqb c backslash then
        match r with
        | String e r1 =>
            if is_escape e then
              prepend (String c (String e EmptyString)) (parse_chars r1)
            else if Ascii.eqb e "u"%char then
              match r1 with
              | String h1 (String h2 (String h3 (String h4 r2))) =>
                  if is_hex h1 && is_hex h2 && is_hex h3 && is_hex h4 then
                    prepend (String c (String e (String h1 (String h2
                               (String h3 (String h4 EmptyString))))))
                            (parse_chars r2)
                  else None
              | _ => None
              end
            else None
        | EmptyString => None
        end
      else if is_control c then None
      else prepend (String c EmptyString) (parse_chars r)
  end.

(** Numbers: the automaton of the grammar of RFC 8259: an optional minus
    sign; an integer part, either a lone zero or a non-zero digit followed by
    digits; an optional fraction, a dot and at least one digit; an optional
    exponent, the letter e, an optional sign and at least one digit. *)
Inductive nstate : Type :=
| NStart | NMinus | NZero | NInt | NDot | NFrac | NE | NESign | NExp.

Definition is_digit (c : ascii) : bool :=
  let n := nat_of_ascii c in ((48 <=? n) && (n <=? 57))%nat.

Definition is_digit19 (c : ascii) : bool :=
  let n := nat_of_ascii c in ((49 <=? n) && (n <=? 57))%nat.

Definition is_e (c : ascii) : bool :=
  Ascii.eqb c "e"%char || Ascii.eqb c "E"%char.

Definition nstep (st : nstate) (c : ascii) : option nstate :=
  match st with
  | NStart =>
      if Ascii.eqb c "-"%char then Some NMinus
      else if Ascii.eqb c "0"%char then Some NZero
      else if is_digit19 c then Some NInt else None
  | NMinus =>
      if Ascii.eqb c "0"%char then Some NZero
      else if is_digit19 c then Some NInt else None
  | NZero =>
      if Ascii.eqb c "."%char then Some NDot
      else if is_e c then Some NE else None
  | NInt =>
      if is_digit c then Some NInt
      else if Ascii.eqb c "."%char then Some NDot
      else if is_e c then Some NE else None
  | NDot => if is_digit c then Some NFrac else None
  | NFrac =>
      if is_digit c then Some NFrac
      else if is_e c then Some NE else None
  | NE =>
      if Ascii.eqb c "+"%char || Ascii.eqb c "-"%char then Some NESign
      else if is_digit c then Some NExp else None
  | NESign => if is_digit c then Some NExp else None
  | NExp => if is_digit c then Some NExp else None
  end.

Definition naccept (st : nstate) : bool :=
  match st with
  | NZero | NInt | NFrac | NExp => true
  | _ => false
  end.

(** Longest match: the lexeme read so far is [acc]. *)
Fixpoint scan_number (st : nstate) (s : string) (acc : string)
  : option (string * string) :=
  match s with
  | EmptyString => if naccept st then Some (acc, EmptyString) else None
  | String c r =>
      match nstep st c with
      | Some st' => scan_number st' r (acc ++ String c EmptyString)
      | None => if naccept st then Some (acc, s) else None
      end
  end.

(** [s] without its prefix [p], when it has that prefix. *)
Fixpoint strip_prefix (p s : string) : option string :=
  match p with
  | EmptyString => Some s
  | String c p' =>
      match s with
      | String d s' => if Ascii.eqb c d then strip_prefix p' s' else None
      | EmptyString => None
      end
  end.

Definition keyword (p : string) (v : json) (s : string) : option (json * string) :=
  match strip_prefix p s with
  | Some rest => Some (v, rest)
  | None => None
  end.

Section Bodies.

Variable pv : string -> option (json * string).
Variable pm : string -> option (list (string * json) * string).
Variable pe : string -> option (list json * string).

(** A value: optional white space, then an object, an array, a string, a
    keyword or a number. *)
Definition value_body (s : string) : option (json * string) :=
  match skip_ws s with
  | EmptyString => None
  | String c r =>
      if Ascii.eqb c "{"%char then
        match skip_ws r with
        | EmptyString => None
        | String c' r' =>
            if Ascii.eqb c' "}"%char then Some (JObject [], r')
            else match pm r with
                 | Some (m, rest) => Some (JObject m, rest)
                 | None => None
                 end
        end
      else if Ascii.eqb c "["%char then
        match skip_ws r with
        | EmptyString => None
        | String c' r' =>
            if Ascii.eqb c' "]"%char then Some (JArray [], r')
            else match pe r with
                 | Some (l, rest) => Some (JArray l, rest)
                 | None => None
                 end
        end
      else if Ascii.eqb c quote then
        match parse_chars r with
        | Some (str, rest) => Some (JString str, rest)
        | None => None
        end
      else if Ascii.eqb c "t"%char then keyword "rue" (JBool true) r
      else if Ascii.eqb c "f"%char then keyword "alse" (JBool false) r
      else if Ascii.eqb c "n"%char then keyword "ull" JNull r
      else
        match scan_number NStart (String c r) EmptyString with
        | Some (lexeme, rest) => Some (JNumber lexeme, rest)
        | None => None
        end
  end.

(** The members of a non-empty object, up to and including its closing brace. *)
Definition members_body (s : string) : option (list (string * json) * string) :=
  match skip_ws s with
  | EmptyString => None
  | String c r =>
      if Ascii.eqb c quote then
        match parse_chars r with
        | None => None
        | Some (k, r1) =>
            match skip_ws r1 with
            | EmptyString => None
            | String c1 r2 =>
                if Ascii.eqb c1 ":"%char then
                  match pv r2 with
                  | None => None
                  | Some (v, r3) =>
                      match skip_ws r3 with
                      | EmptyString => None
                      | String c3 r4 =>
                          if Ascii.eqb c3 ","%char then
                            match pm r4 with
                            | Some (m, r5) => Some ((k, v) :: m, r5)
                            | None => None
                            end
                          else if Ascii.eqb c3 "}"%char then Some ([(k, v)], r4)
                          else None
                      end
                  end
                else None
            end
        end
      else None
  end.

(** The elements of a non-empty array, up to and including its closing bracket. *)
Definition elements_body (s : string) : option (list json * string) :=
  match pv s with
  | None => None
  | Some (v, r1) =>
      match skip_ws r1 with
      | EmptyString => None
      | String c r2 =>
          if Ascii.eqb c ","%char then
            match pe r2 with
            | Some (l, r3) => Some (v :: l, r3)
            | None => None
            end
          else if Ascii.eqb c "]"%char then Some ([v], r2)
          else None
      end
  end.

End Bodies.

Fixpoint parse_value (fuel : nat) (s : string) : option (json * string) :=
  match fuel with
  | 0 => None
  | S n => value_body (parse_members n) (parse_elements n) s
  end
with parse_members (fuel : nat) (s : string)
  : option (list (string * json) * string) :=
  match fuel with
  | 0 => None
  | S n => members_body (parse_value n) (parse_members n) s
  end
with parse_elements (fuel : nat) (s : string) : option (list json * string) :=
  match fuel with
  | 0 => None
  | S n => elements_body (parse_value n) (parse_elements n) s
  end.

(** A whole text: one value, then white space only. *)
Definition parse_json (s : string) : option json :=
  match parse_value (S (String.length s)) s with
  | Some (v, rest) => if is_empty (skip_ws rest) then Some v else None
  | None => None
  end.

End Json.
Import Json.

(* ================================================================== *)
(** * The environment: database sessions, file system, diagnostics *)
(* ================================================================== *)

Module World.

(** What the named cursor yields next: a row holding the feature text (or
    NULL), or a failure of the server while producing that row. *)
Inductive item : Type :=
| Row (feature_text : option string)
| Broken (e : exn).

(** How one database session and the output file of that export respond. *)
Record session : Type := mkSession {
  connect_error : option exn;      (* [psycopg2.connect] raises *)
  count_result : result nat;       (* answer to the COUNT query *)
  execute_error : option exn;      (* [execute] on the named cursor raises *)
  stream : list item;              (* rows the named cursor has yet to deliver *)
  open_error : option exn;         (* [open(path, "w")] raises *)
  write_budget : option nat        (* number of [write] calls before one raises *)
}.

Definition with_stream (x : session) (rows : list item) : session :=
  mkSession (connect_error x) (count_result x) (execute_error x) rows
            (open_error x) (write_budget x).

Definition with_budget (x : session) (b : option nat) : session :=
  mkSession (connect_error x) (count_result x) (execute_error x) (stream x)
            (open_error x) b.

Definition with_count (x : session) (c : result nat) : session :=
  mkSession (connect_error x) c (execute_error x) (stream x)
            (open_error x) (write_budget x).

(** The COUNT query answers. *)
Definition count_answers (x : session) : bool :=
  match count_result x with
  | Ok _ => true
  | Raise _ => false
  end.

(** What the server answers to a statement once an earlier statement of the
    transaction has failed ([psycopg2.errors.InFailedSqlTransaction]). *)
Definition in_failed_transaction : exn :=
  DatabaseError
    "current transaction is aborted, commands ignored until end of transaction block".

(** The session once the COUNT query has failed. The connection is not in
    autocommit mode and the program never rolls back, so the transaction the
    COUNT query began stays aborted: the streaming query is refused. *)
Definition aborted (x : session) : session :=
  mkSession (connect_error x) (count_result x) (Some in_failed_transaction) (stream x)
            (open_error x) (write_budget x).

(** Lines on the diagnostic streams, kept structured (the percentage shown in
    a progress line is a float and is not modelled). *)
Inductive diag : Type :=
| WarnCount (e : exn)
| Progress (schema table : string) (written total : nat)
| DoneOf (schema table : string) (written total : nat)
| DoneFeatures (schema table : string) (written : nat).

(** A cursor is known by its name; the client-side cursor has none. *)
Definition cursor : Type := option string.

Inductive event : Type :=
| EvConnect (host dbname user : string) (port : Z)
| EvConnClose
| EvCursor (cur : cursor)
| EvCursorClose (cur : cursor)
| EvExecute (cur : cursor) (query : Composable) (params : list pyval)
| EvFetch (cur : cursor) (size : nat)
| EvOpen (path : string)
| EvWrite (path : string) (text : string)
| EvFileClose (path : string)
| EvStderr (d : diag)
| EvStdout (d : diag).

Record state : Type := mkState {
  pending : list session;          (* sessions of the connections still to be made *)
  live : session;                  (* the session of the current connection *)
  files : list (string * string);  (* path and content, latest binding first *)
  open_conns : nat;
  open_cursors : list cursor;      (* the open cursors of the current connection *)
  log : list event                 (* latest event first *)
}.

Definition idle : session := mkSession None (Ok 0) None [] None None.

Definition boot (sessions : list session) : state :=
  mkState sessions idle [] 0 [] [].

Definition record (ev : event) (s : state) : state :=
  mkState (pending s) (live s) (files s) (open_conns s) (open_cursors s) (ev :: log s).

Definition set_live (x : session) (s : state) : state :=
  mkState (pending s) x (files s) (open_conns s) (open_cursors s) (log s).

Definition set_pending (p : list session) (s : state) : state :=
  mkState p (live s) (files s) (open_conns s) (open_cursors s) (log s).

Definition set_files (f : list (string * string)) (s : state) : state :=
  mkState (pending s) (live s) f (open_conns s) (open_cursors s) (log s).

Definition set_conns (n : nat) (s : state) : state :=
  mkState (pending s) (live s) (files s) n (open_cursors s) (log s).

Definition set_cursors (c : list cursor) (s : state) : state :=
  mkState (pending s) (live s) (files s) (open_conns s) c (log s).

(** ** Files *)

Fixpoint read_file (path : string) (fs : list (string * string)) : option string :=
  match fs with
  | [] => None
  | (p, c) :: fs' => if String.eqb path p then Some c else read_file path fs'
  end.

Fixpoint append_file (path text : string) (fs : list (string * string))
  : list (string * string) :=
  match fs with
  | [] => [(path, text)]
  | (p, c) :: fs' =>
      if String.eqb path p then (p, c ++ text) :: fs'
      else (p, c) :: append_file path text fs'
  end.

(** ** The monad of the program: state, exceptions, and running out of fuel *)

Inductive outcome (A : Type) : Type :=
| Return (a : A)
| Throw (e : exn)
| Diverge.
Arguments Return {A} a.
Arguments Throw {A} e.
Arguments Diverge {A}.

Definition M (A : Type) : Type := state -> outcome A * state.

Definition ret {A} (a : A) : M A := fun s => (Return a, s).

Definition raise {A} (e : exn) : M A := fun s => (Throw e, s).

Definition bind {A B} (m : M A) (k : A -> M B) : M B :=
  fun s =>
    match m s with
    | (Return a, s') => k a s'
    | (Throw e, s') => (Throw e, s')
    | (Diverge, s') => (Diverge, s')
    end.

Definition lift {A} (r : result A) : M A :=
  match r with
  | Ok a => ret a
  | Raise e => raise e
  end.

Definition gets {A} (f : state -> A) : M A := fun s => (Return (f s), s).

Definition modify (f : state -> state) : M unit := fun s => (Return tt, f s).

(** [try: m finally: fin] *)
Definition try_finally {A} (m : M A) (fin : M unit) : M A :=
  fun s =>
    match m s with
    | (Return a, s') => bind fin (fun _ => ret a) s'
    | (Throw e, s') => bind fin (fun _ => raise e) s'
    | (Diverge, s') => (Diverge, s')
    end.

(** [try: m except Exception as e: handler e] *)
Definition try_except {A} (m : M A) (handler : exn -> M A) : M A :=
  fun s =>
    match m s with
    | (Throw e, s') => handler e s'
    | r => r
    end.

End World.
Import World.

Notation "x <- m ;; k" := (bind m (fun x => k))
  (at level 100, m at next level, right associativity).
Notation "m ;;; k" := (bind m (fun _ => k))
  (at level 100, right associativity).

(* ================================================================== *)
(** * Driver and file primitives, as the program calls them *)
(* ================================================================== *)

Module Driver.

Fixpoint truncate_file (path : string) (fs : list (string * string))
  : list (string * string) :=
  match fs with
  | [] => [(path, "")]
  | (p, c) :: fs' =>
      if String.eqb path p then (p, "") :: fs'
      else (p, c) :: truncate_file path fs'
  end.

Fixpoint remove_cursor (cur : cursor) (l : list cursor) : list cursor :=
  match l with
  | [] => []
  | c :: l' =>
      let same := match cur, c with
                  | None, None => true
                  | Some a, Some b => String.eqb a b
                  | _, _ => false
                  end in
      if same then l' else c :: remove_cursor cur l'
  end.

(** [psycopg2.connect(host=..., dbname=..., user=..., password=..., port=...)]:
    the next pending session answers. *)
Definition connect (host dbname user password : string) (port : Z) : M unit :=
  fun s =>
    match pending s with
    | [] => (Throw (DatabaseError "could not connect to server"), s)
    | x :: rest =>
        match connect_error x with
        | Some e => (Throw e, set_pending rest s)
        | None =>
            (Return tt,
             record (EvConnect host dbname user port)
               (set_conns (S (open_conns s)) (set_live x (set_pending rest s))))
        end
    end.

(** [conn.close()]: closing the connection closes the cursors it still has. *)
Definition conn_close : M unit :=
  modify (fun s => mkState (pending s) (live s) (files s) (pred (open_conns s)) []
                           (EvConnClose :: log s)).

(** [conn.cursor()] and [conn.cursor(name=...)] *)
Definition conn_cursor (name : option string) : M cursor :=
  fun s => (Return name, record (EvCursor name) (set_cursors (name :: open_cursors s) s)).

(** [cur.close()] *)
Definition cursor_close (cur : cursor) : M unit :=
  modify (fun s => record (EvCursorClose cur)
                          (set_cursors (remove_cursor cur (open_cursors s)) s)).

(** [cur.execute(query, params)]: the client-side cursor runs the COUNT query,
    the named cursor declares the streaming query. A COUNT query that raises
    leaves the transaction aborted. *)
Definition cursor_execute (cur : cursor) (query : Composable) (params : list pyval)
  : M unit :=
  fun s =>
    let s' := record (EvExecute cur query params) s in
    match cur with
    | None =>
        match count_result (live s) with
        | Raise e => (Throw e, set_live (aborted (live s)) s')
        | Ok _ => (Return tt, s')
        end
    | Some _ =>
        match execute_error (live s) with
        | Some e => (Throw e, s')
        | None => (Return tt, s')
        end
    end.

(** [int(cur.fetchone()[0])] after the COUNT query *)
Definition cursor_fetchone_int (cur : cursor) : M nat :=
  fun s =>
    match count_result (live s) with
    | Ok n => (Return n, s)
    | Raise e => (Throw e, s)
    end.

(** The rows of a batch, or the failure met while producing it. *)
Fixpoint deliver (batch : list item) : result (list (option string)) :=
  match batch with
  | [] => Ok []
  | Row t :: rest => let! rows := deliver rest in Ok (t :: rows)
  | Broken e :: _ => Raise e
  end.

(** [cur.fetchmany(size)] on the named cursor *)
Definition cursor_fetchmany (cur : cursor) (size : nat) : M (list (option string)) :=
  fun s =>
    let s' := record (EvFetch cur size) s in
    match deliver (firstn size (stream (live s))) with
    | Raise e => (Throw e, s')
    | Ok rows => (Return rows, set_live (with_stream (live s) (skipn size (stream (live s)))) s')
    end.

(** [open(path, "w", encoding="utf-8")] *)
Definition file_open (path : string) : M string :=
  fun s =>
    match open_error (live s) with
    | Some e => (Throw e, s)
    | None => (Return path, record (EvOpen path) (set_files (truncate_file path (files s)) s))
    end.

(** [f.write(text)] *)
Definition file_write (f : string) (text : string) : M unit :=
  fun s =>
    match write_budget (live s) with
    | Some 0 => (Throw (OSError "write failed"), s)
    | Some (S b) =>
        (Return tt,
         record (EvWrite f text)
           (set_files (append_file f text (files s))
              (set_live (with_budget (live s) (Some b)) s)))
    | None =>
        (Return tt, record (EvWrite f text) (set_files (append_file f text (files s)) s))
    end.

(** [f.close()] *)
Definition file_close (f : string) : M unit :=
  modify (record (EvFileClose f)).

(** [with open(path, "w", encoding="utf-8") as f: body f] *)
Definition with_open {A} (path : string) (body : string -> M A) : M A :=
  f <- file_open path ;;
  try_finally (body f) (file_close f).

(** [print(..., file=sys.stderr)] and [print(...)] *)
Definition print_stderr (d : diag) : M unit := modify (record (EvStderr d)).
Definition print_stdout (d : diag) : M unit := modify (record (EvStdout d)).

End Driver.
Import Driver.

(* ================================================================== *)
(** * The program *)
(* ================================================================== *)

(** [x or []] for the query parameters *)
Definition params_or (p : option (list pyval)) : list pyval :=
  match p with
  | Some l => l
  | None => []
  end.

(** The [columns] argument of [export_table]: omitted, a string, or a list. *)
Inductive columns_arg : Type :=
| ColsNone
| ColsStr (s : string)
| ColsList (l : list string).

(** The instance: connection settings and defaults. *)
Record GeojsonGenerator : Type := mkGeojsonGenerator {
  host : string;
  dbname : string;
  user : string;
  password : string;
  port : Z;
  schema : string;
  geometry_column : string;
  batch_size : nat;
  show_progress : bool
}.

(** The sequence a [for c in columns] walks. *)
Definition cols_of (columns : option (list string)) : list string :=
  match columns with
  | Some l => l
  | None => []
  end.

Definition star : string := "*".

(** [SELECT COUNT( * ) FROM {}.{} t] *)
Definition count_template : string := "SELECT COUNT(" ++ star ++ ") FROM {}.{} t".

Section Methods.

Variable self : GeojsonGenerator.

(** [with self._connect() as conn: body] *)
Definition _connect {A} (body : unit -> M A) : M A :=
  conn <- connect (host self) (dbname self) (user self) (password self) (port self) ;;
  try_finally (body conn) conn_close.

Definition _count_rows (conn : unit) (table schema : string)
           (where_sql : option string) (where_params : option (list pyval)) : M nat :=
  cur <- conn_cursor None ;;
  try_finally
    (q <- lift (SQL_format count_template [Identifier schema; Identifier table] []) ;;
     q <- (match where_sql with
           | Some w =>
               if nonblank where_sql
               then lift (SQL_format "{} WHERE {}" [q; SQL w] [])
               else ret q
           | None => ret q
           end) ;;
     cursor_execute cur q (params_or where_params) ;;;
     cursor_fetchone_int cur)
    (cursor_close cur).

Definition _geom_expr (geom_col : string) (target_srid : option Z) : result Composable :=
  let g := Identifier geom_col in
  match target_srid with
  | None => SQL_format "ST_AsGeoJSON(t.{g})::jsonb" [] [("g", g)]
  | Some srid =>
      SQL_format "ST_AsGeoJSON(ST_Transform(t.{g}, {srid}))::jsonb" []
                 [("g", g); ("srid", Literal (PyInt srid))]
  end.

(** [not columns] holds for [None] and for the empty sequence. *)
Definition no_columns (columns : option (list string)) : bool :=
  match columns with
  | None => true
  | Some [] => true
  | Some (_ :: _) => false
  end.

Definition _props_expr (columns : option (list string)) (geom_col : string)
  : result Composable :=
  if no_columns columns then
    SQL_format "to_jsonb(t) - {}" [Literal (PyStr geom_col)] []
  else
    let! cols := rmap (fun c => SQL_format "t.{}" [Identifier c] []) (cols_of columns) in
    let! sub := SQL_format "SELECT r FROM (SELECT {}) r" [SQL_join ", " cols] [] in
    SQL_format "to_jsonb(({}))" [sub] [].

Definition _build_query (schema table : string) (columns : option (list string))
           (geom_col : string) (where_sql order_by : option string)
           (target_srid : option Z) : result Composable :=
  let sch := Identifier schema in
  let tbl := Identifier table in
  let! geom_jsonb := _geom_expr geom_col target_srid in
  let! props_jsonb := _props_expr columns geom_col in
  let! feature_expr :=
    SQL_format
      "jsonb_build_object('type','Feature','geometry', {g}, 'properties', COALESCE({p}, '{{}}'::jsonb))::text AS feature"
      [] [("g", geom_jsonb); ("p", props_jsonb)] in
  let! q :=
    SQL_format "SELECT {feature} FROM {sch}.{tbl} t WHERE t.{geom} IS NOT NULL" []
               [("feature", feature_expr); ("sch", sch); ("tbl", tbl);
                ("geom", Identifier geom_col)] in
  let! q :=
    match where_sql with
    | Some w =>
        if nonblank where_sql
        then SQL_format "{base} AND ({where})" [] [("base", q); ("where", SQL w)]
        else Ok q
    | None => Ok q
    end in
  let! q :=
    match order_by with
    | Some ob =>
        if nonblank order_by
        then SQL_format "{base} ORDER BY {ob}" [] [("base", q); ("ob", SQL ob)]
        else Ok q
    | None => Ok q
    end in
  Ok q.

(** ** [export_table] *)

(** [if isinstance(columns, str) and columns.strip() == "*": columns = None];
    any other string is a sequence of one-character names. *)
Definition normalize_columns (columns : columns_arg) : option (list string) :=
  match columns with
  | ColsNone => None
  | ColsStr s => if String.eqb (strip s) star then None else Some (chars s)
  | ColsList l => Some l
  end.

Definition collection_prefix : string :=
  "{" ++ dq ++ "type" ++ dq ++ ":" ++ dq ++ "FeatureCollection" ++ dq ++ ","
      ++ dq ++ "features" ++ dq ++ ":[".

Definition collection_suffix : string := nl ++ "]}".

(** [if total and self.show_progress and written % self.batch_size == 0: print(...)] *)
Definition report_progress (total : option nat) (eff_schema table : string)
           (written : nat) : M unit :=
  match total with
  | Some t =>
      if negb (t =? 0)%nat && show_progress self then
        if (batch_size self =? 0)%nat then raise ZeroDivisionError
        else if (written mod batch_size self =? 0)%nat
             then print_stderr (Progress eff_schema table written t)
             else ret tt
      else ret tt
  | None => ret tt
  end.

(** [for (feature_text,) in rows: ...], threading [first] and [written] *)
Fixpoint write_rows (f : string) (total : option nat) (eff_schema table : string)
         (rows : list (option string)) (first : bool) (written : nat)
  : M (bool * nat) :=
  match rows with
  | [] => ret (first, written)
  | None :: rows' => write_rows f total eff_schema table rows' first written
  | Some feature_text :: rows' =>
      (if first then ret tt else file_write f ",") ;;;
      file_write f nl ;;;
      file_write f feature_text ;;;
      let written := written + 1 in
      report_progress total eff_schema table written ;;;
      write_rows f total eff_schema table rows' false written
  end.

(** [while True: rows = cur.fetchmany(self.batch_size); if not rows: break; ...]
    The loop returns [written]. *)
Fixpoint stream_loop (fuel : nat) (cur : cursor) (f : string) (total : option nat)
         (eff_schema table : string) (first : bool) (written : nat) : M nat :=
  match fuel with
  | 0 => fun s => (Diverge, s)
  | S fuel' =>
      rows <- cursor_fetchmany cur (batch_size self) ;;
      match rows with
      | [] => ret written
      | _ :: _ =>
          fw <- write_rows f total eff_schema table rows first written ;;
          stream_loop fuel' cur f total eff_schema table (fst fw) (snd fw)
      end
  end.

(** [total = None; if self.show_progress: try: total = self._count_rows(...)
    except Exception as e: print(warning)] *)
Definition count_total (conn : unit) (table eff_schema : string)
           (where_sql : option string) (where_params : option (list pyval))
  : M (option nat) :=
  if show_progress self then
    try_except
      (n <- _count_rows conn table eff_schema where_sql where_params ;;
       ret (Some n))
      (fun e => print_stderr (WarnCount e) ;;; ret None)
  else ret None.

(** [with open(output_path, "w", encoding="utf-8") as f: ...]; the block
    leaves [written] behind. The loop makes one round per batch and one more
    for the empty batch that ends it. *)
Definition stream_to_file (cur : cursor) (output_path : string) (total : option nat)
           (eff_schema table : string) : M nat :=
  with_open output_path (fun f =>
    file_write f collection_prefix ;;;
    fuel <- gets (fun s => S (length (stream (live s)))) ;;
    written <- stream_loop fuel cur f total eff_schema table true 0 ;;
    file_write f collection_suffix ;;;
    ret written).

(** [if self.show_progress: print(done ...)] *)
Definition report_done (total : option nat) (eff_schema table : string)
           (written : nat) : M unit :=
  if show_progress self then
    match total with
    | Some t => print_stdout (DoneOf eff_schema table written t)
    | None => print_stdout (DoneFeatures eff_schema table written)
    end
  else ret tt.

Definition export_table (table output_path : string) (columns : columns_arg)
           (where_sql : option string) (where_params : option (list pyval))
           (order_by : option string) (target_srid : option Z)
           (schema_override geometry_column_override : option string) : M unit :=
  let columns := normalize_columns columns in
  let eff_schema := str_or schema_override (schema self) in
  let eff_geom := str_or geometry_column_override (geometry_column self) in
  _connect (fun conn =>
    total <- count_total conn table eff_schema where_sql where_params ;;
    (* [cur.itersize] only sizes the driver's own iteration, which the loop
       below does not use *)
    cur <- conn_cursor (Some ("cur_" ++ eff_schema ++ "_" ++ table)) ;;
    query <- lift (_build_query eff_schema table columns eff_geom where_sql order_by
                                target_srid) ;;
    cursor_execute cur query (params_or where_params) ;;;
    written <- stream_to_file cur output_path total eff_schema table ;;
    report_done total eff_schema table written ;;;
    cursor_close cur).

(** ** [export_many] *)

(** One item of the batch: the keys [export_many] reads from the dict, each
    absent ([None]) or present. *)
Record item_dict : Type := mkItem {
  i_table : option string;
  i_output : option string;
  i_columns : columns_arg;
  i_where_sql : option string;
  i_where : option string;
  i_filter : option string;
  i_where_params : option (list pyval);
  i_order_by : option string;
  i_target_srid : option Z;
  i_schema : option string;
  i_geometry_column : option string
}.

(** [item[key]] *)
Definition subscript (key : string) (v : option string) : M string :=
  match v with
  | Some x => ret x
  | None => raise (KeyError key)
  end.

(** The call [self.export_table(table=item["table"], ...)] for one item. *)
Definition export_item (item : item_dict) : M unit :=
  table <- subscript "table" (i_table item) ;;
  output <- subscript "output" (i_output item) ;;
  export_table table output (i_columns item)
    (opt_or (opt_or (opt_or (i_where_sql item) (i_where item)) (i_filter item)) None)
    (i_where_params item) (i_order_by item) (i_target_srid item)
    (i_schema item) (i_geometry_column item).

Fixpoint export_many (items : list item_dict) : M unit :=
  match items with
  | [] => ret tt
  | item :: rest => export_item item ;;; export_many rest
  end.

End Methods.
(** * The text of a collection *)

(** The feature texts among the rows, NULLs skipped. *)
Fixpoint features_of (rows : list (option string)) : list string :=
  match rows with
  | [] => []
  | None :: rows' => features_of rows'
  | Some t :: rows' => t :: features_of rows'
  end.

(** What is written for features that are not the first of the file. *)
Fixpoint more_features (ts : list string) : string :=
  match ts with
  | [] => ""
  | t :: ts' => "," ++ nl ++ t ++ more_features ts'
  end.

(** What is written for a run of features, the first of the file or not. *)
Definition batch_text (first : bool) (ts : list string) : string :=
  match ts with
  | [] => ""
  | t :: ts' => if first then nl ++ t ++ more_features ts' else more_features ts
  end.

Definition collection_text (ts : list string) : string :=
  collection_prefix ++ batch_text true ts ++ collection_suffix.

(** A feature text is valid when it reads as one JSON object. *)
Definition reads_as (t : string) (o : list (string * json)) : Prop :=
  parse_json t = Some (JObject o).

Definition feature_collection (features : list json) : json :=
  JObject [("type", JString "FeatureCollection"); ("features", JArray features)].

(** A session whose connection is made and whose streaming query is accepted
    and yields [rows], the output file taking every write. *)
Definition flowing (x : session) (rows : list (option string)) : Prop :=
  connect_error x = None /\ execute_error x = None /\ stream x = map Row rows
  /\ open_error x = None /\ write_budget x = None.

(** A session in which nothing fails and whose named cursor yields [rows]. *)
Definition healthy (x : session) (rows : list (option string)) : Prop :=
  count_answers x = true /\ flowing x rows.

(* ================================================================== *)
(** * Vocabulary of the statements *)
(* ================================================================== *)

(** ** The JSON reader *)

(** A value whose text ends with its own closing character. *)
Definition closed (v : json) : Prop :=
  match v with
  | JNumber _ => False
  | _ => True
  end.

Definition ext_value (p : string -> option (json * string)) : Prop :=
  forall s t v rest,
    p s = Some (v, rest) -> rest <> "" \/ closed v ->
    p (s ++ t) = Some (v, rest ++ t).

Definition ext_seq {A} (p : string -> option (A * string)) : Prop :=
  forall s t l rest, p s = Some (l, rest) -> p (s ++ t) = Some (l, rest ++ t).

Definition below {A} (p q : string -> option A) : Prop :=
  forall s r, p s = Some r -> q s = Some r.

(** Fuel that suffices to read the features [ts] as array elements. *)
Definition budget (ts : list string) : nat :=
  list_sum (map (fun t => String.length t + 2) ts) + 1.

(** The collection text up to its array. *)
Definition before_array : string :=
  "{" ++ dq ++ "type" ++ dq ++ ":" ++ dq ++ "FeatureCollection" ++ dq ++ ","
      ++ dq ++ "features" ++ dq ++ ":".

(** ** The shapes the SQL builders produce *)

Definition column_ref (c : string) : Composable := Composed [SQL "t."; Identifier c].

Definition geom_shape (geom_col : string) (target_srid : option Z) : Composable :=
  match target_srid with
  | None => Composed [SQL "ST_AsGeoJSON(t."; Identifier geom_col; SQL ")::jsonb"]
  | Some srid =>
      Composed [SQL "ST_AsGeoJSON(ST_Transform(t."; Identifier geom_col; SQL ", ";
                Literal (PyInt srid); SQL "))::jsonb"]
  end.

Definition props_shape (columns : option (list string)) (geom_col : string)
  : Composable :=
  if no_columns columns then
    Composed [SQL "to_jsonb(t) - "; Literal (PyStr geom_col)]
  else
    Composed [SQL "to_jsonb((";
              Composed [SQL "SELECT r FROM (SELECT ";
                        SQL_join ", " (map column_ref (cols_of columns));
                        SQL ") r"];
              SQL "))"].

Definition feature_shape (g p : Composable) : Composable :=
  Composed [SQL "jsonb_build_object('type','Feature','geometry', "; g;
            SQL ", 'properties', COALESCE("; p; SQL ", '{"; SQL "}";
            SQL "'::jsonb))::text AS feature"].

Definition select_shape (schema table : string) (columns : option (list string))
           (geom_col : string) (target_srid : option Z) : Composable :=
  Composed [SQL "SELECT ";
            feature_shape (geom_shape geom_col target_srid)
                          (props_shape columns geom_col);
            SQL " FROM "; Identifier schema; SQL "."; Identifier table;
            SQL " t WHERE t."; Identifier geom_col; SQL " IS NOT NULL"].

Definition with_where (where_sql : option string) (q : Composable) : Composable :=
  match where_sql with
  | Some w =>
      if nonblank where_sql then Composed [q; SQL " AND ("; SQL w; SQL ")"] else q
  | None => q
  end.

Definition with_order (order_by : option string) (q : Composable) : Composable :=
  match order_by with
  | Some ob =>
      if nonblank order_by then Composed [q; SQL " ORDER BY "; SQL ob] else q
  | None => q
  end.

Definition assembled (sch table : string) (cols : option (list string))
           (geom : string) (where_sql order_by : option string)
           (srid : option Z) : Composable :=
  with_order order_by (with_where where_sql (select_shape sch table cols geom srid)).



Definition is_nil {A} (l : list A) : bool :=
  match l with
  | [] => true
  | _ :: _ => false
  end.

(** What [total] is after the COUNT step: the count when progress is shown and
    the query answered, unknown otherwise. *)
Definition count_answer (self : GeojsonGenerator) (x : session) : option nat :=
  if show_progress self then
    match count_result x with
    | Ok n => Some n
    | Raise _ => None
    end
  else None.

(** The session as the steps after the COUNT step meet it: aborted when
    progress is shown and the COUNT query raises, as it was otherwise. *)
Definition after_count (self : GeojsonGenerator) (x : session) : session :=
  if show_progress self then
    match count_result x with
    | Ok _ => x
    | Raise _ => aborted x
    end
  else x.

(** * Two runs that differ in diagnostics only *)

(** Two sessions whose COUNT query answers and that respond alike, the count
    apart. *)
Definition session_sim (a b : session) : Prop :=
  count_answers a = true /\ count_answers b = true
  /\ connect_error a = connect_error b /\ execute_error a = execute_error b
  /\ stream a = stream b /\ open_error a = open_error b
  /\ write_budget a = write_budget b.

(** Two states inside a connection that agree on everything but the log and
    the count. *)
Definition sim (s1 s2 : state) : Prop :=
  pending s1 = pending s2
  /\ session_sim (live s1) (live s2)
  /\ files s1 = files s2
  /\ open_conns s1 = open_conns s2
  /\ open_cursors s1 = open_cursors s2.

Definition sim_out {A B} (R : A -> B -> Prop)
           (r1 : outcome A * state) (r2 : outcome B * state) : Prop :=
  sim (snd r1) (snd r2)
  /\ match fst r1, fst r2 with
     | Return a, Return b => R a b
     | Throw e1, Throw e2 => e1 = e2
     | Diverge, Diverge => True
     | _, _ => False
     end.

Definition sim_run {A B} (R : A -> B -> Prop) (m1 : M A) (m2 : M B) : Prop :=
  forall s1 s2, sim s1 s2 -> sim_out R (m1 s1) (m2 s2).

Definition any {A B} (_ : A) (_ : B) : Prop := True.

(** Two instances that agree on the defaults an export reads, [show_progress]
    apart. *)
Definition same_settings (g1 g2 : GeojsonGenerator) : Prop :=
  schema g1 = schema g2 /\ geometry_column g1 = geometry_column g2
  /\ batch_size g1 = batch_size g2.

(** A step that returns and leaves everything but the log as it was. *)
Definition quiet {A} (m : M A) : Prop :=
  forall p l f c cu lg, exists a lg',
    m (mkState p l f c cu lg) = (Return a, mkState p l f c cu lg').


(** * What every step inside a connection leaves alone *)

(** The later state extends the log of the earlier one and holds the same
    connections, open or pending. *)
Definition inside (s s' : state) : Prop :=
  (exists lg, log s' = (lg ++ log s)%list)
  /\ open_conns s' = open_conns s
  /\ pending s' = pending s.

Definition steady {A} (m : M A) : Prop := forall s, inside s (snd (m s)).

(** The computation ends: it returns or raises. *)
Definition ends {A} (m : M A) : Prop := forall s, fst (m s) <> Diverge.

(** Writing rows leaves the cursor where it is. *)
Definition keeps_stream {A} (m : M A) : Prop :=
  forall s, stream (live (snd (m s))) = stream (live s).


(** * Two runs that differ in their batch size *)

(** Two states that hold the same files and resources and allow the same
    number of writes. *)
Definition wsim (s1 s2 : state) : Prop :=
  files s1 = files s2
  /\ write_budget (live s1) = write_budget (live s2)
  /\ open_conns s1 = open_conns s2
  /\ open_cursors s1 = open_cursors s2
  /\ pending s1 = pending s2.

(** A session whose named cursor delivers all its rows. *)
Definition unbroken (x : session) : Prop := exists rows, stream x = map Row rows.

(** The same state on both sides, connected to an unbroken session. *)
Definition same (s1 s2 : state) : Prop := s1 = s2 /\ unbroken (live s1).

(** Two results that agree: both return, related by [post], or both raise the
    same exception in states that are [wsim]. *)
Definition rel_out {A B} (post : A -> B -> state -> state -> Prop)
           (r1 : outcome A * state) (r2 : outcome B * state) : Prop :=
  match fst r1, fst r2 with
  | Return a, Return b => post a b (snd r1) (snd r2)
  | Throw e1, Throw e2 => e1 = e2 /\ wsim (snd r1) (snd r2)
  | _, _ => False
  end.

Definition rel_run {A B} (pre : state -> state -> Prop)
           (post : A -> B -> state -> state -> Prop) (m1 : M A) (m2 : M B) : Prop :=
  forall s1 s2, pre s1 s2 -> rel_out post (m1 s1) (m2 s2).

(** Usual postconditions. *)
Definition both_same {A} (a b : A) (s1 s2 : state) : Prop := a = b /\ same s1 s2.
Definition both_wsim {A} (a b : A) (s1 s2 : state) : Prop := a = b /\ wsim s1 s2.
Definition just_wsim {A B} (_ : A) (_ : B) (s1 s2 : state) : Prop := wsim s1 s2.

(** A step that keeps the session unbroken. *)
Definition tidy {A} (m : M A) : Prop :=
  forall s, unbroken (live s) -> unbroken (live (snd (m s))).

(** The same state on both sides, whose next connection meets an unbroken
    session. *)
Definition ready (s1 s2 : state) : Prop :=
  s1 = s2 /\ exists x rest, pending s1 = x :: rest /\ unbroken x.

(** * Reading an assembled query *)

(** The names that occur as quoted identifiers, left to right. *)
Definition identifiers (q : Composable) : list string :=
  flat_map (fun leaf => match leaf with Identifier n => [n] | _ => [] end) (leaves q).

(** The values that occur as escaped literals. *)
Definition literals (q : Composable) : list pyval :=
  flat_map (fun leaf => match leaf with Literal v => [v] | _ => [] end) (leaves q).

(** The fragments that are copied into the statement as they are. *)
Definition raw_sql (q : Composable) : list string :=
  flat_map (fun leaf => match leaf with SQL s => [s] | _ => [] end) (leaves q).

Definition is_key_literal (k : string) (v : pyval) : bool :=
  match v with
  | PyStr s => String.eqb s k
  | PyInt _ => false
  end.

(** The order of the keys of a jsonb object: the shorter key first, and keys
    of one length by their bytes. *)
Fixpoint bytes_leb (a b : string) : bool :=
  match a, b with
  | EmptyString, _ => true
  | String _ _, EmptyString => false
  | String x a', String y b' =>
      (nat_of_ascii x <? nat_of_ascii y)%nat
      || ((nat_of_ascii x =? nat_of_ascii y)%nat && bytes_leb a' b')
  end.

Definition key_leb (a b : string) : bool :=
  (String.length a <? String.length b)%nat
  || ((String.length a =? String.length b)%nat && bytes_leb a b).

(** A key put into the keys of a jsonb object: at its place in the order, and
    once only. *)
Fixpoint add_key (k : string) (ks : list string) : list string :=
  match ks with
  | [] => [k]
  | k' :: ks' =>
      if String.eqb k k' then ks
      else if key_leb k k' then k :: ks
      else k' :: add_key k ks'
  end.

(** The keys of the jsonb object made of members with the keys [l]. *)
Definition jsonb_keys (l : list string) : list string := fold_right add_key [] l.

(** The keys of the JSON object a properties expression evaluates to, on a
    table whose columns are [table_cols], as PostgreSQL defines the two
    expressions: [to_jsonb] of the whole row has one key per column and the
    operator [-] removes the key named by its literal operand; [to_jsonb] of a
    sub-select has one key per selected column. The object is a jsonb value:
    it holds each key once, in the order of jsonb. *)
Definition props_keys (table_cols : list string) (p : Composable) : list string :=
  jsonb_keys
    match identifiers p with
    | [] => filter (fun c => negb (existsb (is_key_literal c) (literals p))) table_cols
    | selected => selected
    end.






(** * Instances and states the statements range over *)

Definition with_show_progress (g : GeojsonGenerator) (b : bool) : GeojsonGenerator :=
  mkGeojsonGenerator (host g) (dbname g) (user g) (password g) (port g) (schema g)
                     (geometry_column g) (batch_size g) b.

Definition with_batch_size (g : GeojsonGenerator) (n : nat) : GeojsonGenerator :=
  mkGeojsonGenerator (host g) (dbname g) (user g) (password g) (port g) (schema g)
                     (geometry_column g) n (show_progress g).

(** The state in which the next connection meets session [x]. *)
Definition facing (x : session) (s : state) : state := set_pending (x :: pending s) s.

(** The empty collection as the specification spells it, prefix then suffix. *)
Definition spec_empty_collection : string := collection_prefix ++ "]}".

(** ** Samples *)

Definition sample : GeojsonGenerator :=
  mkGeojsonGenerator "localhost" "mydb" "postgres" "postgres" 5432 "public" "geom"
                     2 true.

Definition point (x : string) : string :=
  "{" ++ dq ++ "type" ++ dq ++ ":" ++ dq ++ "Feature" ++ dq ++ "," ++ dq ++ "id" ++ dq
      ++ ":" ++ x ++ "}".

Definition three_rows : list (option string) :=
  [Some (point "1"); None; Some (point "2"); Some (point "3")].

Definition point_object (x : string) : list (string * json) :=
  [("type", JString "Feature"); ("id", JNumber x)].

Definition timeout : exn := DatabaseError "canceling statement due to statement timeout".

Definition good_session (rows : list (option string)) : session :=
  mkSession None (Ok (length rows)) None (map Row rows) None None.

Definition no_table : exn := DatabaseError "relation does not exist".

Definition failing_session : session :=
  mkSession None (Ok 0) (Some no_table) [] None None.

(** The server fails while producing the second row. *)
Definition broken_session : session :=
  mkSession None (Ok 2) None [Row (Some (point "1")); Broken timeout] None None.

(** The output path cannot be opened for writing. *)
Definition read_only_session : session :=
  mkSession None (Ok 1) None [Row (Some (point "1"))] (Some (OSError "permission denied"))
            None.

(** The third write to the output file fails. *)
Definition full_disk_session : session :=
  mkSession None (Ok 1) None [Row (Some (point "1"))] None (Some 2).

Definition item_for (table output : string) : item_dict :=
  mkItem (Some table) (Some output) ColsNone None None None None None None None None.

Definition run_sample (x : session) : outcome unit * state :=
  export_table sample "roads" "roads.geojson" ColsNone None None None None None None
               (boot [x]).

(** * The text of the statements *)

(** The filter as the COUNT statement carries it. *)
Definition count_where_text (where_sql : option string) : string :=
  match where_sql with
  | Some w => if nonblank where_sql then " WHERE " ++ w else ""
  | None => ""
  end.

(** The text of the COUNT statement. *)
Definition count_text (sch table : string) (where_sql : option string) : string :=
  "SELECT COUNT(" ++ star ++ ") FROM " ++ quote_ident sch ++ "." ++ quote_ident table
    ++ " t" ++ count_where_text where_sql.

(** The COUNT statement, as composed. *)
Definition count_query (sch table : string) (where_sql : option string) : Composable :=
  let base := Composed [SQL ("SELECT COUNT(" ++ star ++ ") FROM "); Identifier sch;
                        SQL "."; Identifier table; SQL " t"] in
  match where_sql with
  | Some w => if nonblank where_sql then Composed [base; SQL " WHERE "; SQL w] else base
  | None => base
  end.

(** What the COUNT step adds to the log, latest first. *)
Definition count_events (g : GeojsonGenerator) (x : session) (table sch : string)
           (where_sql : option string) (where_params : option (list pyval))
  : list event :=
  if show_progress g then
    (match count_result x with
     | Ok _ => []
     | Raise e => [EvStderr (WarnCount e)]
     end
     ++ [EvCursorClose None;
         EvExecute None (count_query sch table where_sql) (params_or where_params);
         EvCursor None])%list
  else [].

(** The text of the geometry expression. *)
Definition geom_text (geom_col : string) (target_srid : option Z) : string :=
  match target_srid with
  | None => "ST_AsGeoJSON(t." ++ quote_ident geom_col ++ ")::jsonb"
  | Some srid =>
      "ST_AsGeoJSON(ST_Transform(t." ++ quote_ident geom_col ++ ", "
        ++ adapt (PyInt srid) ++ "))::jsonb"
  end.

(** The select list of the sub-select over the listed columns. *)
Definition columns_text (cols : list string) : string :=
  String.concat ", " (map (fun c => "t." ++ quote_ident c) cols).

(** * What a run leaves in the log *)

(** The events of a log that [pick] keeps, oldest first. *)
Definition seen {X} (pick : event -> list X) (lg : list event) : list X :=
  flat_map pick (rev lg).

Definition pick_stderr (ev : event) : list diag :=
  match ev with
  | EvStderr d => [d]
  | _ => []
  end.

Definition pick_stdout (ev : event) : list diag :=
  match ev with
  | EvStdout d => [d]
  | _ => []
  end.

Definition pick_fetch (ev : event) : list (cursor * nat) :=
  match ev with
  | EvFetch cur size => [(cur, size)]
  | _ => []
  end.

Definition pick_execute (ev : event) : list (cursor * Composable * list pyval) :=
  match ev with
  | EvExecute cur q params => [(cur, q, params)]
  | _ => []
  end.

Definition pick_open (ev : event) : list string :=
  match ev with
  | EvOpen path => [path]
  | _ => []
  end.

Definition pick_file_close (ev : event) : list string :=
  match ev with
  | EvFileClose path => [path]
  | _ => []
  end.

Definition pick_cursor_close (ev : event) : list cursor :=
  match ev with
  | EvCursorClose cur => [cur]
  | _ => []
  end.

Definition pick_connect (ev : event) : list (string * string * string * Z) :=
  match ev with
  | EvConnect h d u p => [(h, d, u, p)]
  | _ => []
  end.

(** The lines printed on the error stream and on the output stream. *)
Definition stderr_lines (lg : list event) : list diag := seen pick_stderr lg.
Definition stdout_lines (lg : list event) : list diag := seen pick_stdout lg.

(** The [fetchmany] calls: cursor and size. *)
Definition fetches (lg : list event) : list (cursor * nat) := seen pick_fetch lg.

(** The statements executed: cursor, statement and parameters. *)
Definition statements (lg : list event) : list (cursor * Composable * list pyval) :=
  seen pick_execute lg.

(** The paths opened for writing, and the files closed. *)
Definition opened (lg : list event) : list string := seen pick_open lg.
Definition closed_files (lg : list event) : list string := seen pick_file_close lg.

(** The cursors on which [close] was called. *)
Definition closed_cursors (lg : list event) : list cursor := seen pick_cursor_close lg.

(** The connections made: host, database, user and port. *)
Definition connections (lg : list event) : list (string * string * string * Z) :=
  seen pick_connect lg.

(** The written counts at which a progress line is due while [n] more
    features are written after the first [from]: the multiples of the batch
    size among from+1, ..., from+n. *)
Definition progress_marks (batch from n : nat) : list nat :=
  filter (fun w => (w mod batch =? 0)%nat) (seq (S from) n).

(** The progress lines printed while [n] more features are written after the
    first [from]. *)
Definition progress_lines (g : GeojsonGenerator) (total : option nat)
           (sch table : string) (from n : nat) : list diag :=
  match total with
  | Some t =>
      if negb (t =? 0)%nat && show_progress g
      then map (fun w => Progress sch table w t) (progress_marks (batch_size g) from n)
      else []
  | None => []
  end.

(** The number of non-empty batches that [n] rows make. *)
Definition batches (batch n : nat) : nat := (n + batch - 1) / batch.

(** The warning of a COUNT query that raised. *)
Definition count_warning (g : GeojsonGenerator) (x : session) : list diag :=
  if show_progress g then
    match count_result x with
    | Ok _ => []
    | Raise e => [WarnCount e]
    end
  else [].

(** The line that reports the end of an export that wrote [n] features. *)
Definition done_line (g : GeojsonGenerator) (total : option nat)
           (sch table : string) (n : nat) : list diag :=
  if show_progress g then
    match total with
    | Some t => [DoneOf sch table n t]
    | None => [DoneFeatures sch table n]
    end
  else [].

(** * Steps that leave an observation alone *)

Definition keeps {X A} (obs : state -> X) (m : M A) : Prop :=
  forall s, obs (snd (m s)) = obs s.

(** The content of one file. *)
Definition content_of (path : string) (s : state) : option string :=
  read_file path (files s).

(** * Failures of a session *)

(** The first step of an export that fails before the output file is
    written to: connecting, executing the streaming query, opening the path. *)
Definition early_error (x : session) : option exn :=
  match connect_error x with
  | Some e => Some e
  | None =>
      match execute_error x with
      | Some e => Some e
      | None => open_error x
      end
  end.

(** A session whose named cursor fails after delivering [rows], nothing else
    failing. *)
Definition breaks_after (x : session) (rows : list (option string)) (e : exn) : Prop :=
  count_answers x = true
  /\ connect_error x = None /\ execute_error x = None
  /\ (exists rest, stream x = (map Row rows ++ Broken e :: rest)%list)
  /\ open_error x = None /\ write_budget x = None.

(** * Items of a batch *)

Definition with_filters (item : item_dict) (where_sql where_ filter_ : option string)
  : item_dict :=
  mkItem (i_table item) (i_output item) (i_columns item) where_sql where_ filter_
         (i_where_params item) (i_order_by item) (i_target_srid item)
         (i_schema item) (i_geometry_column item).

(** * Kinds of events, and runs that log only some kinds *)

Inductive kind : Type :=
| KConnect | KConnClose | KCursor | KCursorClose | KExecute | KFetch
| KOpen | KWrite | KFileClose | KStderr | KStdout.

Definition kind_of (ev : event) : kind :=
  match ev with
  | EvConnect _ _ _ _ => KConnect
  | EvConnClose => KConnClose
  | EvCursor _ => KCursor
  | EvCursorClose _ => KCursorClose
  | EvExecute _ _ _ => KExecute
  | EvFetch _ _ => KFetch
  | EvOpen _ => KOpen
  | EvWrite _ _ => KWrite
  | EvFileClose _ => KFileClose
  | EvStderr _ => KStderr
  | EvStdout _ => KStdout
  end.

(** Every event of [evs] is of one of the kinds [ks]. *)
Definition of_kinds (ks : list kind) (evs : list event) : Prop :=
  Forall (fun ev => In (kind_of ev) ks) evs.

(** A run adds to the log events of the kinds [ks] only. *)
Definition emits {A} (ks : list kind) (m : M A) : Prop :=
  forall s, exists evs, log (snd (m s)) = (evs ++ log s)%list /\ of_kinds ks evs.

(** What a run adds to the error stream, the output stream and the fetches. *)
Definition logged (s s' : state) (err out : list diag) (fs : list (cursor * nat))
  : Prop :=
  stderr_lines (log s') = (stderr_lines (log s) ++ err)%list
  /\ stdout_lines (log s') = (stdout_lines (log s) ++ out)%list
  /\ fetches (log s') = (fetches (log s) ++ fs)%list.

(** The kinds of events of the writing loop, and of what follows it. *)
Definition loop_kinds (total : option nat) : list kind :=
  match total with
  | Some _ => [KWrite; KFetch; KStderr]
  | None => [KWrite; KFetch]
  end.

Definition tail_kinds (g : GeojsonGenerator) : list kind :=
  if show_progress g then [KStdout; KCursorClose; KConnClose]
  else [KCursorClose; KConnClose].

(** * Arguments that mean the default *)

(** A [columns] argument that selects all columns: omitted, the empty list,
    the empty string, or the sentinel with blanks around it. *)
Definition omitted_columns (c : columns_arg) : bool :=
  match c with
  | ColsNone => true
  | ColsStr s => is_empty s || String.eqb (strip s) star
  | ColsList l => is_nil l
  end.

Definition plain_columns (c : columns_arg) : columns_arg :=
  if omitted_columns c then ColsNone else c.

(** A filter or an ordering with something in it beside blanks, or none. *)
Definition plain_text (o : option string) : option string :=
  if nonblank o then o else None.

(** Parameters, or none for the empty list. *)
Definition plain_params (p : option (list pyval)) : option (list pyval) :=
  match p with
  | Some [] => None
  | _ => p
  end.

(** An override that is not empty, or none. *)
Definition plain_override (o : option string) : option string :=
  if truthy o then o else None.

(** Text of ASCII characters only, on which bytes and characters agree. *)
Fixpoint ascii_only (s : string) : bool :=
  match s with
  | EmptyString => true
  | String c r => (nat_of_ascii c <? 128)%nat && ascii_only r
  end.

(** The filter of an item: the first of the keys [where_sql], [where] and
    [filter] that holds a non-empty text. *)
Definition chosen_filter (item : item_dict) : option string :=
  if truthy (i_where_sql item) then i_where_sql item
  else if truthy (i_where item) then i_where item
  else if truthy (i_filter item) then i_filter item
  else None.

(** One job of a batch: the item, the session its connection meets, and the
    rows of its query. *)
Definition job : Type := (item_dict * (session * list (option string)))%type.

Definition job_item (j : job) : item_dict := fst j.
Definition job_session (j : job) : session := fst (snd j).
Definition job_rows (j : job) : list (option string) := snd (snd j).

(** A job whose item names its table and its output, on a session where
    nothing fails. *)
Definition job_ready (j : job) : Prop :=
  healthy (job_session j) (job_rows j)
  /\ i_table (job_item j) <> None /\ i_output (job_item j) <> None.

(** The output of the job holds the collection of its rows. *)
Definition job_done (fs : list (string * string)) (j : job) : Prop :=
  exists out,
    i_output (job_item j) = Some out
    /\ read_file out fs = Some (collection_text (features_of (job_rows j))).
(* ================================================================== *)
(** * Facts about strings *)
(* ================================================================== *)

Lemma append_nil_r (s : string) : s ++ "" = s.
Proof. induction s as [|c s IH]; simpl; [reflexivity | now rewrite IH]. Qed.

Lemma append_assoc (a b c : string) : (a ++ b) ++ c = a ++ (b ++ c).
Proof. induction a as [|x a IH]; simpl; [reflexivity | now rewrite IH]. Qed.

Lemma length_append (a b : string) :
  String.length (a ++ b) = String.length a + String.length b.
Proof. induction a as [|x a IH]; simpl; [reflexivity | now rewrite IH]. Qed.

(* ================================================================== *)
(** * The JSON reader: more fuel and more text to the right change nothing *)
(* ================================================================== *)

Module JsonFacts.

Lemma skip_ws_app (s t : string) (c : ascii) (r : string) :
  skip_ws s = String c r -> skip_ws (s ++ t) = String c (r ++ t).
Proof.
  induction s as [|x s IH]; simpl; [discriminate|].
  destruct (is_ws x) eqn:Hx.
  - exact IH.
  - intros H. injection H as -> ->. reflexivity.
Qed.

Lemma skip_ws_blank_app (s t : string) :
  skip_ws s = "" -> skip_ws (s ++ t) = skip_ws t.
Proof.
  induction s as [|x s IH]; simpl; [reflexivity|].
  destruct (is_ws x); [exact IH | discriminate].
Qed.

Lemma prepend_some pre r body rest :
  prepend pre r = Some (body, rest) ->
  exists b, r = Some (b, rest) /\ body = pre ++ b.
Proof.
  destruct r as [[b q]|]; simpl; [|discriminate].
  intros H. injection H as <- <-. now exists b.
Qed.

Lemma parse_chars_app_len (n : nat) :
  forall s t body rest,
    String.length s <= n ->
    parse_chars s = Some (body, rest) ->
    parse_chars (s ++ t) = Some (body, rest ++ t).
Proof.
  induction n as [|n IH]; intros s t body rest Hlen H.
  - destruct s; [discriminate | simpl in Hlen; lia].
  - destruct s as [|c r]; [discriminate|].
    simpl in H |- *. simpl in Hlen.
    destruct (Ascii.eqb c quote).
    { injection H as <- <-. reflexivity. }
    destruct (Ascii.eqb c backslash).
    + destruct r as [|e r1]; [discriminate|]. simpl in Hlen |- *.
      destruct (is_escape e).
      * apply prepend_some in H as (b & Hb & ->).
        rewrite (IH r1 t b rest); [reflexivity | lia | exact Hb].
      * destruct (Ascii.eqb e "u"%char); [|discriminate].
        destruct r1 as [|h1 [|h2 [|h3 [|h4 r2]]]]; try discriminate.
        simpl in Hlen |- *.
        destruct (is_hex h1 && is_hex h2 && is_hex h3 && is_hex h4); [|discriminate].
        apply prepend_some in H as (b & Hb & ->).
        rewrite (IH r2 t b rest); [reflexivity | lia | exact Hb].
    + destruct (is_control c); [discriminate|].
      apply prepend_some in H as (b & Hb & ->).
      rewrite (IH r t b rest); [reflexivity | lia | exact Hb].
Qed.

Lemma parse_chars_app s t body rest :
  parse_chars s = Some (body, rest) ->
  parse_chars (s ++ t) = Some (body, rest ++ t).
Proof. apply (parse_chars_app_len (String.length s)). lia. Qed.

Lemma scan_number_app s : forall st acc t lexeme rest,
  scan_number st s acc = Some (lexeme, rest) ->
  rest <> "" ->
  scan_number st (s ++ t) acc = Some (lexeme, rest ++ t).
Proof.
  induction s as [|c r IH]; intros st acc t lexeme rest H Hne; simpl in H.
  - destruct (naccept st); [|discriminate]. injection H as <- <-. now elim Hne.
  - simpl. destruct (nstep st c) as [st'|].
    + now apply IH.
    + destruct (naccept st); [|discriminate]. injection H as <- <-. reflexivity.
Qed.

Lemma strip_prefix_app p : forall s t rest,
  strip_prefix p s = Some rest -> strip_prefix p (s ++ t) = Some (rest ++ t).
Proof.
  induction p as [|c p IH]; intros s t rest H; simpl in H |- *.
  - now injection H as <-.
  - destruct s as [|d s]; [discriminate|]. simpl.
    destruct (Ascii.eqb c d); [now apply IH | discriminate].
Qed.

Lemma keyword_app p v s t w rest :
  keyword p v s = Some (w, rest) -> keyword p v (s ++ t) = Some (w, rest ++ t).
Proof.
  unfold keyword. destruct (strip_prefix p s) as [q|] eqn:E; [|discriminate].
  intros H. injection H as <- <-. now rewrite (strip_prefix_app _ _ t _ E).
Qed.

Lemma keyword_value p v s w rest : keyword p v s = Some (w, rest) -> w = v.
Proof.
  unfold keyword. destruct (strip_prefix p s); [|discriminate]. now intros [= <- _].
Qed.

Section Extension.

Variable pv : string -> option (json * string).
Variable pm : string -> option (list (string * json) * string).
Variable pe : string -> option (list json * string).

Lemma value_body_ext : ext_seq pm -> ext_seq pe -> ext_value (value_body pm pe).
Proof.
  intros Hm He s t v rest H Hc. unfold value_body in H |- *.
  destruct (skip_ws s) as [|c r] eqn:Es; [discriminate|].
  rewrite (skip_ws_app _ t _ _ Es).
  destruct (Ascii.eqb c "{"%char).
  { destruct (skip_ws r) as [|c' r'] eqn:Er; [discriminate|].
    rewrite (skip_ws_app _ t _ _ Er).
    destruct (Ascii.eqb c' "}"%char); [now injection H as <- <-|].
    destruct (pm r) as [[m q]|] eqn:Em; [|discriminate].
    injection H as <- <-. now rewrite (Hm _ t _ _ Em). }
  destruct (Ascii.eqb c "["%char).
  { destruct (skip_ws r) as [|c' r'] eqn:Er; [discriminate|].
    rewrite (skip_ws_app _ t _ _ Er).
    destruct (Ascii.eqb c' "]"%char); [now injection H as <- <-|].
    destruct (pe r) as [[l q]|] eqn:El; [|discriminate].
    injection H as <- <-. now rewrite (He _ t _ _ El). }
  destruct (Ascii.eqb c quote).
  { destruct (parse_chars r) as [[str q]|] eqn:Ec; [|discriminate].
    injection H as <- <-. now rewrite (parse_chars_app _ t _ _ Ec). }
  destruct (Ascii.eqb c "t"%char); [now apply keyword_app|].
  destruct (Ascii.eqb c "f"%char); [now apply keyword_app|].
  destruct (Ascii.eqb c "n"%char); [now apply keyword_app|].
  destruct (scan_number NStart (String c r) "") as [[lexeme q]|] eqn:En; [|discriminate].
  injection H as <- <-.
  destruct Hc as [Hne|[]].
  change (String c (r ++ t)) with (String c r ++ t).
  now rewrite (scan_number_app _ _ _ t _ _ En Hne).
Qed.

Lemma members_body_ext : ext_value pv -> ext_seq pm -> ext_seq (members_body pv pm).
Proof.
  intros Hv Hm s t l rest H. unfold members_body in H |- *.
  destruct (skip_ws s) as [|c r] eqn:Es; [discriminate|].
  rewrite (skip_ws_app _ t _ _ Es).
  destruct (Ascii.eqb c quote); [|discriminate].
  destruct (parse_chars r) as [[k r1]|] eqn:Ek; [|discriminate].
  rewrite (parse_chars_app _ t _ _ Ek).
  destruct (skip_ws r1) as [|c1 r2] eqn:E1; [discriminate|].
  rewrite (skip_ws_app _ t _ _ E1).
  destruct (Ascii.eqb c1 ":"%char); [|discriminate].
  destruct (pv r2) as [[v r3]|] eqn:Ev; [|discriminate].
  destruct (skip_ws r3) as [|c3 r4] eqn:E3; [discriminate|].
  assert (Hr3 : r3 <> "") by (intros ->; discriminate).
  rewrite (Hv _ t _ _ Ev (or_introl Hr3)).
  rewrite (skip_ws_app _ t _ _ E3).
  destruct (Ascii.eqb c3 ","%char).
  { destruct (pm r4) as [[m r5]|] eqn:Em; [|discriminate].
    injection H as <- <-. now rewrite (Hm _ t _ _ Em). }
  destruct (Ascii.eqb c3 "}"%char); [|discriminate].
  now injection H as <- <-.
Qed.

Lemma elements_body_ext : ext_value pv -> ext_seq pe -> ext_seq (elements_body pv pe).
Proof.
  intros Hv He s t l rest H. unfold elements_body in H |- *.
  destruct (pv s) as [[v r1]|] eqn:Ev; [|discriminate].
  destruct (skip_ws r1) as [|c r2] eqn:E1; [discriminate|].
  assert (Hr1 : r1 <> "") by (intros ->; discriminate).
  rewrite (Hv _ t _ _ Ev (or_introl Hr1)).
  rewrite (skip_ws_app _ t _ _ E1).
  destruct (Ascii.eqb c ","%char).
  { destruct (pe r2) as [[m r3]|] eqn:Em; [|discriminate].
    injection H as <- <-. now rewrite (He _ t _ _ Em). }
  destruct (Ascii.eqb c "]"%char); [|discriminate].
  now injection H as <- <-.
Qed.

End Extension.

Lemma parse_ext (n : nat) :
  ext_value (parse_value n) /\ ext_seq (parse_members n) /\ ext_seq (parse_elements n).
Proof.
  induction n as [|n (IHv & IHm & IHe)].
  - repeat split; intros s t v rest H; discriminate.
  - repeat split.
    + exact (value_body_ext _ _ IHm IHe).
    + exact (members_body_ext _ _ IHv IHm).
    + exact (elements_body_ext _ _ IHv IHe).
Qed.

Section Monotone.

Variables pv pv' : string -> option (json * string).
Variables pm pm' : string -> option (list (string * json) * string).
Variables pe pe' : string -> option (list json * string).

Lemma value_body_below :
  below pm pm' -> below pe pe' -> below (value_body pm pe) (value_body pm' pe').
Proof.
  intros Hm He s r H. unfold value_body in H |- *.
  destruct (skip_ws s) as [|c q]; [discriminate|].
  destruct (Ascii.eqb c "{"%char).
  { destruct (skip_ws q) as [|c' q']; [discriminate|].
    destruct (Ascii.eqb c' "}"%char); [exact H|].
    destruct (pm q) as [[m w]|] eqn:Em; [|discriminate].
    now rewrite (Hm _ _ Em). }
  destruct (Ascii.eqb c "["%char).
  { destruct (skip_ws q) as [|c' q']; [discriminate|].
    destruct (Ascii.eqb c' "]"%char); [exact H|].
    destruct (pe q) as [[m w]|] eqn:Em; [|discriminate].
    now rewrite (He _ _ Em). }
  exact H.
Qed.

Lemma members_body_below :
  below pv pv' -> below pm pm' -> below (members_body pv pm) (members_body pv' pm').
Proof.
  intros Hv Hm s r H. unfold members_body in H |- *.
  destruct (skip_ws s) as [|c q]; [discriminate|].
  destruct (Ascii.eqb c quote); [|discriminate].
  destruct (parse_chars q) as [[k r1]|]; [|discriminate].
  destruct (skip_ws r1) as [|c1 r2]; [discriminate|].
  destruct (Ascii.eqb c1 ":"%char); [|discriminate].
  destruct (pv r2) as [[v r3]|] eqn:Ev; [|discriminate].
  rewrite (Hv _ _ Ev).
  destruct (skip_ws r3) as [|c3 r4]; [discriminate|].
  destruct (Ascii.eqb c3 ","%char); [|exact H].
  destruct (pm r4) as [[m r5]|] eqn:Em; [|discriminate].
  now rewrite (Hm _ _ Em).
Qed.

Lemma elements_body_below :
  below pv pv' -> below pe pe' -> below (elements_body pv pe) (elements_body pv' pe').
Proof.
  intros Hv He s r H. unfold elements_body in H |- *.
  destruct (pv s) as [[v r1]|] eqn:Ev; [|discriminate].
  rewrite (Hv _ _ Ev).
  destruct (skip_ws r1) as [|c r2]; [discriminate|].
  destruct (Ascii.eqb c ","%char); [|exact H].
  destruct (pe r2) as [[m r3]|] eqn:Em; [|discriminate].
  now rewrite (He _ _ Em).
Qed.

End Monotone.

Lemma parse_step (n : nat) :
  below (parse_value n) (parse_value (S n))
  /\ below (parse_members n) (parse_members (S n))
  /\ below (parse_elements n) (parse_elements (S n)).
Proof.
  induction n as [|n (IHv & IHm & IHe)].
  - repeat split; intros s r H; discriminate.
  - repeat split.
    + exact (value_body_below _ _ _ _ IHm IHe).
    + exact (members_body_below _ _ _ _ IHv IHm).
    + exact (elements_body_below _ _ _ _ IHv IHe).
Qed.

Lemma parse_value_more (n m : nat) : n <= m -> below (parse_value n) (parse_value m).
Proof.
  induction 1 as [|m _ IH]; intros s r H; [exact H|].
  now apply (proj1 (parse_step m)), IH.
Qed.

Lemma parse_members_more (n m : nat) : n <= m -> below (parse_members n) (parse_members m).
Proof.
  induction 1 as [|m _ IH]; intros s r H; [exact H|].
  now apply (proj1 (proj2 (parse_step m))), IH.
Qed.

Lemma parse_elements_more (n m : nat) :
  n <= m -> below (parse_elements n) (parse_elements m).
Proof.
  induction 1 as [|m _ IH]; intros s r H; [exact H|].
  now apply (proj2 (proj2 (parse_step m))), IH.
Qed.

End JsonFacts.
Module CollectionFacts.
Import JsonFacts.

Lemma parse_value_nl (n : nat) (s : string) :
  parse_value n (nl ++ s) = parse_value n s.
Proof. destruct n; reflexivity. Qed.

Lemma reads_as_inv t o :
  reads_as t o ->
  exists r, parse_value (S (String.length t)) t = Some (JObject o, r) /\ skip_ws r = "".
Proof.
  unfold reads_as, parse_json.
  destruct (parse_value (S (String.length t)) t) as [[v r]|]; [|discriminate].
  destruct (skip_ws r) eqn:Er; simpl; [|discriminate].
  intros [= ->]. now exists r.
Qed.

Lemma parse_feature_in_context t o n Y :
  reads_as t o -> S (String.length t) <= n ->
  exists r, parse_value n (nl ++ t ++ Y) = Some (JObject o, r ++ Y) /\ skip_ws r = "".
Proof.
  intros Hv Hn. destruct (reads_as_inv _ _ Hv) as (r & Hp & Hr).
  exists r. split; [|exact Hr].
  rewrite parse_value_nl.
  apply (proj1 (parse_ext n)); [|right; exact I].
  exact (parse_value_more _ _ Hn _ _ Hp).
Qed.

Lemma parse_elements_features ts : forall objs,
  Forall2 reads_as ts objs ->
  forall t o fuel z,
    reads_as t o -> budget (t :: ts) <= fuel ->
    parse_elements fuel (nl ++ t ++ more_features ts ++ nl ++ "]" ++ z)
    = Some (JObject o :: map JObject objs, z).
Proof.
  induction ts as [|t' ts IH]; intros objs HF t o fuel z Hv Hfuel;
    inversion HF as [|? o' ? objs' Hv' HF']; subst;
    (destruct fuel as [|n]; [unfold budget in Hfuel; simpl in Hfuel; lia|]);
    cbn [parse_elements]; unfold elements_body.
  - destruct (parse_feature_in_context t o n (more_features [] ++ nl ++ "]" ++ z) Hv)
      as (r & -> & Hr).
    { unfold budget in Hfuel. simpl in Hfuel. lia. }
    rewrite (skip_ws_blank_app _ _ Hr). reflexivity.
  - destruct (parse_feature_in_context t o n (more_features (t' :: ts) ++ nl ++ "]" ++ z) Hv)
      as (r & -> & Hr).
    { unfold budget in Hfuel. simpl in Hfuel. lia. }
    rewrite (skip_ws_blank_app _ _ Hr).
    cbn [more_features]. rewrite !append_assoc.
    change (skip_ws ("," ++ nl ++ t' ++ more_features ts ++ nl ++ "]" ++ z))
      with (String ","%char (nl ++ t' ++ more_features ts ++ nl ++ "]" ++ z)).
    cbn [Ascii.eqb Bool.eqb].
    rewrite (IH objs' HF' t' o' n z Hv').
    + reflexivity.
    + unfold budget in Hfuel |- *. simpl in Hfuel |- *. lia.
Qed.

Lemma first_char_not_bracket n e v r :
  parse_value n e = Some (v, r) ->
  exists c q, skip_ws e = String c q /\ Ascii.eqb c "]"%char = false.
Proof.
  destruct n as [|n]; [discriminate|]. cbn [parse_value]. unfold value_body.
  destruct (skip_ws e) as [|c q]; [discriminate|]. intros H.
  exists c, q. split; [reflexivity|].
  destruct (Ascii.eqb c "]"%char) eqn:E; [|reflexivity].
  apply Ascii.eqb_eq in E. subst c. discriminate H.
Qed.

(** The array of the collection. *)
Lemma parse_features_array ts objs fuel z :
  Forall2 reads_as ts objs -> budget ts <= fuel ->
  parse_value (S fuel) ("[" ++ batch_text true ts ++ nl ++ "]" ++ z)
  = Some (JArray (map JObject objs), z).
Proof.
  intros HF Hfuel. destruct HF as [|t o ts objs Hv HF].
  - reflexivity.
  - cbn [batch_text]. rewrite !append_assoc.
    cbn [parse_value]. unfold value_body.
    change (skip_ws ("[" ++ nl ++ t ++ more_features ts ++ nl ++ "]" ++ z))
      with (String "["%char (nl ++ t ++ more_features ts ++ nl ++ "]" ++ z)).
    cbn [Ascii.eqb Bool.eqb].
    rewrite (parse_elements_features ts objs HF t o fuel z Hv Hfuel).
    destruct (parse_feature_in_context t o (S (String.length t))
                (more_features ts ++ nl ++ "]" ++ z) Hv (le_n _)) as (r & Hp & _).
    destruct (first_char_not_bracket _ _ _ _ Hp) as (c & q & -> & ->).
    reflexivity.
Qed.

Lemma collection_text_split ts :
  collection_text ts = before_array ++ "[" ++ batch_text true ts ++ nl ++ "]" ++ "}".
Proof. reflexivity. Qed.

Lemma parse_around_array m X arr :
  parse_value m X = Some (arr, "}") ->
  parse_value (S (S (S m))) (before_array ++ X)
  = Some (JObject [("type", JString "FeatureCollection"); ("features", arr)], "").
Proof.
  intros H. cbn [parse_value parse_members parse_elements].
  cbv -[parse_value parse_members parse_elements]. rewrite H. reflexivity.
Qed.

Lemma parse_collection_fuel ts objs fuel :
  Forall2 reads_as ts objs -> budget ts <= fuel ->
  parse_value (S (S (S (S fuel)))) (collection_text ts)
  = Some (feature_collection (map JObject objs), "").
Proof.
  intros HF Hfuel. rewrite collection_text_split.
  apply parse_around_array.
  exact (parse_features_array ts objs fuel "}" HF Hfuel).
Qed.

Lemma length_more_features ts :
  String.length (more_features ts) = list_sum (map (fun t => String.length t + 2) ts).
Proof.
  induction ts as [|t ts IH]; [reflexivity|].
  cbn [more_features map list_sum]. rewrite !length_append, IH. simpl. lia.
Qed.

Lemma budget_fits ts : budget ts + 4 <= S (String.length (collection_text ts)).
Proof.
  rewrite collection_text_split. rewrite !length_append. unfold budget.
  destruct ts as [|t ts]; cbn [batch_text map list_sum].
  - simpl. lia.
  - rewrite !length_append, length_more_features. simpl. lia.
Qed.

(** The text of a collection of valid features reads as a FeatureCollection
    holding those features, in order. *)
Lemma parse_collection ts objs :
  Forall2 reads_as ts objs ->
  parse_json (collection_text ts) = Some (feature_collection (map JObject objs)).
Proof.
  intros HF. unfold parse_json.
  pose proof (budget_fits ts) as Hb.
  destruct (String.length (collection_text ts)) as [|[|[|n]]] eqn:El; try lia.
  rewrite (parse_collection_fuel ts objs n HF); [reflexivity | lia].
Qed.

End CollectionFacts.
(* ================================================================== *)
(** * The SQL builders never raise, and what they build *)
(* ================================================================== *)

Module QueryFacts.

Lemma rmap_column_refs (l : list string) :
  rmap (fun c => SQL_format "t.{}" [Identifier c] []) l = Ok (map column_ref l).
Proof.
  induction l as [|c l IH]; [reflexivity|].
  cbn [rmap map]. rewrite IH. reflexivity.
Qed.

Lemma geom_expr_shape geom_col target_srid :
  _geom_expr geom_col target_srid = Ok (geom_shape geom_col target_srid).
Proof. destruct target_srid; reflexivity. Qed.

Lemma props_expr_shape columns geom_col :
  _props_expr columns geom_col = Ok (props_shape columns geom_col).
Proof.
  unfold _props_expr, props_shape.
  destruct (no_columns columns); [reflexivity|].
  rewrite rmap_column_refs. reflexivity.
Qed.

Lemma build_query_shape schema table columns geom_col where_sql order_by target_srid :
  _build_query schema table columns geom_col where_sql order_by target_srid
  = Ok (with_order order_by
          (with_where where_sql
             (select_shape schema table columns geom_col target_srid))).
Proof.
  unfold _build_query. rewrite geom_expr_shape, props_expr_shape.
  unfold with_order, with_where.
  destruct where_sql as [w|]; [destruct (nonblank (Some w))|];
    (destruct order_by as [ob|]; [destruct (nonblank (Some ob))|]); reflexivity.
Qed.

End QueryFacts.
(* ================================================================== *)
(** * A run in which nothing fails *)
(* ================================================================== *)

Module RunFacts.
Import QueryFacts.

Lemma append_file_twice path a b fs :
  append_file path b (append_file path a fs) = append_file path (a ++ b) fs.
Proof.
  induction fs as [|[p c] fs IH]; cbn [append_file].
  - now rewrite String.eqb_refl.
  - destruct (String.eqb path p) eqn:E; cbn [append_file]; rewrite E.
    + now rewrite append_assoc.
    + now rewrite IH.
Qed.

Lemma read_append_truncate path text fs :
  read_file path (append_file path text (truncate_file path fs)) = Some text.
Proof.
  induction fs as [|[p c] fs IH]; cbn [truncate_file append_file read_file].
  - now rewrite String.eqb_refl; cbn [read_file]; rewrite String.eqb_refl.
  - destruct (String.eqb path p) eqn:E; cbn [append_file]; rewrite E;
      cbn [read_file]; rewrite E.
    + reflexivity.
    + exact IH.
Qed.

Lemma read_other_append path other text fs :
  String.eqb other path = false ->
  read_file other (append_file path text fs) = read_file other fs.
Proof.
  intros Hne. induction fs as [|[p c] fs IH]; cbn [append_file read_file].
  - now rewrite Hne.
  - destruct (String.eqb path p) eqn:E; cbn [read_file].
    + apply String.eqb_eq in E. subst p. now rewrite Hne.
    + now rewrite IH.
Qed.

Lemma read_other_truncate path other fs :
  String.eqb other path = false ->
  read_file other (truncate_file path fs) = read_file other fs.
Proof.
  intros Hne. induction fs as [|[p c] fs IH]; cbn [truncate_file read_file].
  - now rewrite Hne.
  - destruct (String.eqb path p) eqn:E; cbn [read_file].
    + apply String.eqb_eq in E. subst p. now rewrite Hne.
    + now rewrite IH.
Qed.

Lemma batch_text_false ts : batch_text false ts = more_features ts.
Proof. destruct ts; reflexivity. Qed.

Lemma more_features_app a b :
  more_features (a ++ b) = more_features a ++ more_features b.
Proof.
  induction a as [|t a IH]; [reflexivity|].
  cbn [app more_features]. rewrite IH. now rewrite !append_assoc.
Qed.

Lemma batch_text_app first a b :
  batch_text first (a ++ b) = batch_text first a ++ batch_text (first && is_nil a) b.
Proof.
  destruct a as [|t a].
  - cbn [app batch_text is_nil]. now rewrite andb_true_r.
  - cbn [is_nil]. rewrite andb_false_r, batch_text_false.
    destruct first; cbn [app batch_text].
    + rewrite more_features_app. now rewrite !append_assoc.
    + change (more_features (t :: a ++ b)) with (more_features ((t :: a) ++ b)).
      now rewrite more_features_app.
Qed.

Lemma features_of_app a b : features_of (a ++ b) = (features_of a ++ features_of b)%list.
Proof.
  induction a as [|[t|] a IH]; cbn [app features_of]; [reflexivity| |exact IH].
  now rewrite IH.
Qed.

Lemma deliver_rows rows : deliver (map Row rows) = Ok rows.
Proof.
  induction rows as [|r rows IH]; [reflexivity|].
  cbn [map deliver]. now rewrite IH.
Qed.

Ltac state_simpl :=
  unfold record, set_files, set_live, set_pending, set_conns, set_cursors,
    with_stream, with_budget in *;
  cbn [pending live files open_conns open_cursors log connect_error count_result
       execute_error stream open_error write_budget] in *.

(** ** What a log shows *)

Lemma seen_cons {X} (pick : event -> list X) ev lg :
  seen pick (ev :: lg) = (seen pick lg ++ pick ev)%list.
Proof. unfold seen. cbn [rev]. rewrite flat_map_app. cbn. now rewrite app_nil_r. Qed.

Lemma seen_app {X} (pick : event -> list X) a b :
  seen pick (a ++ b) = (seen pick b ++ seen pick a)%list.
Proof. unfold seen. now rewrite rev_app_distr, flat_map_app. Qed.

(** ** The session after the COUNT step *)

Lemma after_count_answers g x : count_answers x = true -> after_count g x = x.
Proof.
  unfold after_count, count_answers. destruct (show_progress g); [|reflexivity].
  destruct (count_result x); [reflexivity | discriminate].
Qed.

Lemma after_count_silent g x : show_progress g = false -> after_count g x = x.
Proof. unfold after_count. now intros ->. Qed.

Lemma after_count_accepted g x :
  execute_error (after_count g x) = None -> after_count g x = x.
Proof.
  unfold after_count. destruct (show_progress g); [|reflexivity].
  destruct (count_result x); [reflexivity | discriminate].
Qed.

Lemma after_count_failed g x e :
  show_progress g = true -> count_result x = Raise e -> after_count g x = aborted x.
Proof. unfold after_count. now intros -> ->. Qed.

Lemma after_count_fields g x :
  connect_error (after_count g x) = connect_error x
  /\ count_result (after_count g x) = count_result x
  /\ stream (after_count g x) = stream x
  /\ open_error (after_count g x) = open_error x
  /\ write_budget (after_count g x) = write_budget x.
Proof.
  unfold after_count. destruct (show_progress g); [|auto].
  destruct (count_result x) eqn:E; cbn; rewrite ?E; auto.
Qed.

Lemma healthy_flowing g x rows : healthy x rows -> flowing (after_count g x) rows.
Proof. intros [Hc Hf]. rewrite after_count_answers by exact Hc. exact Hf. Qed.

Section Run.

Variable self : GeojsonGenerator.

Lemma report_progress_quiet total e t written p l f c cu lg :
  batch_size self <> 0 ->
  exists lg',
    report_progress self total e t written (mkState p l f c cu lg)
    = (Return tt, mkState p l f c cu lg').
Proof.
  intros Hb. unfold report_progress.
  destruct total as [n|]; [|now exists lg].
  destruct (negb (n =? 0)%nat && show_progress self); [|now exists lg].
  destruct (batch_size self =? 0)%nat eqn:E; [apply Nat.eqb_eq in E; contradiction|].
  destruct (written mod batch_size self =? 0)%nat; [|now exists lg].
  eexists. reflexivity.
Qed.

Lemma write_rows_healthy path total e t rows :
  batch_size self <> 0 ->
  forall first written p ce cr ee st oe pre fs0 c cu lg,
  exists lg',
    write_rows self path total e t rows first written
      (mkState p (mkSession ce cr ee st oe None) (append_file path pre fs0) c cu lg)
    = (Return (first && is_nil (features_of rows), written + length (features_of rows)),
       mkState p (mkSession ce cr ee st oe None)
         (append_file path (pre ++ batch_text first (features_of rows)) fs0) c cu lg').
Proof.
  intros Hb. induction rows as [|[text|] rows IH]; intros.
  - exists lg. cbn. now rewrite andb_true_r, Nat.add_0_r, append_nil_r.
  - cbn [write_rows features_of]. unfold bind.
    set (s0 := mkState p (mkSession ce cr ee st oe None) (append_file path pre fs0) c cu lg).
    assert (Hsep : exists lg1,
      (if first then ret tt else file_write path ",") s0
      = (Return tt, mkState p (mkSession ce cr ee st oe None)
                      (append_file path (pre ++ (if first then "" else ",")) fs0) c cu lg1)).
    { destruct first; cbn.
      - exists lg. now rewrite append_nil_r.
      - eexists. now rewrite append_file_twice. }
    destruct Hsep as (lg1 & ->).
    unfold file_write. state_simpl.
    rewrite !append_file_twice.
    match goal with
    | |- context [report_progress self total e t ?w (mkState ?p' ?l' ?f' ?c' ?cu' ?lg')] =>
        destruct (report_progress_quiet total e t w p' l' f' c' cu' lg' Hb) as (lg2 & ->)
    end.
    match goal with
    | |- context [write_rows self path total e t rows false ?w
                    (mkState _ _ (append_file path ?pre' fs0) _ _ ?lg')] =>
        destruct (IH false w p ce cr ee st oe pre' fs0 c cu lg') as (lg3 & ->)
    end.
    exists lg3. rewrite batch_text_false, andb_false_r.
    cbn [is_nil length]. f_equal; [f_equal; f_equal; lia|].
    f_equal. f_equal.
    destruct first; cbn [batch_text]; rewrite !append_assoc; reflexivity.
  - cbn [write_rows features_of]. apply IH.
Qed.

Lemma firstn_nil_inv {A} n (l : list A) : firstn n l = [] -> n = 0 \/ l = [].
Proof. destruct n, l; cbn; auto; discriminate. Qed.

Lemma stream_loop_healthy cur path total e t :
  forall fuel rows first written p ce cr ee oe pre fs0 c cu lg,
    length rows < fuel ->
    batch_size self <> 0 \/ rows = [] ->
    exists lg',
      stream_loop self fuel cur path total e t first written
        (mkState p (mkSession ce cr ee (map Row rows) oe None)
                 (append_file path pre fs0) c cu lg)
      = (Return (written + length (features_of rows)),
         mkState p (mkSession ce cr ee [] oe None)
           (append_file path (pre ++ batch_text first (features_of rows)) fs0) c cu lg').
Proof.
  induction fuel as [|fuel IH]; intros rows first written p ce cr ee oe pre fs0 c cu lg
                                       Hfuel Hb; [lia|].
  cbn [stream_loop]. unfold bind at 1. unfold cursor_fetchmany.
  state_simpl.
  rewrite firstn_map, deliver_rows, skipn_map.
  destruct (firstn (batch_size self) rows) as [|r rs] eqn:Ef.
  - assert (rows = []) as ->.
    { destruct Hb as [Hb|]; [|assumption].
      destruct (firstn_nil_inv _ _ Ef); [contradiction | assumption]. }
    cbn. rewrite skipn_nil. eexists.
    now rewrite Nat.add_0_r, append_nil_r.
  - assert (Hb' : batch_size self <> 0).
    { destruct Hb as [ | -> ]; [assumption|]. rewrite firstn_nil in Ef. discriminate. }
    unfold bind.
    match goal with
    | |- context [write_rows self path total e t (r :: rs) first written
                    (mkState ?p' (mkSession ?a1 ?a2 ?a3 ?a4 ?a5 None)
                       (append_file path ?pre' ?fs') ?c' ?cu' ?lg')] =>
        destruct (write_rows_healthy path total e t (r :: rs) Hb' first written
                    p' a1 a2 a3 a4 a5 pre' fs' c' cu' lg') as (lg1 & ->)
    end.
    cbn [fst snd].
    assert (Hlen : length (skipn (batch_size self) rows) < fuel).
    { rewrite length_skipn.
      destruct rows; [rewrite firstn_nil in Ef; discriminate|]. cbn [length] in *. lia. }
    match goal with
    | |- context [stream_loop self fuel cur path total e t ?f ?w
                    (mkState ?p' (mkSession ?a1 ?a2 ?a3 _ ?a5 None)
                       (append_file path ?pre' ?fs') ?c' ?cu' ?lg')] =>
        destruct (IH (skipn (batch_size self) rows) f w p' a1 a2 a3 a5 pre' fs' c' cu' lg'
                     Hlen (or_introl Hb')) as (lg2 & ->)
    end.
    exists lg2.
    rewrite <- Ef.
    rewrite append_assoc, <- batch_text_app, <- features_of_app, <- Nat.add_assoc,
      <- length_app, <- features_of_app, firstn_skipn.
    reflexivity.
Qed.


Lemma count_format sch table :
  SQL_format count_template [Identifier sch; Identifier table] []
  = Ok (Composed [SQL ("SELECT COUNT(" ++ star ++ ") FROM "); Identifier sch; SQL ".";
                  Identifier table; SQL " t"]).
Proof. reflexivity. Qed.

Lemma where_format q w :
  SQL_format "{} WHERE {}" [q; SQL w] [] = Ok (Composed [q; SQL " WHERE "; SQL w]).
Proof. reflexivity. Qed.

(** The COUNT helper, in full: the statement it runs, what it returns or
    raises, and the session it leaves. *)
Lemma count_rows_run conn table sch w wp p l f c cu lg :
  _count_rows conn table sch w wp (mkState p l f c cu lg)
  = (match count_result l with Ok n => Return n | Raise e => Throw e end,
     mkState p (match count_result l with Ok _ => l | Raise _ => aborted l end) f c cu
       (EvCursorClose None :: EvExecute None (count_query sch table w) (params_or wp)
          :: EvCursor None :: lg)).
Proof.
  unfold _count_rows. unfold bind at 1. unfold conn_cursor. state_simpl.
  unfold try_finally.
  assert (E : forall (k : Composable -> M nat) s,
             (q <- lift (SQL_format count_template [Identifier sch; Identifier table] []) ;;
              q <- match w with
                   | Some w' =>
                       if nonblank w
                       then lift (SQL_format "{} WHERE {}" [q; SQL w'] [])
                       else ret q
                   | None => ret q
                   end ;;
              k q) s = k (count_query sch table w) s).
  { intros k s. rewrite count_format. unfold count_query.
    destruct w as [w'|]; [destruct (nonblank (Some w'))|]; reflexivity. }
  rewrite E. unfold bind, cursor_execute, cursor_fetchone_int, cursor_close, modify, ret,
    raise. state_simpl.
  destruct (count_result l) eqn:Ec; state_simpl; rewrite ?Ec; state_simpl;
    cbn [remove_cursor]; reflexivity.
Qed.

(** The COUNT step of an export, in full. *)
Lemma count_total_run conn table sch w wp p l f c cu lg :
  count_total self conn table sch w wp (mkState p l f c cu lg)
  = (Return (count_answer self l),
     mkState p (after_count self l) f c cu
       (count_events self l table sch w wp ++ lg)%list).
Proof.
  unfold count_total, count_answer, count_events, after_count.
  destruct (show_progress self); [|reflexivity].
  unfold try_except, bind. rewrite count_rows_run.
  destruct (count_result l); reflexivity.
Qed.

Lemma count_total_effect conn table sch w wp p l f c cu lg :
  exists lg',
    count_total self conn table sch w wp (mkState p l f c cu lg)
    = (Return (count_answer self l), mkState p (after_count self l) f c cu lg').
Proof. rewrite count_total_run. eexists. reflexivity. Qed.

(** An export whose streaming query is refused: the error reaches the caller
    once the connection is closed, and no file is touched. *)
Lemma export_table_query_refused table output_path columns where_sql where_params
      order_by target_srid schema_override geometry_column_override s x rest e :
  pending s = x :: rest -> connect_error x = None ->
  execute_error (after_count self x) = Some e ->
  let sch := str_or schema_override (schema self) in
  let geom := str_or geometry_column_override (geometry_column self) in
  let cur := Some ("cur_" ++ sch ++ "_" ++ table) in
  export_table self table output_path columns where_sql where_params order_by
    target_srid schema_override geometry_column_override s
  = (Throw e,
     mkState rest (after_count self x) (files s) (open_conns s) []
       (EvConnClose
          :: EvExecute cur (assembled sch table (normalize_columns columns) geom
                              where_sql order_by target_srid)
                       (params_or where_params)
          :: EvCursor cur
          :: count_events self x table sch where_sql where_params
          ++ EvConnect (host self) (dbname self) (user self) (port self) :: log s)%list).
Proof.
  intros Hp Hc He sch geom cur. destruct s as [p l f c cu lg]. cbn [pending] in Hp. subst p.
  unfold export_table, _connect.
  unfold bind at 1. unfold connect. state_simpl. rewrite Hc. state_simpl.
  unfold try_finally. unfold bind at 1. rewrite count_total_run.
  unfold bind at 1. unfold conn_cursor. state_simpl.
  unfold bind at 1. rewrite build_query_shape. cbn [lift]. unfold ret at 1.
  unfold bind at 1. unfold cursor_execute. state_simpl. rewrite He.
  unfold bind, conn_close, modify, raise. state_simpl. reflexivity.
Qed.

(** An export on a session that, once the COUNT step is over, lets the rows
    flow to the file. *)
Theorem export_table_flowing table output_path columns where_sql where_params order_by
        target_srid schema_override geometry_column_override s x rest rows :
  pending s = x :: rest ->
  flowing (after_count self x) rows ->
  batch_size self <> 0 \/ rows = [] ->
  exists s',
    export_table self table output_path columns where_sql where_params order_by
      target_srid schema_override geometry_column_override s = (Return tt, s')
    /\ files s' = append_file output_path (collection_text (features_of rows))
                             (truncate_file output_path (files s))
    /\ pending s' = rest
    /\ open_conns s' = open_conns s
    /\ open_cursors s' = [].
Proof.
  intros Hp (Hce & Hee & Hst & Hoe & Hwb) Hb.
  pose proof (after_count_accepted self x Hee) as Hx. rewrite Hx in Hce, Hee, Hst, Hoe, Hwb.
  destruct s as [p l f c cu lg]. cbn [pending] in Hp. subst p.
  unfold export_table, _connect.
  unfold bind at 1. unfold connect. state_simpl. rewrite Hce.
  unfold try_finally.
  unfold bind at 1.
  match goal with
  | |- context [count_total self ?cn ?tb ?sc ?w ?wp (mkState ?p' ?l' ?f' ?c' ?cu' ?lg')] =>
      destruct (count_total_effect cn tb sc w wp p' l' f' c' cu' lg') as (lg1 & ->);
      generalize (count_answer self l'); intros total
  end.
  rewrite Hx. clear Hx.
  destruct x as [ce cr ee st oe wb]. cbn in Hce, Hee, Hst, Hoe, Hwb. subst.
  unfold bind at 1. unfold conn_cursor. state_simpl.
  unfold bind at 1. rewrite build_query_shape. cbn [lift]. unfold ret at 1.
  unfold bind at 1. unfold cursor_execute. state_simpl.
  unfold bind at 1. unfold stream_to_file, with_open.
  unfold bind at 1. unfold file_open. state_simpl.
  unfold try_finally.
  unfold bind at 1. unfold file_write at 1. state_simpl.
  unfold bind at 1. unfold gets. state_simpl.
  unfold bind at 1.
  match goal with
  | |- context [stream_loop self ?fuel ?cur ?path ?tot ?e ?t ?fst ?w
                  (mkState ?p' (mkSession ?a1 ?a2 ?a3 _ ?a5 None)
                     (append_file ?path ?pre' ?fs') ?c' ?cu' ?lg')] =>
      destruct (stream_loop_healthy cur path tot e t fuel rows fst w p' a1 a2 a3 a5
                  pre' fs' c' cu' lg') as (lg2 & ->);
        [rewrite length_map; lia | exact Hb |]
  end.
  unfold bind at 1. unfold file_write. state_simpl.
  unfold bind, ret, file_close, modify, report_done, print_stdout, cursor_close,
    conn_close, modify.
  rewrite append_file_twice, append_assoc.
  fold (collection_text (features_of rows)).
  destruct (show_progress self); [destruct total|]; state_simpl;
    (eexists; split; [reflexivity|]); state_simpl;
    repeat split; reflexivity.
Qed.

Theorem export_table_healthy table output_path columns where_sql where_params order_by
        target_srid schema_override geometry_column_override s x rest rows :
  pending s = x :: rest ->
  healthy x rows ->
  batch_size self <> 0 \/ rows = [] ->
  exists s',
    export_table self table output_path columns where_sql where_params order_by
      target_srid schema_override geometry_column_override s = (Return tt, s')
    /\ files s' = append_file output_path (collection_text (features_of rows))
                             (truncate_file output_path (files s))
    /\ pending s' = rest
    /\ open_conns s' = open_conns s
    /\ open_cursors s' = [].
Proof.
  intros Hp Hx Hb. eapply export_table_flowing; [exact Hp | | exact Hb].
  now apply healthy_flowing.
Qed.

End Run.
End RunFacts.
(* ================================================================== *)
(** * While the COUNT query answers, diagnostics do not reach the output *)
(* ================================================================== *)

Module SimFacts.
Import RunFacts.

Ltac sim_split H :=
  let Hp := fresh "Hp" in let Hl := fresh "Hl" in let Hf := fresh "Hf" in
  let Hc := fresh "Hc" in let Hcu := fresh "Hcu" in
  destruct H as (Hp & Hl & Hf & Hc & Hcu).

Lemma sim_ret {A B} (R : A -> B -> Prop) a b : R a b -> sim_run R (ret a) (ret b).
Proof. intros HR s1 s2 Hs. split; [exact Hs | exact HR]. Qed.

Lemma sim_raise {A B} (R : A -> B -> Prop) e : sim_run R (raise e) (raise e).
Proof. intros s1 s2 Hs. split; [exact Hs | reflexivity]. Qed.

Lemma sim_lift {A} (r : result A) : sim_run eq (lift r) (lift r).
Proof. destruct r; [now apply sim_ret | apply sim_raise]. Qed.

Lemma sim_bind {A B C D} (R : A -> B -> Prop) (Q : C -> D -> Prop)
      (m1 : M A) (m2 : M B) (k1 : A -> M C) (k2 : B -> M D) :
  sim_run R m1 m2 ->
  (forall a b, R a b -> sim_run Q (k1 a) (k2 b)) ->
  sim_run Q (bind m1 k1) (bind m2 k2).
Proof.
  intros Hm Hk s1 s2 Hs. specialize (Hm s1 s2 Hs). unfold bind, sim_out in *.
  destruct (m1 s1) as [[a|e1|] s1'], (m2 s2) as [[b|e2|] s2'];
    cbn [fst snd] in *; destruct Hm as [Hs' HR]; try contradiction.
  - exact (Hk a b HR s1' s2' Hs').
  - now split.
  - now split.
Qed.

Lemma sim_try_finally {A B} (R : A -> B -> Prop)
      (m1 : M A) (m2 : M B) (f1 f2 : M unit) :
  sim_run R m1 m2 -> sim_run (@any unit unit) f1 f2 ->
  sim_run R (try_finally m1 f1) (try_finally m2 f2).
Proof.
  intros Hm Hf s1 s2 Hs. specialize (Hm s1 s2 Hs). unfold try_finally, sim_out in *.
  destruct (m1 s1) as [[a|e1|] s1'], (m2 s2) as [[b|e2|] s2'];
    cbn [fst snd] in *; destruct Hm as [Hs' HR]; try contradiction.
  - apply (sim_bind any R f1 f2 _ _ Hf); [|exact Hs'].
    intros _ _ _. now apply sim_ret.
  - subst e2. apply (sim_bind any R f1 f2 _ _ Hf); [|exact Hs'].
    intros _ _ _. apply sim_raise.
  - now split.
Qed.

Lemma sim_quiet {A B} (m1 : M A) (m2 : M B) :
  quiet m1 -> quiet m2 -> sim_run any m1 m2.
Proof.
  intros H1 H2 [p1 l1 f1 c1 cu1 lg1] [p2 l2 f2 c2 cu2 lg2] Hs.
  destruct (H1 p1 l1 f1 c1 cu1 lg1) as (a & lg1' & ->).
  destruct (H2 p2 l2 f2 c2 cu2 lg2) as (b & lg2' & ->).
  split; [exact Hs | exact I].
Qed.

Lemma quiet_ret {A} (a : A) : quiet (ret a).
Proof. intros p l f c cu lg. now exists a, lg. Qed.

Lemma quiet_print_stderr d : quiet (print_stderr d).
Proof. intros p l f c cu lg. eexists. eexists. reflexivity. Qed.

Lemma quiet_print_stdout d : quiet (print_stdout d).
Proof. intros p l f c cu lg. eexists. eexists. reflexivity. Qed.

(** ** The primitives respond alike in similar states *)

Lemma sim_conn_close : sim_run any conn_close conn_close.
Proof.
  intros s1 s2 Hs. sim_split Hs. split; [|exact I].
  unfold conn_close, modify. cbn [snd]. unfold sim. state_simpl.
  now rewrite Hc.
Qed.

Lemma sim_conn_cursor name :
  sim_run (fun a b => a = name /\ b = name) (conn_cursor name) (conn_cursor name).
Proof.
  intros s1 s2 Hs. sim_split Hs. split; [|now split].
  unfold conn_cursor. cbn [snd]. unfold sim. state_simpl.
  now rewrite Hcu.
Qed.

Lemma sim_cursor_close cur : sim_run any (cursor_close cur) (cursor_close cur).
Proof.
  intros s1 s2 Hs. sim_split Hs. split; [|exact I].
  unfold cursor_close, modify. cbn [snd]. unfold sim. state_simpl.
  now rewrite Hcu.
Qed.

Lemma sim_cursor_execute name q1 q2 params :
  q1 = q2 ->
  sim_run any (cursor_execute (Some name) q1 params) (cursor_execute (Some name) q2 params).
Proof.
  intros <- s1 s2 Hs. pose proof Hs as Hs'. sim_split Hs'.
  unfold cursor_execute. destruct Hl as (_ & _ & _ & Hee & _). rewrite Hee.
  destruct (execute_error (live s2)); (split; [exact Hs | reflexivity || exact I]).
Qed.

Lemma sim_cursor_fetchmany cur size :
  sim_run (fun r1 r2 => r1 = r2 /\ (r1 <> [] -> size <> 0))
          (cursor_fetchmany cur size) (cursor_fetchmany cur size).
Proof.
  intros s1 s2 Hs. pose proof Hs as Hs'. sim_split Hs'.
  unfold cursor_fetchmany. pose proof Hl as (Ha & Hb & Hce & Hee & Hst & Hoe & Hwb).
  rewrite Hst.
  destruct (deliver (firstn size (stream (live s2)))) as [rows|e] eqn:Ed.
  - split.
    + cbn [snd]. unfold sim, session_sim, count_answers. state_simpl.
      repeat split; assumption.
    + cbn [fst]. split; [reflexivity|]. intros Hne ->. cbn in Ed.
      injection Ed as <-. now apply Hne.
  - split; [exact Hs | reflexivity].
Qed.

Lemma sim_file_open path : sim_run eq (file_open path) (file_open path).
Proof.
  intros s1 s2 Hs. pose proof Hs as Hs'. sim_split Hs'.
  unfold file_open. pose proof Hl as (Ha & Hb & Hce & Hee & Hst & Hoe & Hwb).
  rewrite Hoe.
  destruct (open_error (live s2)) eqn:E; (split; [|reflexivity]); [exact Hs|].
  cbn [snd]. unfold sim. state_simpl. rewrite Hf.
  repeat split; (assumption || congruence).
Qed.

Lemma sim_file_write f text : sim_run any (file_write f text) (file_write f text).
Proof.
  intros s1 s2 Hs. pose proof Hs as Hs'. sim_split Hs'.
  unfold file_write. pose proof Hl as (Ha & Hb & Hce & Hee & Hst & Hoe & Hwb).
  rewrite Hwb.
  destruct (write_budget (live s2)) as [[|b]|] eqn:E;
    (split; [|reflexivity || exact I]);
    [exact Hs | |]; cbn [snd]; unfold sim, session_sim, count_answers; state_simpl;
    rewrite Hf; repeat split; (assumption || congruence).
Qed.

Lemma sim_file_close f : sim_run any (file_close f) (file_close f).
Proof. intros s1 s2 Hs. split; [exact Hs | exact I]. Qed.

Lemma sim_with_open {A B} (R : A -> B -> Prop) path (b1 : string -> M A)
      (b2 : string -> M B) :
  (forall f, sim_run R (b1 f) (b2 f)) ->
  sim_run R (with_open path b1) (with_open path b2).
Proof.
  intros Hb. unfold with_open.
  apply (sim_bind eq R _ _ _ _ (sim_file_open path)).
  intros f _ <-. apply sim_try_finally; [apply Hb | apply sim_file_close].
Qed.

Lemma sim_fuel :
  sim_run eq (gets (fun s => S (length (stream (live s)))))
             (gets (fun s => S (length (stream (live s))))).
Proof.
  intros s1 s2 Hs. split; [exact Hs|]. cbn. sim_split Hs.
  destruct Hl as (_ & _ & _ & _ & -> & _). reflexivity.
Qed.

(** Two connections that meet similar sessions, and what follows them. *)
Lemma sim_connected h1 d1 u1 w1 p1 h2 d2 u2 w2 p2 (k1 k2 : unit -> M unit) x1 x2 s :
  session_sim x1 x2 ->
  (forall conn, sim_run any (k1 conn) (k2 conn)) ->
  let r1 := bind (connect h1 d1 u1 w1 p1) k1 (facing x1 s) in
  let r2 := bind (connect h2 d2 u2 w2 p2) k2 (facing x2 s) in
  fst r1 = fst r2 /\ files (snd r1) = files (snd r2).
Proof.
  intros Hx Hk r1 r2. subst r1 r2. unfold bind, connect, facing. state_simpl.
  pose proof Hx as (_ & _ & Hce & _). rewrite Hce.
  destruct (connect_error x2); [now split|].
  match goal with
  | |- fst (k1 tt ?s1) = fst (k2 tt ?s2) /\ _ =>
      assert (Hout : sim_out any (k1 tt s1) (k2 tt s2))
        by (apply Hk; repeat split; apply Hx);
      destruct Hout as [(_ & _ & Hf & _) Ho]; split; [|exact Hf];
      destruct (fst (k1 tt s1)) as [[]|e1|], (fst (k2 tt s2)) as [[]|e2|];
      try contradiction; congruence
  end.
Qed.

(** ** The program: two instances, two totals *)

Section TwoRuns.

Variables g1 g2 : GeojsonGenerator.
Hypothesis Hsame : same_settings g1 g2.

(** On a session whose COUNT query answers, the COUNT step leaves everything
    but the log as it was. *)
Lemma sim_count_total conn table sch w wp :
  sim_run any (count_total g1 conn table sch w wp) (count_total g2 conn table sch w wp).
Proof.
  intros [p1 l1 f1 c1 cu1 lg1] [p2 l2 f2 c2 cu2 lg2] Hs.
  destruct (count_total_effect g1 conn table sch w wp p1 l1 f1 c1 cu1 lg1) as (lg1' & ->).
  destruct (count_total_effect g2 conn table sch w wp p2 l2 f2 c2 cu2 lg2) as (lg2' & ->).
  pose proof Hs as (_ & (Ha & Hb & _) & _). cbn [live] in Ha, Hb.
  rewrite (after_count_answers g1 l1 Ha), (after_count_answers g2 l2 Hb).
  split; [exact Hs | exact I].
Qed.

Lemma quiet_report_progress g total e t written :
  batch_size g <> 0 -> quiet (report_progress g total e t written).
Proof.
  intros Hb p l f c cu lg.
  destruct (report_progress_quiet g total e t written p l f c cu lg Hb) as (lg' & H).
  now exists tt, lg'.
Qed.

Lemma quiet_report_done g total e t written : quiet (report_done g total e t written).
Proof.
  unfold report_done. destruct (show_progress g); [destruct total|];
    auto using quiet_print_stdout, quiet_ret.
Qed.

Lemma sim_write_rows f tot1 tot2 e t rows :
  batch_size g1 <> 0 -> batch_size g2 <> 0 ->
  forall first written,
    sim_run eq (write_rows g1 f tot1 e t rows first written)
               (write_rows g2 f tot2 e t rows first written).
Proof.
  intros Hb1 Hb2. induction rows as [|[text|] rows IH]; intros first written;
    cbn [write_rows].
  - now apply sim_ret.
  - apply (sim_bind any eq).
    { destruct first; [now apply sim_ret | apply sim_file_write]. }
    intros _ _ _. apply (sim_bind any eq); [apply sim_file_write|].
    intros _ _ _. apply (sim_bind any eq); [apply sim_file_write|].
    intros _ _ _. apply (sim_bind any eq).
    { apply sim_quiet; now apply quiet_report_progress. }
    intros _ _ _. apply IH.
  - apply IH.
Qed.

Lemma sim_stream_loop cur f tot1 tot2 e t fuel :
  forall first written,
    sim_run eq (stream_loop g1 fuel cur f tot1 e t first written)
               (stream_loop g2 fuel cur f tot2 e t first written).
Proof.
  destruct Hsame as (_ & _ & Hbs).
  induction fuel as [|fuel IH]; intros first written; cbn [stream_loop].
  - intros s1 s2 Hs. split; [exact Hs | exact I].
  - rewrite Hbs.
    apply (sim_bind _ eq _ _ _ _ (sim_cursor_fetchmany cur (batch_size g2))).
    intros rows ? [<- Hne]. destruct rows as [|r rows]; [now apply sim_ret|].
    assert (Hb2 : batch_size g2 <> 0) by (apply Hne; discriminate).
    apply (sim_bind eq eq).
    { apply sim_write_rows; [rewrite Hbs|]; exact Hb2. }
    intros fw ? <-. apply IH.
Qed.

Lemma sim_stream_to_file cur path tot1 tot2 e t :
  sim_run eq (stream_to_file g1 cur path tot1 e t) (stream_to_file g2 cur path tot2 e t).
Proof.
  unfold stream_to_file. apply sim_with_open. intros f.
  apply (sim_bind any eq); [apply sim_file_write|].
  intros _ _ _. apply (sim_bind eq eq); [apply sim_fuel|].
  intros fuel ? <-. apply (sim_bind eq eq); [apply sim_stream_loop|].
  intros written ? <-. apply (sim_bind any eq); [apply sim_file_write|].
  intros _ _ _. now apply sim_ret.
Qed.

(** Two exports on sessions whose COUNT query answers and that respond alike:
    the same outcome, the same files. *)
Lemma sim_export_table table output_path columns where_sql where_params order_by
      target_srid schema_override geometry_column_override x1 x2 s :
  session_sim x1 x2 ->
  let r1 := export_table g1 table output_path columns where_sql where_params order_by
              target_srid schema_override geometry_column_override (facing x1 s) in
  let r2 := export_table g2 table output_path columns where_sql where_params order_by
              target_srid schema_override geometry_column_override (facing x2 s) in
  fst r1 = fst r2 /\ files (snd r1) = files (snd r2).
Proof.
  intros Hx r1 r2. subst r1 r2.
  destruct Hsame as (Hsch & Hgeom & Hbs).
  unfold export_table, _connect. rewrite Hsch, Hgeom.
  apply sim_connected; [exact Hx|]. intros conn.
  apply sim_try_finally; [|apply sim_conn_close].
  apply (sim_bind any any); [apply sim_count_total|].
  intros tot1 tot2 _. apply (sim_bind _ any _ _ _ _ (sim_conn_cursor _)).
  intros cur ? [-> ->]. apply (sim_bind eq any); [apply sim_lift|].
  intros q ? <-. apply (sim_bind any any); [now apply sim_cursor_execute|].
  intros _ _ _. apply (sim_bind eq any); [apply sim_stream_to_file|].
  intros written ? <-. apply (sim_bind any any).
  { apply sim_quiet; apply quiet_report_done. }
  intros _ _ _. apply sim_cursor_close.
Qed.

End TwoRuns.

End SimFacts.
(* ================================================================== *)
(** * Every run ends, keeps its log, and gives its connection back *)
(* ================================================================== *)

Module InvFacts.
Import RunFacts.

Lemma inside_refl s : inside s s.
Proof. repeat split. now exists []. Qed.

Lemma inside_trans a b c : inside a b -> inside b c -> inside a c.
Proof.
  intros ((l1 & H1) & C1 & P1) ((l2 & H2) & C2 & P2). repeat split; try congruence.
  exists (l2 ++ l1)%list. now rewrite H2, H1, app_assoc.
Qed.

Lemma inside_record ev s : inside s (record ev s).
Proof. repeat split. now exists [ev]. Qed.

Lemma steady_ret {A} (a : A) : steady (ret a).
Proof. intros s. apply inside_refl. Qed.

Lemma steady_raise {A} e : steady (@raise A e).
Proof. intros s. apply inside_refl. Qed.

Lemma steady_lift {A} (r : result A) : steady (lift r).
Proof. destruct r; [apply steady_ret | apply steady_raise]. Qed.

Lemma steady_gets {A} (f : state -> A) : steady (gets f).
Proof. intros s. apply inside_refl. Qed.

Lemma steady_bind {A B} (m : M A) (k : A -> M B) :
  steady m -> (forall a, steady (k a)) -> steady (bind m k).
Proof.
  intros Hm Hk s. specialize (Hm s). unfold bind.
  destruct (m s) as [[a|e|] s']; cbn [snd] in *; [|assumption..].
  exact (inside_trans _ _ _ Hm (Hk a s')).
Qed.

Lemma steady_try_finally {A} (m : M A) (fin : M unit) :
  steady m -> steady fin -> steady (try_finally m fin).
Proof.
  intros Hm Hf s. specialize (Hm s). unfold try_finally.
  destruct (m s) as [[a|e|] s']; cbn [snd] in *; [| |assumption].
  - refine (inside_trans _ _ _ Hm _).
    apply (steady_bind fin (fun _ => ret a) Hf). intros _. apply steady_ret.
  - refine (inside_trans _ _ _ Hm _).
    apply (steady_bind fin (fun _ => raise e) Hf). intros _. apply steady_raise.
Qed.

Lemma steady_try_except {A} (m : M A) (h : exn -> M A) :
  steady m -> (forall e, steady (h e)) -> steady (try_except m h).
Proof.
  intros Hm Hh s. specialize (Hm s). unfold try_except.
  destruct (m s) as [[a|e|] s']; cbn [snd] in *; [assumption| |assumption].
  exact (inside_trans _ _ _ Hm (Hh e s')).
Qed.

Lemma steady_modify_record ev : steady (modify (record ev)).
Proof. intros s. apply inside_record. Qed.

Lemma steady_file_close f : steady (file_close f).
Proof. apply steady_modify_record. Qed.

Lemma steady_print_stderr d : steady (print_stderr d).
Proof. apply steady_modify_record. Qed.

Lemma steady_print_stdout d : steady (print_stdout d).
Proof. apply steady_modify_record. Qed.

Lemma steady_conn_cursor name : steady (conn_cursor name).
Proof. intros s. repeat split. now exists [EvCursor name]. Qed.

Lemma steady_cursor_close cur : steady (cursor_close cur).
Proof. intros s. repeat split. now exists [EvCursorClose cur]. Qed.

Lemma steady_cursor_execute cur q params : steady (cursor_execute cur q params).
Proof.
  intros s. unfold cursor_execute.
  destruct cur; [destruct (execute_error (live s)) | destruct (count_result (live s))];
    repeat split; eexists [_]; reflexivity.
Qed.

Lemma steady_cursor_fetchone_int cur : steady (cursor_fetchone_int cur).
Proof.
  intros s. unfold cursor_fetchone_int.
  destruct (count_result (live s)); apply inside_refl.
Qed.

Lemma steady_cursor_fetchmany cur size : steady (cursor_fetchmany cur size).
Proof.
  intros s. unfold cursor_fetchmany.
  destruct (deliver (firstn size (stream (live s)))); repeat split;
    now exists [EvFetch cur size].
Qed.

Lemma steady_file_open path : steady (file_open path).
Proof.
  intros s. unfold file_open. destruct (open_error (live s)); [apply inside_refl|].
  repeat split. now exists [EvOpen path].
Qed.

Lemma steady_file_write f text : steady (file_write f text).
Proof.
  intros s. unfold file_write.
  destruct (write_budget (live s)) as [[|b]|]; [apply inside_refl| |]; repeat split;
    now exists [EvWrite f text].
Qed.

Lemma steady_with_open {A} path (body : string -> M A) :
  (forall f, steady (body f)) -> steady (with_open path body).
Proof.
  intros Hb. unfold with_open. apply steady_bind; [apply steady_file_open|].
  intros f. apply steady_try_finally; [apply Hb | apply steady_modify_record].
Qed.

Create HintDb steady.
Create HintDb ends.

#[local] Hint Resolve steady_ret steady_raise steady_lift steady_gets
  steady_modify_record steady_file_close steady_print_stderr steady_print_stdout
  steady_conn_cursor steady_cursor_close steady_cursor_execute
  steady_cursor_fetchone_int steady_cursor_fetchmany steady_file_open
  steady_file_write : steady.

Ltac steady_steps :=
  repeat first
    [ apply steady_bind; [|intros ?]
    | apply steady_try_finally
    | apply steady_try_except; [|intros ?]
    | apply steady_with_open; intros ?
    | solve [auto with steady]
    | match goal with
      | |- steady (if ?b then _ else _) => destruct b
      | |- steady (match ?x with _ => _ end) => destruct x
      end ].

Section OneRun.

Variable g : GeojsonGenerator.

Lemma steady_count_rows conn table sch w wp : steady (_count_rows conn table sch w wp).
Proof. unfold _count_rows. steady_steps. Qed.

Lemma steady_count_total conn table sch w wp : steady (count_total g conn table sch w wp).
Proof.
  unfold count_total, print_stderr. steady_steps.
Qed.

Lemma steady_report_progress total e t written :
  steady (report_progress g total e t written).
Proof. unfold report_progress, print_stderr. steady_steps. Qed.

Lemma steady_write_rows f total e t rows :
  forall first written, steady (write_rows g f total e t rows first written).
Proof.
  induction rows as [|[text|] rows IH]; intros first written; cbn [write_rows];
    [apply steady_ret | | apply IH].
  steady_steps; first [apply steady_report_progress | apply IH].
Qed.

Lemma steady_stream_loop cur f total e t fuel :
  forall first written, steady (stream_loop g fuel cur f total e t first written).
Proof.
  induction fuel as [|fuel IH]; intros first written; cbn [stream_loop].
  - intros s. apply inside_refl.
  - steady_steps; first [apply steady_write_rows | apply IH].
Qed.

Lemma steady_stream_to_file cur path total e t :
  steady (stream_to_file g cur path total e t).
Proof. unfold stream_to_file. steady_steps. apply steady_stream_loop. Qed.

Lemma steady_report_done total e t written : steady (report_done g total e t written).
Proof. unfold report_done, print_stdout. steady_steps. Qed.

(** ** Ending *)

Lemma ends_bind {A B} (m : M A) (k : A -> M B) :
  ends m -> (forall a, ends (k a)) -> ends (bind m k).
Proof.
  intros Hm Hk s. specialize (Hm s). unfold bind.
  destruct (m s) as [[a|e|] s']; cbn [fst] in *; [apply Hk | discriminate | now elim Hm].
Qed.

Lemma ends_try_finally {A} (m : M A) (fin : M unit) :
  ends m -> ends fin -> ends (try_finally m fin).
Proof.
  intros Hm Hf s. specialize (Hm s). unfold try_finally.
  destruct (m s) as [[a|e|] s']; cbn [fst] in *; [| |assumption].
  - apply (ends_bind fin (fun _ => ret a) Hf). intros _ ?. discriminate.
  - apply (ends_bind fin (fun _ => raise e) Hf). intros _ ?. discriminate.
Qed.

Lemma ends_try_except {A} (m : M A) (h : exn -> M A) :
  ends m -> (forall e, ends (h e)) -> ends (try_except m h).
Proof.
  intros Hm Hh s. specialize (Hm s). unfold try_except.
  destruct (m s) as [[a|e|] s']; cbn [fst] in *; [discriminate | apply Hh | assumption].
Qed.

Lemma ends_ret {A} (a : A) : ends (ret a).
Proof. intros s. discriminate. Qed.

Lemma ends_raise {A} e : ends (@raise A e).
Proof. intros s. discriminate. Qed.

Lemma ends_lift {A} (r : result A) : ends (lift r).
Proof. destruct r; [apply ends_ret | apply ends_raise]. Qed.

Lemma ends_modify f : ends (modify f).
Proof. intros s. discriminate. Qed.

Lemma ends_gets {A} (f : state -> A) : ends (gets f).
Proof. intros s. discriminate. Qed.

Lemma ends_connect h d u w n : ends (connect h d u w n).
Proof.
  intros s. unfold connect. destruct (pending s) as [|x p]; [discriminate|].
  destruct (connect_error x); discriminate.
Qed.

Lemma ends_conn_cursor name : ends (conn_cursor name).
Proof. intros s. discriminate. Qed.

Lemma ends_cursor_execute cur q params : ends (cursor_execute cur q params).
Proof.
  intros s. unfold cursor_execute.
  destruct cur; [destruct (execute_error (live s)) | destruct (count_result (live s))];
    discriminate.
Qed.

Lemma ends_cursor_fetchone_int cur : ends (cursor_fetchone_int cur).
Proof.
  intros s. unfold cursor_fetchone_int. destruct (count_result (live s)); discriminate.
Qed.

Lemma ends_cursor_fetchmany cur size : ends (cursor_fetchmany cur size).
Proof.
  intros s. unfold cursor_fetchmany.
  destruct (deliver (firstn size (stream (live s)))); discriminate.
Qed.

Lemma ends_file_open path : ends (file_open path).
Proof. intros s. unfold file_open. destruct (open_error (live s)); discriminate. Qed.

Lemma ends_file_write f text : ends (file_write f text).
Proof.
  intros s. unfold file_write. destruct (write_budget (live s)) as [[|b]|]; discriminate.
Qed.

#[local] Hint Resolve ends_ret ends_raise ends_lift ends_modify ends_gets ends_connect
  ends_conn_cursor ends_cursor_execute ends_cursor_fetchone_int ends_cursor_fetchmany
  ends_file_open ends_file_write : ends.

Ltac ends_steps :=
  repeat first
    [ apply ends_bind; [|intros ?]
    | apply ends_try_finally
    | apply ends_try_except; [|intros ?]
    | solve [auto with ends]
    | match goal with
      | |- ends (if ?b then _ else _) => destruct b
      | |- ends (match ?x with _ => _ end) => destruct x
      end ].

Lemma ends_count_total conn table sch w wp : ends (count_total g conn table sch w wp).
Proof.
  unfold count_total, _count_rows, print_stderr, cursor_close. ends_steps.
Qed.

Lemma ends_report_progress total e t written : ends (report_progress g total e t written).
Proof. unfold report_progress, print_stderr. ends_steps. Qed.

Lemma ends_report_done total e t written : ends (report_done g total e t written).
Proof. unfold report_done, print_stdout. ends_steps. Qed.

Lemma ends_write_rows f total e t rows :
  forall first written, ends (write_rows g f total e t rows first written).
Proof.
  induction rows as [|[text|] rows IH]; intros first written; cbn [write_rows];
    [apply ends_ret | | apply IH].
  ends_steps; first [apply ends_report_progress | apply IH].
Qed.

Lemma keeps_bind {A B} (m : M A) (k : A -> M B) :
  keeps_stream m -> (forall a, keeps_stream (k a)) -> keeps_stream (bind m k).
Proof.
  intros Hm Hk s. specialize (Hm s). unfold bind.
  destruct (m s) as [[a|e|] s']; cbn [snd] in *; [|assumption..].
  now rewrite Hk.
Qed.

Lemma keeps_ret {A} (a : A) : keeps_stream (ret a).
Proof. intros s. reflexivity. Qed.

Lemma keeps_file_write f text : keeps_stream (file_write f text).
Proof.
  intros s. unfold file_write. destruct (write_budget (live s)) as [[|b]|]; reflexivity.
Qed.

Lemma keeps_report_progress total e t written :
  keeps_stream (report_progress g total e t written).
Proof.
  intros s. unfold report_progress.
  destruct total as [n|]; [|reflexivity].
  destruct (negb (n =? 0)%nat && show_progress g); [|reflexivity].
  destruct (batch_size g =? 0)%nat; [reflexivity|].
  destruct (written mod batch_size g =? 0)%nat; reflexivity.
Qed.

Lemma keeps_write_rows f total e t rows :
  forall first written, keeps_stream (write_rows g f total e t rows first written).
Proof.
  induction rows as [|[text|] rows IH]; intros first written; cbn [write_rows];
    [apply keeps_ret | | apply IH].
  apply keeps_bind; [destruct first; [apply keeps_ret | apply keeps_file_write]|].
  intros _. apply keeps_bind; [apply keeps_file_write|].
  intros _. apply keeps_bind; [apply keeps_file_write|].
  intros _. apply keeps_bind; [apply keeps_report_progress|].
  intros _. apply IH.
Qed.

Lemma deliver_length batch rows : deliver batch = Ok rows -> length rows = length batch.
Proof.
  revert rows. induction batch as [|[r|e] batch IH]; intros rows H; cbn in H.
  - now injection H as <-.
  - destruct (deliver batch) as [rs|]; [|discriminate]. cbn in H.
    injection H as <-. cbn. now rewrite (IH rs).
  - discriminate.
Qed.

(** The loop ends when its fuel exceeds the number of rows still to come. *)
Lemma stream_loop_ends cur f total e t fuel :
  forall first written s,
    length (stream (live s)) < fuel ->
    fst (stream_loop g fuel cur f total e t first written s) <> Diverge.
Proof.
  induction fuel as [|fuel IH]; intros first written s Hfuel; [lia|].
  cbn [stream_loop]. unfold bind at 1. unfold cursor_fetchmany.
  destruct (deliver (firstn (batch_size g) (stream (live s)))) as [rows|err] eqn:Ed;
    [|discriminate].
  destruct rows as [|r rows]; [discriminate|].
  apply deliver_length in Ed. rewrite length_firstn in Ed. cbn [length] in Ed.
  unfold bind.
  match goal with
  | |- context [write_rows g f total e t ?rs first written ?s0] =>
      pose proof (ends_write_rows f total e t rs first written s0) as He;
      pose proof (keeps_write_rows f total e t rs first written s0) as Hk;
      destruct (write_rows g f total e t rs first written s0) as [[fw|err|] s1]
  end; cbn [fst snd] in *; [|discriminate|contradiction].
  apply IH. rewrite Hk. state_simpl. rewrite length_skipn. lia.
Qed.

Lemma ends_stream_to_file cur path total e t : ends (stream_to_file g cur path total e t).
Proof.
  unfold stream_to_file, with_open.
  apply ends_bind; [apply ends_file_open|]. intros f.
  apply ends_try_finally; [|apply ends_modify].
  apply ends_bind; [apply ends_file_write|]. intros _ s.
  unfold bind at 1, gets.
  unfold bind at 1.
  pose proof (stream_loop_ends cur f total e t (S (length (stream (live s)))) true 0 s
                (Nat.lt_succ_diag_r _)) as Hl.
  destruct (stream_loop g (S (length (stream (live s)))) cur f total e t true 0 s)
    as [[w|err|] s1]; cbn [fst] in *; [|discriminate|contradiction].
  apply ends_bind; [apply ends_file_write | intros _; apply ends_ret].
Qed.

Section Call.

Variables (table output_path : string) (columns : columns_arg)
          (where_sql : option string) (where_params : option (list pyval))
          (order_by : option string) (target_srid : option Z)
          (schema_override geometry_column_override : option string).

Let call : M unit :=
  export_table g table output_path columns where_sql where_params order_by
    target_srid schema_override geometry_column_override.

(** [export_table] always returns or raises. *)
Lemma export_table_ends : ends call.
Proof.
  unfold call, export_table, _connect, conn_close, cursor_close.
  apply ends_bind; [apply ends_connect|]. intros conn.
  apply ends_try_finally; [|apply ends_modify].
  apply ends_bind; [apply ends_count_total|]. intros tot.
  apply ends_bind; [apply ends_conn_cursor|]. intros cur.
  apply ends_bind; [apply ends_lift|]. intros q.
  apply ends_bind; [apply ends_cursor_execute|]. intros _.
  apply ends_bind; [apply ends_stream_to_file|]. intros w.
  apply ends_bind; [apply ends_report_done | intros _; apply ends_modify].
Qed.

(** Whatever happens, the connection the export opened is closed again. *)
Lemma export_table_closes_connection s :
  open_conns (snd (call s)) = open_conns s.
Proof.
  unfold call, export_table, _connect. unfold bind at 1. unfold connect.
  destruct (pending s) as [|x p]; [reflexivity|].
  destruct (connect_error x); [reflexivity|].
  unfold try_finally.
  match goal with
  | |- context [bind ?m ?k ?s0] =>
      assert (Hin : inside s0 (snd (bind m k s0)));
      [|assert (Hend : fst (bind m k s0) <> Diverge);
        [|destruct (bind m k s0) as [[a|err|] s1]]]
  end.
  { apply steady_bind; [apply steady_count_total|]. intros tot.
    apply steady_bind; [apply steady_conn_cursor|]. intros cur.
    apply steady_bind; [apply steady_lift|]. intros q.
    apply steady_bind; [apply steady_cursor_execute|]. intros _.
    apply steady_bind; [apply steady_stream_to_file|]. intros w.
    apply steady_bind; [apply steady_report_done | intros _; apply steady_cursor_close]. }
  { apply ends_bind; [apply ends_count_total|]. intros tot.
    apply ends_bind; [apply ends_conn_cursor|]. intros cur.
    apply ends_bind; [apply ends_lift|]. intros q.
    apply ends_bind; [apply ends_cursor_execute|]. intros _.
    apply ends_bind; [apply ends_stream_to_file|]. intros w.
    apply ends_bind; [apply ends_report_done | intros _; apply ends_modify]. }
  all: cbn [fst snd] in Hin, Hend; destruct Hin as (_ & Hc & _); state_simpl.
  - unfold bind, conn_close, modify, ret. state_simpl. now rewrite Hc.
  - unfold bind, conn_close, modify, raise. state_simpl. now rewrite Hc.
  - now elim Hend.
Qed.

(** Once connected, the export runs the assembled query on its named cursor,
    with the caller's parameters passed beside it. *)
Lemma export_table_executes s x rest :
  pending s = x :: rest -> connect_error x = None ->
  let eff_schema := str_or schema_override (schema g) in
  let eff_geom := str_or geometry_column_override (geometry_column g) in
  exists q,
    _build_query eff_schema table (normalize_columns columns) eff_geom where_sql
                 order_by target_srid = Ok q
    /\ In (EvExecute (Some ("cur_" ++ eff_schema ++ "_" ++ table)) q
                     (params_or where_params))
          (log (snd (call s))).
Proof.
  intros Hp Hce eff_schema eff_geom.
  eexists. split; [apply QueryFacts.build_query_shape|].
  destruct s as [p l f c cu lg]. cbn [pending] in Hp. subst p.
  unfold call, export_table, _connect.
  unfold bind at 1. unfold connect. state_simpl. rewrite Hce.
  unfold try_finally.
  unfold bind at 1.
  match goal with
  | |- context [count_total g ?cn ?tb ?sc ?w ?wp (mkState ?p' ?l' ?f' ?c' ?cu' ?lg')] =>
      destruct (count_total_effect g cn tb sc w wp p' l' f' c' cu' lg') as (lg1 & ->);
      generalize (count_answer g l'); intros total
  end.
  unfold bind at 1. unfold conn_cursor. state_simpl.
  unfold bind at 1. rewrite QueryFacts.build_query_shape. cbn [lift]. unfold ret at 1.
  fold eff_schema eff_geom.
  set (q := with_order order_by _).
  set (name := Some ("cur_" ++ eff_schema ++ "_" ++ table)).
  unfold bind at 1.
  match goal with
  | |- context [cursor_execute name q ?ps ?s0] =>
      assert (Hlog : In (EvExecute name q ps) (log (snd (cursor_execute name q ps s0))));
      [|destruct (cursor_execute name q ps s0) as [[[]|err|] s3]]
  end.
  { unfold cursor_execute, name. state_simpl.
    destruct (execute_error _); cbn [snd log]; left; reflexivity. }
  all: cbn [snd] in Hlog.
  - match goal with
    | |- context [bind ?m ?k s3] =>
        assert (Hin : inside s3 (snd (bind m k s3)));
        [|destruct (bind m k s3) as [[a|err|] s4]]
    end.
    { apply steady_bind; [apply steady_stream_to_file|]. intros w.
      apply steady_bind; [apply steady_report_done | intros _; apply steady_cursor_close]. }
    all: cbn [snd] in Hin; destruct Hin as ((lg4 & Hl4) & _).
    + unfold bind, conn_close, modify, ret. cbn [snd]. state_simpl.
      right. rewrite Hl4. apply in_or_app. now right.
    + unfold bind, conn_close, modify, raise. cbn [snd]. state_simpl.
      right. rewrite Hl4. apply in_or_app. now right.
    + cbn [snd]. rewrite Hl4. apply in_or_app. now right.
  - unfold bind, conn_close, modify, raise. cbn [snd]. state_simpl. now right.
  - exact Hlog.
Qed.

End Call.
End OneRun.
End InvFacts.
(* ================================================================== *)
(** * The batch size does not reach the output *)
(* ================================================================== *)

Module BatchFacts.
Import RunFacts SimFacts InvFacts.

Lemma wsim_refl s : wsim s s.
Proof. repeat split. Qed.

Lemma wsim_sym s1 s2 : wsim s1 s2 -> wsim s2 s1.
Proof. intros (F & B & C & U & P). repeat split; congruence. Qed.

Lemma wsim_trans s1 s2 s3 : wsim s1 s2 -> wsim s2 s3 -> wsim s1 s3.
Proof.
  intros (F & B & C & U & P) (F' & B' & C' & U' & P'). repeat split; congruence.
Qed.

Lemma same_wsim s1 s2 : same s1 s2 -> wsim s1 s2.
Proof. intros [-> _]. apply wsim_refl. Qed.

(** ** Composition *)

Lemma rel_bind {A B C D} pre (post : A -> B -> state -> state -> Prop)
      (post' : C -> D -> state -> state -> Prop)
      (m1 : M A) (m2 : M B) (k1 : A -> M C) (k2 : B -> M D) :
  rel_run pre post m1 m2 ->
  (forall a b, rel_run (post a b) post' (k1 a) (k2 b)) ->
  rel_run pre post' (bind m1 k1) (bind m2 k2).
Proof.
  intros Hm Hk s1 s2 Hs. specialize (Hm s1 s2 Hs). unfold bind, rel_out in *.
  destruct (m1 s1) as [[a|e1|] s1'], (m2 s2) as [[b|e2|] s2'];
    cbn [fst snd] in *; try contradiction.
  - exact (Hk a b s1' s2' Hm).
  - exact Hm.
Qed.

Lemma rel_ret {A B} (post : A -> B -> state -> state -> Prop) a b :
  rel_run (post a b) post (ret a) (ret b).
Proof. intros s1 s2 Hs. exact Hs. Qed.

Lemma rel_weaken {A B} pre (post post' : A -> B -> state -> state -> Prop) m1 m2 :
  (forall a b s1 s2, post a b s1 s2 -> post' a b s1 s2) ->
  rel_run pre post m1 m2 -> rel_run pre post' m1 m2.
Proof.
  intros Hpp Hm s1 s2 Hs. specialize (Hm s1 s2 Hs). unfold rel_out in *.
  destruct (m1 s1) as [[a|e1|] s1'], (m2 s2) as [[b|e2|] s2'];
    cbn [fst snd] in *; try contradiction; auto.
Qed.

Lemma rel_try_finally {A} pre (post : A -> A -> state -> state -> Prop)
      (m1 m2 : M A) (f1 f2 : M unit) :
  rel_run pre post m1 m2 ->
  (forall a b s1 s2, post a b s1 s2 -> a = b /\ wsim s1 s2) ->
  rel_run wsim just_wsim f1 f2 ->
  rel_run pre both_wsim (try_finally m1 f1) (try_finally m2 f2).
Proof.
  intros Hm Hpost Hf s1 s2 Hs. specialize (Hm s1 s2 Hs).
  unfold try_finally, rel_out in *.
  destruct (m1 s1) as [[a|e1|] s1'], (m2 s2) as [[b|e2|] s2'];
    cbn [fst snd] in *; try contradiction.
  - destruct (Hpost a b s1' s2' Hm) as [-> Hw]. specialize (Hf s1' s2' Hw).
    unfold bind, rel_out in *.
    destruct (f1 s1') as [[[]|x1|] t1], (f2 s2') as [[[]|x2|] t2];
      cbn [fst snd] in *; try contradiction; [|exact Hf].
    split; [reflexivity | exact Hf].
  - destruct Hm as [-> Hw]. specialize (Hf s1' s2' Hw).
    unfold bind, rel_out in *.
    destruct (f1 s1') as [[[]|x1|] t1], (f2 s2') as [[[]|x2|] t2];
      cbn [fst snd] in *; try contradiction; [|exact Hf].
    split; [reflexivity | exact Hf].
Qed.

(** The same step on both sides. *)
Lemma rel_same {A} (m : M A) : tidy m -> ends m -> rel_run same both_same m m.
Proof.
  intros Ht He s1 s2 [<- Hu]. specialize (Ht s1 Hu). specialize (He s1).
  unfold rel_out. destruct (m s1) as [[a|e|] s'] eqn:E; cbn [fst snd] in *.
  - repeat split. exact Ht.
  - split; [reflexivity | apply wsim_refl].
  - now elim He.
Qed.

(** Steps that only write to the log. *)
Lemma rel_quiet {A B} (m1 : M A) (m2 : M B) :
  quiet m1 -> quiet m2 -> rel_run wsim just_wsim m1 m2.
Proof.
  intros H1 H2 [p1 l1 f1 c1 cu1 lg1] [p2 l2 f2 c2 cu2 lg2] Hs.
  destruct (H1 p1 l1 f1 c1 cu1 lg1) as (a & lg1' & ->).
  destruct (H2 p2 l2 f2 c2 cu2 lg2) as (b & lg2' & ->).
  exact Hs.
Qed.

(** ** Steps before the loop keep the session *)

Lemma tidy_quiet {A} (m : M A) : quiet m -> tidy m.
Proof.
  intros Hq [p l f c cu lg] Hu. destruct (Hq p l f c cu lg) as (a & lg' & ->). exact Hu.
Qed.

Lemma tidy_count_total g conn table sch w wp : tidy (count_total g conn table sch w wp).
Proof.
  intros [p l f c cu lg] Hu.
  destruct (count_total_effect g conn table sch w wp p l f c cu lg) as (lg' & ->).
  cbn [snd live] in *. destruct Hu as (rows & Hu). exists rows.
  now rewrite (proj1 (proj2 (proj2 (after_count_fields g l)))).
Qed.

Lemma tidy_conn_cursor name : tidy (conn_cursor name).
Proof. intros s Hu. exact Hu. Qed.

Lemma tidy_lift {A} (r : result A) : tidy (lift r).
Proof. intros s Hu. destruct r; exact Hu. Qed.

Lemma tidy_cursor_execute cur q params : tidy (cursor_execute cur q params).
Proof.
  intros s Hu. unfold cursor_execute.
  destruct cur; [destruct (execute_error (live s)) | destruct (count_result (live s))];
    exact Hu.
Qed.

Lemma tidy_file_open path : tidy (file_open path).
Proof. intros s Hu. unfold file_open. destruct (open_error (live s)); exact Hu. Qed.

Lemma tidy_file_write f text : tidy (file_write f text).
Proof.
  intros s Hu. unfold file_write. destruct (write_budget (live s)) as [[|b]|]; exact Hu.
Qed.

(** ** Steps after the loop see files, budget and resources only *)

Lemma wsim_file_write f text : rel_run wsim just_wsim (file_write f text) (file_write f text).
Proof.
  intros s1 s2 (F & B & C & U & P). unfold file_write, rel_out. rewrite B.
  destruct (write_budget (live s2)) as [[|b]|] eqn:E; cbn [fst snd].
  - split; [reflexivity | repeat split; assumption || congruence].
  - unfold just_wsim, wsim. state_simpl. rewrite F. repeat split; assumption.
  - unfold just_wsim, wsim. state_simpl. rewrite F.
    repeat split; assumption || congruence.
Qed.

Lemma wsim_file_close f : rel_run wsim just_wsim (file_close f) (file_close f).
Proof. intros s1 s2 Hs. exact Hs. Qed.

Lemma wsim_cursor_close cur : rel_run wsim just_wsim (cursor_close cur) (cursor_close cur).
Proof.
  intros s1 s2 (F & B & C & U & P). unfold cursor_close, modify, rel_out, just_wsim, wsim.
  cbn [fst snd]. state_simpl. rewrite U. repeat split; assumption.
Qed.

Lemma wsim_conn_close : rel_run wsim just_wsim conn_close conn_close.
Proof.
  intros s1 s2 (F & B & C & U & P). unfold conn_close, modify, rel_out, just_wsim, wsim.
  cbn [fst snd]. state_simpl. rewrite C. repeat split; assumption.
Qed.

(** ** Writing rows sees files and budget only *)

Lemma wsim_write_rows g1 g2 f tot1 tot2 e t rows :
  batch_size g1 <> 0 -> batch_size g2 <> 0 ->
  forall first written,
    rel_run wsim both_wsim (write_rows g1 f tot1 e t rows first written)
                           (write_rows g2 f tot2 e t rows first written).
Proof.
  intros Hb1 Hb2. induction rows as [|[text|] rows IH]; intros first written;
    cbn [write_rows].
  - intros s1 s2 Hs. split; [reflexivity | exact Hs].
  - apply (rel_bind wsim just_wsim).
    { destruct first; [intros s1 s2 Hs; exact Hs | apply wsim_file_write]. }
    intros [] []. apply (rel_bind _ just_wsim); [apply wsim_file_write|].
    intros [] []. apply (rel_bind _ just_wsim); [apply wsim_file_write|].
    intros [] []. apply (rel_bind _ just_wsim).
    { apply rel_quiet; now apply quiet_report_progress. }
    intros [] []. apply IH.
  - apply IH.
Qed.

Lemma write_rows_app g f total e t a : forall b first written s,
  write_rows g f total e t (a ++ b) first written s
  = bind (write_rows g f total e t a first written)
         (fun fw => write_rows g f total e t b (fst fw) (snd fw)) s.
Proof.
  induction a as [|[text|] a IH]; intros b first written s; cbn [app write_rows].
  - reflexivity.
  - unfold bind in *.
    destruct ((if first then ret tt else file_write f ",") s) as [[[]|x|] s1];
      [|reflexivity..].
    destruct (file_write f nl s1) as [[[]|x|] s2]; [|reflexivity..].
    destruct (file_write f text s2) as [[[]|x|] s3]; [|reflexivity..].
    destruct (report_progress g total e t (written + 1) s3) as [[[]|x|] s4];
      [|reflexivity..].
    apply IH.
  - apply IH.
Qed.

Lemma rel_out_trans {A B C} (r1 : outcome A * state) (r2 : outcome B * state)
      (r3 : outcome C * state) (Q : A -> B -> Prop) (R : B -> C -> Prop)
      (T : A -> C -> Prop) :
  (forall a b c, Q a b -> R b c -> T a c) ->
  rel_out (fun a b s1 s2 => Q a b /\ wsim s1 s2) r1 r2 ->
  rel_out (fun b c s1 s2 => R b c /\ wsim s1 s2) r2 r3 ->
  rel_out (fun a c s1 s2 => T a c /\ wsim s1 s2) r1 r3.
Proof.
  intros HT. unfold rel_out.
  destruct r1 as [[a|e1|] s1], r2 as [[b|e2|] s2], r3 as [[c|e3|] s3];
    cbn [fst snd]; try contradiction; intros [H12 W12] [H23 W23];
    (split; [eauto; congruence | exact (wsim_trans _ _ _ W12 W23)]).
Qed.

Lemma rel_out_sym {A B} (r1 : outcome A * state) (r2 : outcome B * state)
      (Q : A -> B -> Prop) :
  rel_out (fun a b s1 s2 => Q a b /\ wsim s1 s2) r1 r2 ->
  rel_out (fun b a s1 s2 => Q a b /\ wsim s1 s2) r2 r1.
Proof.
  unfold rel_out. destruct r1 as [[a|e1|] s1], r2 as [[b|e2|] s2];
    cbn [fst snd]; try contradiction; intros [H W];
    (split; [congruence || exact H | exact (wsim_sym _ _ W)]).
Qed.

(** The loop writes what one pass over all the rows writes. *)
Lemma stream_loop_as_one_pass g cur f total e t :
  batch_size g <> 0 ->
  forall fuel rows first written s,
    stream (live s) = map Row rows ->
    length rows < fuel ->
    rel_out (fun w fw s1 s2 => w = snd fw /\ wsim s1 s2)
            (stream_loop g fuel cur f total e t first written s)
            (write_rows g f total e t rows first written s).
Proof.
  intros Hb. induction fuel as [|fuel IH]; intros rows first written s Hst Hfuel; [lia|].
  cbn [stream_loop]. unfold bind at 1. unfold cursor_fetchmany.
  rewrite Hst, firstn_map, deliver_rows, skipn_map.
  set (s0 := set_live _ _).
  assert (W0 : wsim s0 s) by (repeat split).
  assert (St0 : stream (live s0) = map Row (skipn (batch_size g) rows)) by reflexivity.
  clearbody s0.
  destruct (firstn (batch_size g) rows) as [|r rs] eqn:Ef.
  - destruct (firstn_nil_inv _ _ Ef) as [ | -> ]; [contradiction|].
    cbn. split; [reflexivity | exact W0].
  - replace (write_rows g f total e t rows first written s)
      with (write_rows g f total e t ((r :: rs) ++ skipn (batch_size g) rows)
              first written s)
      by (now rewrite <- Ef, firstn_skipn).
    rewrite write_rows_app.
    pose proof (wsim_write_rows g g f total total e t (r :: rs) Hb Hb first written
                  s0 s W0) as H1.
    pose proof (keeps_write_rows g f total e t (r :: rs) first written s0) as K1.
    unfold bind. unfold rel_out in H1 |- *.
    destruct (write_rows g f total e t (r :: rs) first written s0) as [[fw|x|] s0'],
      (write_rows g f total e t (r :: rs) first written s) as [[fw'|x'|] s'];
      cbn [fst snd] in *; try contradiction; [|exact H1].
    destruct H1 as [<- W1].
    assert (Hlen : length (skipn (batch_size g) rows) < fuel).
    { rewrite length_skipn.
      destruct rows; [rewrite firstn_nil in Ef; discriminate|]. cbn [length] in *. lia. }
    pose proof (IH (skipn (batch_size g) rows) (fst fw) (snd fw) s0'
                  (eq_trans K1 St0) Hlen) as H2.
    pose proof (wsim_write_rows g g f total total e t (skipn (batch_size g) rows)
                  Hb Hb (fst fw) (snd fw) s0' s' W1) as H3.
    refine (rel_out_trans _ _ _ (fun w fw0 => w = snd fw0) eq _ _ H2 H3).
    intros a b c -> ->. reflexivity.
Qed.

(** Two loops with different positive batch sizes over the same rows. *)
Lemma rel_stream_loop g1 g2 cur f tot1 tot2 e t first written :
  batch_size g1 <> 0 -> batch_size g2 <> 0 ->
  forall fuel,
    rel_run (fun s1 s2 => same s1 s2 /\ length (stream (live s1)) < fuel) both_wsim
            (stream_loop g1 fuel cur f tot1 e t first written)
            (stream_loop g2 fuel cur f tot2 e t first written).
Proof.
  intros Hb1 Hb2 fuel s1 s2 [[<- (rows & Hst)] Hfuel].
  rewrite Hst, length_map in Hfuel.
  pose proof (stream_loop_as_one_pass g1 cur f tot1 e t Hb1 fuel rows first written s1
                Hst Hfuel) as H1.
  pose proof (stream_loop_as_one_pass g2 cur f tot2 e t Hb2 fuel rows first written s1
                Hst Hfuel) as H2.
  pose proof (wsim_write_rows g1 g2 f tot1 tot2 e t rows Hb1 Hb2 first written s1 s1
                (wsim_refl s1)) as H3.
  apply rel_out_sym in H2.
  refine (rel_out_trans _ _ _ (fun w fw0 => w = snd fw0) (fun fw0 w => w = snd fw0) _ _
            H1 _).
  { intros a b c -> ->. reflexivity. }
  refine (rel_out_trans _ _ _ eq (fun fw0 w => w = snd fw0)
            (fun fw0 w => w = snd fw0) _ H3 H2).
  intros a b c -> ->. reflexivity.
Qed.

Lemma rel_fuel :
  rel_run same
    (fun a b s1 s2 => a = b /\ same s1 s2 /\ length (stream (live s1)) < a)
    (gets (fun s => S (length (stream (live s)))))
    (gets (fun s => S (length (stream (live s))))).
Proof.
  intros s1 s2 Hs. pose proof Hs as [<- _]. unfold rel_out, gets. cbn [fst snd].
  repeat split; [apply Hs | lia].
Qed.

Section TwoBatchSizes.

Variable g : GeojsonGenerator.
Variables b1 b2 : nat.
Hypothesis Hb1 : b1 <> 0.
Hypothesis Hb2 : b2 <> 0.

Let g1 := with_batch_size g b1.
Let g2 := with_batch_size g b2.

Lemma rel_stream_to_file cur path total e t :
  rel_run same both_wsim (stream_to_file g1 cur path total e t)
                         (stream_to_file g2 cur path total e t).
Proof.
  unfold stream_to_file, with_open.
  apply (rel_bind same both_same).
  { apply rel_same; [apply tidy_file_open | apply ends_file_open]. }
  intros f f' s1 s2 [<- Hs]. revert Hs; revert s1 s2.
  apply (rel_try_finally same both_wsim); [|auto|apply wsim_file_close].
  apply (rel_bind same both_same).
  { apply rel_same; [apply tidy_file_write | apply ends_file_write]. }
  intros [] [] s1 s2 [_ Hs]. revert Hs; revert s1 s2.
  apply (rel_bind same _ _ _ _ _ _ rel_fuel).
  intros fuel fuel' s1 s2 (Heq & Hs & Hlen). subst fuel'.
  assert (Hpre : same s1 s2 /\ length (stream (live s1)) < fuel) by now split.
  clear Hs Hlen. revert Hpre; revert s1 s2. apply (rel_bind _ both_wsim).
  { apply rel_stream_loop; assumption. }
  intros w w' s1 s2 [<- Hw]. revert Hw; revert s1 s2.
  apply (rel_bind wsim just_wsim); [apply wsim_file_write|].
  intros [] [] s1 s2 Hw. split; [reflexivity | exact Hw].
Qed.

Lemma rel_connect host db usr pw prt :
  rel_run ready both_same (connect host db usr pw prt) (connect host db usr pw prt).
Proof.
  intros s1 s2 [<- (x & rest & Hp & Hx)]. unfold connect, rel_out. rewrite Hp.
  destruct (connect_error x); cbn [fst snd].
  - split; [reflexivity | apply wsim_refl].
  - repeat split. exact Hx.
Qed.

Lemma rel_export_table table output_path columns where_sql where_params order_by
      target_srid schema_override geometry_column_override :
  rel_run ready both_wsim
    (export_table g1 table output_path columns where_sql where_params order_by
       target_srid schema_override geometry_column_override)
    (export_table g2 table output_path columns where_sql where_params order_by
       target_srid schema_override geometry_column_override).
Proof.
  unfold export_table, _connect.
  change (count_total g1) with (count_total g).
  change (count_total g2) with (count_total g).
  change (report_done g1) with (report_done g).
  change (report_done g2) with (report_done g).
  cbn [g1 g2 with_batch_size host dbname user password port schema geometry_column].
  apply (rel_bind ready both_same); [apply rel_connect|].
  intros [] [] s1 s2 [_ Hs]. revert Hs; revert s1 s2.
  apply (rel_try_finally same just_wsim); [| |apply wsim_conn_close].
  2:{ intros [] [] s1 s2 Hw. now split. }
  apply (rel_bind same both_same).
  { apply rel_same; [apply tidy_count_total | apply ends_count_total]. }
  intros total total' s1 s2 [<- Hs]. revert Hs; revert s1 s2.
  apply (rel_bind same both_same).
  { apply rel_same; [apply tidy_conn_cursor | apply ends_conn_cursor]. }
  intros cur cur' s1 s2 [<- Hs]. revert Hs; revert s1 s2.
  apply (rel_bind same both_same).
  { apply rel_same; [apply tidy_lift | apply ends_lift]. }
  intros q q' s1 s2 [<- Hs]. revert Hs; revert s1 s2.
  apply (rel_bind same both_same).
  { apply rel_same; [apply tidy_cursor_execute | apply ends_cursor_execute]. }
  intros [] [] s1 s2 [_ Hs]. revert Hs; revert s1 s2.
  apply (rel_bind same both_wsim); [apply rel_stream_to_file|].
  intros w w' s1 s2 [<- Hw]. revert Hw; revert s1 s2.
  apply (rel_bind wsim just_wsim).
  { apply rel_quiet; apply quiet_report_done. }
  intros [] []. apply wsim_cursor_close.
Qed.

End TwoBatchSizes.

End BatchFacts.
(* ================================================================== *)
(** * The properties of the specification *)
(* ================================================================== *)

Module Properties.
Import JsonFacts CollectionFacts QueryFacts RunFacts SimFacts InvFacts BatchFacts.

(** ** Properties Expression Builder *)

Lemma leaves_join_columns cols :
  identifiers (SQL_join ", " (map column_ref cols)) = cols
  /\ literals (SQL_join ", " (map column_ref cols)) = [].
Proof.
  unfold identifiers, literals, SQL_join. cbn [leaves].
  induction cols as [|c cols IH]; [now split|].
  destruct cols as [|c' cols]; [now split|].
  change (intersperse (SQL ", ") (map column_ref (c :: c' :: cols)))
    with (column_ref c :: SQL ", "
            :: intersperse (SQL ", ") (map column_ref (c' :: cols))).
  destruct IH as [IHi IHl].
  cbn [flat_map leaves column_ref app]. rewrite IHi, IHl. now split.
Qed.

Lemma flat_map_leaves {A} (f : Composable -> list A) l :
  flat_map f (flat_map leaves l) = flat_map (fun c => flat_map f (leaves c)) l.
Proof.
  induction l as [|c l IH]; [reflexivity|].
  cbn [flat_map]. now rewrite flat_map_app, IH.
Qed.

Lemma identifiers_Composed l : identifiers (Composed l) = flat_map identifiers l.
Proof. unfold identifiers. cbn [leaves]. apply flat_map_leaves. Qed.

Lemma literals_Composed l : literals (Composed l) = flat_map literals l.
Proof. unfold literals. cbn [leaves]. apply flat_map_leaves. Qed.

Lemma raw_sql_Composed l : raw_sql (Composed l) = flat_map raw_sql l.
Proof. unfold raw_sql. cbn [leaves]. apply flat_map_leaves. Qed.

Ltac read_query :=
  repeat (rewrite ?identifiers_Composed, ?literals_Composed, ?raw_sql_Composed;
          cbn [flat_map]);
  repeat match goal with
    | |- context [identifiers (SQL ?s)] => change (identifiers (SQL s)) with (@nil string)
    | |- context [identifiers (Literal ?v)] =>
        change (identifiers (Literal v)) with (@nil string)
    | |- context [identifiers (Identifier ?n)] =>
        change (identifiers (Identifier n)) with [n]
    | |- context [literals (SQL ?s)] => change (literals (SQL s)) with (@nil pyval)
    | |- context [literals (Identifier ?n)] =>
        change (literals (Identifier n)) with (@nil pyval)
    | |- context [literals (Literal ?v)] => change (literals (Literal v)) with [v]
    | |- context [raw_sql (SQL ?s)] => change (raw_sql (SQL s)) with [s]
    | |- context [raw_sql (Identifier ?n)] =>
        change (raw_sql (Identifier n)) with (@nil string)
    | |- context [raw_sql (Literal ?v)] => change (raw_sql (Literal v)) with (@nil string)
    end;
  cbn [app].

Lemma props_identifiers columns geom_col :
  identifiers (props_shape columns geom_col)
  = if no_columns columns then [] else cols_of columns.
Proof.
  unfold props_shape. destruct (no_columns columns); [reflexivity|].
  read_query. rewrite (proj1 (leaves_join_columns _)). now rewrite !app_nil_r.
Qed.

Lemma props_literals columns geom_col :
  literals (props_shape columns geom_col)
  = if no_columns columns then [PyStr geom_col] else [].
Proof.
  unfold props_shape. destruct (no_columns columns); [reflexivity|].
  read_query. rewrite (proj2 (leaves_join_columns _)). reflexivity.
Qed.

Lemma add_key_In c k ks : In c (add_key k ks) <-> c = k \/ In c ks.
Proof.
  induction ks as [|k' ks IH]; cbn [add_key In].
  - intuition congruence.
  - destruct (String.eqb k k') eqn:E.
    + apply String.eqb_eq in E. subst k'. cbn [In]. intuition congruence.
    + destruct (key_leb k k'); cbn [In]; rewrite ?IH; intuition congruence.
Qed.

(** A jsonb object has the keys of its members, whatever their order and
    however often they were given. *)
Lemma jsonb_keys_In c l : In c (jsonb_keys l) <-> In c l.
Proof.
  unfold jsonb_keys. induction l as [|k l IH]; cbn [fold_right In]; [tauto|].
  rewrite add_key_In, IH. intuition congruence.
Qed.

Lemma props_keys_shape table_cols columns geom_col :
  props_keys table_cols (props_shape columns geom_col)
  = jsonb_keys (if no_columns columns
                then filter (fun c => negb (String.eqb geom_col c)) table_cols
                else cols_of columns).
Proof.
  unfold props_keys. rewrite props_identifiers, props_literals. f_equal.
  destruct columns as [[|c cols]|]; cbn [no_columns cols_of existsb is_key_literal];
    try reflexivity.
  all: apply filter_ext; intros a; now rewrite orb_false_r.
Qed.

(** C1, as the code has it: the properties expression is always built; in the
    all-columns branch (columns omitted, the sentinel, or an empty selection)
    the geometry column is never a key of the properties object; in the
    explicit-list branch nothing is removed, and the geometry column is a key
    of the properties object exactly when the caller lists it. *)
Theorem props_expr_geometry_key (columns : columns_arg) (geom_col : string)
        (table_cols : list string) :
  exists p,
    _props_expr (normalize_columns columns) geom_col = Ok p
    /\ (no_columns (normalize_columns columns) = true ->
        ~ In geom_col (props_keys table_cols p))
    /\ (In geom_col (props_keys table_cols p)
        <-> In geom_col (cols_of (normalize_columns columns))).
Proof.
  exists (props_shape (normalize_columns columns) geom_col).
  split; [apply props_expr_shape|]. rewrite props_keys_shape, jsonb_keys_In.
  set (cs := normalize_columns columns).
  assert (Hnot : ~ In geom_col (filter (fun c => negb (String.eqb geom_col c)) table_cols)).
  { intros Hin. apply filter_In in Hin as [_ Hneq].
    now rewrite String.eqb_refl in Hneq. }
  destruct (no_columns cs) eqn:E.
  - split; [intros _; exact Hnot|]. split; [intros Hin; now elim Hnot|].
    destruct cs as [[|? ?]|]; cbn in *; try discriminate; contradiction.
  - split; [discriminate | reflexivity].
Qed.

(** C1, as stated, fails: with the geometry column among the listed columns
    the properties object has it as a key. *)
Lemma props_expr_geometry_key_listed :
  exists p,
    _props_expr (normalize_columns (ColsList ["id"; "geom"])) "geom" = Ok p
    /\ In "geom" (props_keys ["id"; "name"; "geom"] p).
Proof.
  eexists. split; [reflexivity|]. cbn. right. now left.
Qed.

(** ** Incremental writer *)

Section SingleTable.

Variable g : GeojsonGenerator.
Variables (table output_path : string) (columns : columns_arg)
          (where_sql : option string) (where_params : option (list pyval))
          (order_by : option string) (target_srid : option Z)
          (schema_override geometry_column_override : option string).

Let call (g' : GeojsonGenerator) : M unit :=
  export_table g' table output_path columns where_sql where_params order_by
    target_srid schema_override geometry_column_override.

Lemma call_healthy g' s x rows :
  healthy x rows -> batch_size g' <> 0 \/ rows = [] ->
  fst (call g' (facing x s)) = Return tt
  /\ files (snd (call g' (facing x s)))
     = append_file output_path (collection_text (features_of rows))
                   (truncate_file output_path (files s)).
Proof.
  intros Hx Hb.
  destruct (export_table_healthy g' table output_path columns where_sql where_params
              order_by target_srid schema_override geometry_column_override
              (facing x s) x (pending s) rows eq_refl Hx Hb) as (s' & Hrun & Hf & _).
  unfold call. rewrite Hrun. split; [reflexivity | exact Hf].
Qed.

(** C2, as the code has it: an export whose query yields no row returns
    normally and leaves in the output file the prefix, one newline character
    and the closing bracket and brace; that text reads as a FeatureCollection
    with an empty features array. *)
Theorem empty_export_text (s : state) (x : session) :
  healthy x [] ->
  let r := call g (facing x s) in
  fst r = Return tt
  /\ read_file output_path (files (snd r)) = Some (collection_prefix ++ nl ++ "]}")
  /\ parse_json (collection_prefix ++ nl ++ "]}") = Some (feature_collection []).
Proof.
  intros Hx r. destruct (call_healthy g s x [] Hx (or_intror eq_refl)) as [Hr Hf].
  subst r. split; [exact Hr|]. split; [|reflexivity].
  rewrite Hf. apply read_append_truncate.
Qed.

(** C3: a completed export of feature texts that are valid JSON objects
    leaves a file that reads as JSON, an object whose type is
    FeatureCollection and whose features member is the array of those
    features, in the order of the rows. *)
Theorem export_reads_as_feature_collection (s : state) (x : session)
        (rows : list (option string)) (objs : list (list (string * json))) :
  healthy x rows ->
  batch_size g <> 0 ->
  Forall2 reads_as (features_of rows) objs ->
  let r := call g (facing x s) in
  fst r = Return tt
  /\ exists content,
       read_file output_path (files (snd r)) = Some content
       /\ parse_json content = Some (feature_collection (map JObject objs)).
Proof.
  intros Hx Hb Hobjs r. destruct (call_healthy g s x rows Hx (or_introl Hb)) as [Hr Hf].
  subst r. split; [exact Hr|].
  exists (collection_text (features_of rows)). split.
  - rewrite Hf. apply read_append_truncate.
  - now apply parse_collection.
Qed.

(** C6: for a fixed row stream that the server delivers in full, two exports
    that differ in their positive batch sizes have the same outcome and leave
    the same files, whatever else fails; and when nothing fails both complete
    with the features of the stream in the output, in the order of the
    stream. *)
Theorem batch_size_is_irrelevant (b1 b2 : nat) (s : state) (x : session)
        (rows : list (option string)) :
  0 < b1 -> 0 < b2 ->
  stream x = map Row rows ->
  let run b := call (with_batch_size g b) (facing x s) in
  fst (run b1) = fst (run b2)
  /\ files (snd (run b1)) = files (snd (run b2))
  /\ fst (run b1) <> Diverge
  /\ (healthy x rows ->
      fst (run b1) = Return tt
      /\ read_file output_path (files (snd (run b1)))
         = Some (collection_text (features_of rows))).
Proof.
  intros H1 H2 Hst run.
  assert (Hready : ready (facing x s) (facing x s)).
  { split; [reflexivity|]. exists x, (pending s). split; [reflexivity|]. now exists rows. }
  pose proof (rel_export_table g b1 b2 (Nat.neq_sym _ _ (Nat.lt_neq _ _ H1))
                (Nat.neq_sym _ _ (Nat.lt_neq _ _ H2)) table output_path columns
                where_sql where_params order_by target_srid schema_override
                geometry_column_override _ _ Hready) as Hrel.
  fold (call (with_batch_size g b1)) (call (with_batch_size g b2)) in Hrel.
  fold (run b1) (run b2) in Hrel. unfold rel_out in Hrel.
  assert (Hmain : fst (run b1) = fst (run b2)
                  /\ files (snd (run b1)) = files (snd (run b2))
                  /\ fst (run b1) <> Diverge).
  { destruct (fst (run b1)) as [[]|e1|], (fst (run b2)) as [[]|e2|];
      try contradiction; destruct Hrel as [He Hw].
    - split; [reflexivity|]. split; [apply Hw | discriminate].
    - split; [now rewrite He|]. split; [apply Hw | discriminate]. }
  destruct Hmain as (Ho & Hf & Hd). repeat split; try assumption.
  - destruct (call_healthy (with_batch_size g b1) s x rows H) as [Hr _];
      [left; cbn; lia | exact Hr].
  - destruct (call_healthy (with_batch_size g b1) s x rows H) as [_ Hfs];
      [left; cbn; lia|].
    subst run. cbv beta. rewrite Hfs. apply read_append_truncate.
Qed.

(** ** Progress and the COUNT query *)

(** An export on a session that lets the rows flow once the COUNT step is
    over. *)
Lemma call_flowing g' s x rows :
  flowing (after_count g' x) rows -> batch_size g' <> 0 \/ rows = [] ->
  fst (call g' (facing x s)) = Return tt
  /\ files (snd (call g' (facing x s)))
     = append_file output_path (collection_text (features_of rows))
                   (truncate_file output_path (files s)).
Proof.
  intros Hx Hb.
  destruct (export_table_flowing g' table output_path columns where_sql where_params
              order_by target_srid schema_override geometry_column_override
              (facing x s) x (pending s) rows eq_refl Hx Hb) as (s' & Hrun & Hf & _).
  unfold call. rewrite Hrun. split; [reflexivity | exact Hf].
Qed.

(** An export that shows progress, on a session whose COUNT query raises. *)
Lemma call_aborted g' s x e :
  show_progress g' = true -> connect_error x = None -> count_result x = Raise e ->
  fst (call g' (facing x s)) = Throw in_failed_transaction
  /\ files (snd (call g' (facing x s))) = files s
  /\ stderr_lines (log (snd (call g' (facing x s))))
     = (stderr_lines (log s) ++ [WarnCount e])%list.
Proof.
  intros Hs Hc Hr. unfold call.
  rewrite (export_table_query_refused g' table output_path columns where_sql where_params
             order_by target_srid schema_override geometry_column_override
             (facing x s) x (pending s) in_failed_transaction eq_refl Hc)
    by (now rewrite (after_count_failed g' x e Hs Hr)).
  cbn [fst snd files log facing set_pending]. split; [reflexivity|].
  split; [reflexivity|].
  unfold stderr_lines, count_events. rewrite Hs, Hr.
  cbn [app]. rewrite !seen_cons. cbn [pick_stderr]. now rewrite !app_nil_r.
Qed.

(** C5 fails on the code: the count step catches the error of the COUNT query
    and leaves the total unknown, but the transaction that query began stays
    aborted, so the streaming query is refused: the export raises, no feature
    is written and no file is touched. Only the warning is printed. *)
Theorem failed_count_stops_the_export (s : state) (x : session) (e : exn) :
  show_progress g = true ->
  connect_error x = None ->
  count_result x = Raise e ->
  let eff_schema := str_or schema_override (schema g) in
  let r := call g (facing x s) in
  (forall conn st, count_result (live st) = Raise e ->
     fst (count_total g conn table eff_schema where_sql where_params st) = Return None)
  /\ fst r = Throw in_failed_transaction
  /\ files (snd r) = files s
  /\ stderr_lines (log (snd r)) = (stderr_lines (log s) ++ [WarnCount e])%list.
Proof.
  intros Hs Hc Hr eff_schema r. subst r. split.
  - intros conn [p l f c cu lg] Hl. cbn [live] in Hl.
    rewrite count_total_run. cbn [fst]. unfold count_answer. now rewrite Hs, Hl.
  - now apply call_aborted with (e := e).
Qed.

(** C10 fails on the code. As long as the COUNT query answers, neither the
    progress setting nor the count reaches the outcome or the files of an
    export, on every session and whatever else fails. But when the COUNT query
    raises, the export without progress completes and writes every feature,
    and the export with progress raises and leaves the files as they were. *)
Theorem failed_count_reaches_the_output (s : state) (x : session) :
  let run b c := call (with_show_progress g b) (facing (with_count x c) s) in
  (forall b1 b2 n1 n2,
     fst (run b1 (Ok n1)) = fst (run b2 (Ok n2))
     /\ files (snd (run b1 (Ok n1))) = files (snd (run b2 (Ok n2))))
  /\ (forall e rows,
        flowing x rows -> batch_size g <> 0 ->
        fst (run false (Raise e)) = Return tt
        /\ read_file output_path (files (snd (run false (Raise e))))
           = Some (collection_text (features_of rows))
        /\ fst (run true (Raise e)) = Throw in_failed_transaction
        /\ files (snd (run true (Raise e))) = files s).
Proof.
  intros run. subst run. cbv beta. split.
  - intros b1 b2 n1 n2.
    apply (sim_export_table (with_show_progress g b1) (with_show_progress g b2));
      repeat split.
  - intros e rows Hx Hb.
    destruct (call_flowing (with_show_progress g false) s (with_count x (Raise e)) rows)
      as [Hr Hf]; [exact Hx | now left |].
    destruct (call_aborted (with_show_progress g true) s (with_count x (Raise e)) e)
      as (Ht & Hfs & _); [reflexivity | apply Hx | reflexivity |].
    rewrite Hr, Hf, Ht, Hfs. repeat split. apply read_append_truncate.
Qed.

End SingleTable.

(** ** Query Assembler *)

Lemma raw_join_columns cols : forall cols',
  length cols = length cols' ->
  raw_sql (SQL_join ", " (map column_ref cols))
  = raw_sql (SQL_join ", " (map column_ref cols')).
Proof.
  unfold raw_sql, SQL_join. cbn [leaves].
  induction cols as [|c cols IH]; intros [|d cols'] Hlen; try discriminate;
    [reflexivity|].
  injection Hlen as Hlen.
  destruct cols as [|c' cols], cols' as [|d' cols']; try discriminate; [reflexivity|].
  change (intersperse (SQL ", ") (map column_ref (c :: c' :: cols)))
    with (column_ref c :: SQL ", "
            :: intersperse (SQL ", ") (map column_ref (c' :: cols))).
  change (intersperse (SQL ", ") (map column_ref (d :: d' :: cols')))
    with (column_ref d :: SQL ", "
            :: intersperse (SQL ", ") (map column_ref (d' :: cols'))).
  cbn [flat_map leaves column_ref app].
  now rewrite (IH (d' :: cols') Hlen).
Qed.

Lemma no_columns_length cols cols' :
  length (cols_of cols) = length (cols_of cols') -> no_columns cols = no_columns cols'.
Proof.
  destruct cols as [[|? ?]|], cols' as [[|? ?]|]; cbn; intros H;
    try reflexivity; discriminate.
Qed.

Lemma assembled_identifiers sch table cols geom where_sql order_by srid :
  identifiers (assembled sch table cols geom where_sql order_by srid)
  = (geom :: (if no_columns cols then [] else cols_of cols) ++ [sch; table; geom])%list.
Proof.
  assert (Hsel : identifiers (select_shape sch table cols geom srid)
                 = (geom :: (if no_columns cols then [] else cols_of cols)
                         ++ [sch; table; geom])%list).
  { unfold select_shape, feature_shape. read_query.
    rewrite props_identifiers.
    destruct srid; cbn [geom_shape]; read_query; rewrite ?app_nil_r; reflexivity. }
  unfold assembled, with_order, with_where.
  destruct where_sql as [w|]; [destruct (nonblank (Some w))|];
    (destruct order_by as [ob|]; [destruct (nonblank (Some ob))|]);
    read_query; rewrite Hsel, ?app_nil_r; reflexivity.
Qed.

Lemma assembled_literals sch table cols geom where_sql order_by srid :
  literals (assembled sch table cols geom where_sql order_by srid)
  = ((match srid with Some n => [PyInt n] | None => [] end)
       ++ (if no_columns cols then [PyStr geom] else []))%list.
Proof.
  assert (Hsel : literals (select_shape sch table cols geom srid)
                 = ((match srid with Some n => [PyInt n] | None => [] end)
                      ++ (if no_columns cols then [PyStr geom] else []))%list).
  { unfold select_shape, feature_shape. read_query.
    rewrite props_literals. destruct srid; cbn [geom_shape]; read_query;
      now rewrite !app_nil_r. }
  unfold assembled, with_order, with_where.
  destruct where_sql as [w|]; [destruct (nonblank (Some w))|];
    (destruct order_by as [ob|]; [destruct (nonblank (Some ob))|]);
    read_query; rewrite Hsel, ?app_nil_r; reflexivity.
Qed.

Lemma props_raw cols cols' geom geom' :
  length (cols_of cols) = length (cols_of cols') ->
  raw_sql (props_shape cols geom) = raw_sql (props_shape cols' geom').
Proof.
  intros Hlen. unfold props_shape. rewrite <- (no_columns_length _ _ Hlen).
  destruct (no_columns cols); [reflexivity|].
  read_query. now rewrite (raw_join_columns _ _ Hlen).
Qed.

Lemma assembled_raw sch table cols geom sch' table' cols' geom' where_sql order_by srid :
  length (cols_of cols) = length (cols_of cols') ->
  raw_sql (assembled sch table cols geom where_sql order_by srid)
  = raw_sql (assembled sch' table' cols' geom' where_sql order_by srid).
Proof.
  intros Hlen.
  assert (Hsel : raw_sql (select_shape sch table cols geom srid)
                 = raw_sql (select_shape sch' table' cols' geom' srid)).
  { unfold select_shape, feature_shape. read_query.
    rewrite (props_raw cols cols' geom geom' Hlen).
    destruct srid; cbn [geom_shape]; read_query; reflexivity. }
  unfold assembled, with_order, with_where.
  destruct where_sql as [w|]; [destruct (nonblank (Some w))|];
    (destruct order_by as [ob|]; [destruct (nonblank (Some ob))|]);
    read_query; rewrite Hsel; reflexivity.
Qed.

(** C7, as the code has it: the query is always assembled; the schema, the
    table, the geometry column and every listed column occur in it as quoted
    identifiers; beside the SRID the only literal is the geometry column
    name, escaped as a string, in the all-columns branch (the key removed
    from the row object); the fragments copied as they are do not depend on
    any of these names; and the export hands the caller's parameters to
    [execute] beside the query, which is built without them. *)
Theorem query_names_are_quoted (g : GeojsonGenerator) (table output_path : string)
        (columns : columns_arg) (where_sql : option string)
        (where_params : option (list pyval)) (order_by : option string)
        (target_srid : option Z) (schema_override geometry_column_override : option string) :
  let sch := str_or schema_override (schema g) in
  let geom := str_or geometry_column_override (geometry_column g) in
  let cols := normalize_columns columns in
  exists q,
    _build_query sch table cols geom where_sql order_by target_srid = Ok q
    /\ identifiers q
       = (geom :: (if no_columns cols then [] else cols_of cols) ++ [sch; table; geom])%list
    /\ literals q
       = ((match target_srid with Some n => [PyInt n] | None => [] end)
            ++ (if no_columns cols then [PyStr geom] else []))%list
    /\ (forall sch' table' cols' geom' q',
          length (cols_of cols) = length (cols_of cols') ->
          _build_query sch' table' cols' geom' where_sql order_by target_srid = Ok q' ->
          raw_sql q = raw_sql q')
    /\ (forall s x,
          connect_error x = None ->
          In (EvExecute (Some ("cur_" ++ sch ++ "_" ++ table)) q (params_or where_params))
             (log (snd (export_table g table output_path columns where_sql where_params
                          order_by target_srid schema_override geometry_column_override
                          (facing x s))))).
Proof.
  intros sch geom cols.
  exists (assembled sch table cols geom where_sql order_by target_srid).
  split; [apply build_query_shape|].
  split; [apply assembled_identifiers|].
  split; [apply assembled_literals|].
  split.
  - intros sch' table' cols' geom' q' Hlen Hq'.
    rewrite build_query_shape in Hq'. injection Hq' as <-.
    now apply assembled_raw.
  - intros s x Hce.
    destruct (export_table_executes g table output_path columns where_sql where_params
                order_by target_srid schema_override geometry_column_override
                (facing x s) x (pending s) eq_refl Hce) as (q & Hq & Hin).
    rewrite build_query_shape in Hq. injection Hq as <-. exact Hin.
Qed.

(** C7, as stated, fails: with the columns omitted the geometry column name
    occurs in the query as a string literal, not only as a quoted identifier. *)
Lemma geometry_column_occurs_as_literal :
  exists q,
    _build_query "public" "roads" (normalize_columns ColsNone) "geom" None None None = Ok q
    /\ In (Literal (PyStr "geom")) (leaves q)
    /\ In (PyStr "geom") (literals q).
Proof.
  eexists. split; [reflexivity|]. split; cbn; tauto.
Qed.


(** ** Batch Runner *)

Lemma export_many_app g (a b : list item_dict) s :
  export_many g (a ++ b) s = bind (export_many g a) (fun _ => export_many g b) s.
Proof.
  revert s. induction a as [|it a IH]; intros s; [reflexivity|].
  cbn [app export_many]. unfold bind in *.
  destruct (export_item g it s) as [[[]|e|] s1]; [|reflexivity..].
  apply IH.
Qed.

(** C9: the batch runner exports the items in list order, one after the
    other; and when the export of an item raises, that error is the outcome of
    the batch and the state is the one that export left: no later item is
    attempted. *)
Theorem export_many_stops_at_first_failure (g : GeojsonGenerator)
        (done : list item_dict) (item : item_dict) (later : list item_dict)
        (s s1 s2 : state) (e : exn) :
  export_many g done s = (Return tt, s1) ->
  export_item g item s1 = (Throw e, s2) ->
  export_many g (done ++ item :: later) s = (Throw e, s2)
  /\ (forall a b s0,
        export_many g (a ++ b) s0
        = bind (export_many g a) (fun _ => export_many g b) s0).
Proof.
  intros Hdone Hitem. split; [|intros; apply export_many_app].
  rewrite export_many_app. unfold bind at 1. rewrite Hdone.
  cbn [export_many]. unfold bind. now rewrite Hitem.
Qed.

(** ** Resources *)

Section Resources.

Variable g : GeojsonGenerator.
Variables (table output_path : string) (columns : columns_arg)
          (where_sql : option string) (where_params : option (list pyval))
          (order_by : option string) (target_srid : option Z)
          (schema_override geometry_column_override : option string).

(** C4: an export always returns or raises, and on every path (completion, or
    a failure of the COUNT query, of the streaming query, of a fetch, of the
    opening of the file or of a write) the connection it made is closed as the
    last thing it does, by the [finally] of [_connect]; closing the connection
    closes the named cursor, which was created on it, so no cursor is left
    open. When connecting fails there is neither a connection nor a cursor. *)
Theorem connection_and_cursor_are_closed (s : state) (x : session) :
  let r := export_table g table output_path columns where_sql where_params order_by
             target_srid schema_override geometry_column_override (facing x s) in
  let cur := Some ("cur_" ++ str_or schema_override (schema g) ++ "_" ++ table) in
  fst r <> Diverge
  /\ open_conns (snd r) = open_conns s
  /\ match connect_error x with
     | Some e =>
         fst r = Throw e /\ open_cursors (snd r) = open_cursors s /\ log (snd r) = log s
     | None =>
         open_cursors (snd r) = []
         /\ exists evs,
              log (snd r)
              = (EvConnClose :: evs
                   ++ EvConnect (host g) (dbname g) (user g) (port g) :: log s)%list
              /\ In (EvCursor cur) evs
     end.
Proof.
  intros r cur. subst r.
  split; [apply export_table_ends|].
  split; [exact (export_table_closes_connection g table output_path columns where_sql
                   where_params order_by target_srid schema_override
                   geometry_column_override (facing x s))|].
  destruct (connect_error x) as [e|] eqn:Hc.
  { unfold export_table, _connect, bind, connect, facing. state_simpl. rewrite Hc.
    repeat split. }
  match goal with
  | |- open_cursors (snd ?R) = [] /\ _ => destruct R as [o s'] eqn:E
  end.
  cbn [snd]. unfold export_table, _connect in E.
  unfold bind at 1 in E. unfold connect, facing in E. state_simpl. rewrite Hc in E.
  unfold try_finally in E.
  unfold bind at 1 in E. rewrite count_total_run in E.
  unfold bind at 1 in E. unfold conn_cursor in E. state_simpl. fold cur in E.
  match type of E with
  | context [bind ?m ?k ?s0] =>
      assert (Hin : inside s0 (snd (bind m k s0)));
      [|assert (Hend : fst (bind m k s0) <> Diverge);
        [|destruct (bind m k s0) as [[a|err|] s1]]]
  end.
  { apply steady_bind; [apply steady_lift|]. intros q.
    apply steady_bind; [apply steady_cursor_execute|]. intros _.
    apply steady_bind; [apply steady_stream_to_file|]. intros w.
    apply steady_bind; [apply steady_report_done | intros _; apply steady_cursor_close]. }
  { apply ends_bind; [apply ends_lift|]. intros q.
    apply ends_bind; [apply ends_cursor_execute|]. intros _.
    apply ends_bind; [apply ends_stream_to_file|]. intros w.
    apply ends_bind; [apply ends_report_done | intros _; apply ends_modify]. }
  3: now elim Hend.
  all: cbn [snd] in Hin; destruct Hin as ((lg & Hlg) & _); state_simpl.
  all: unfold bind, conn_close, modify, ret, raise in E; injection E as <- <-;
    cbn [open_cursors log]; (split; [reflexivity|]).
  all: exists (lg ++ EvCursor cur
               :: count_events g x table (str_or schema_override (schema g)) where_sql
                    where_params)%list;
    (split; [rewrite Hlg, <- !app_assoc; reflexivity|]);
    apply in_or_app; right; now left.
Qed.

End Resources.

(** C2, as stated, fails: the file of an export without rows is not the
    prefix followed immediately by the suffix of the specification. *)
Lemma empty_export_is_not_prefix_then_suffix :
  read_file "roads.geojson" (files (snd (run_sample (good_session []))))
  <> Some spec_empty_collection.
Proof. vm_compute. discriminate. Qed.

(** ** The theorems at work on the samples *)

Lemma props_expr_geometry_key_witness :
  exists p,
    _props_expr (normalize_columns (ColsStr " * ")) "geom" = Ok p
    /\ ~ In "geom" (props_keys ["id"; "name"; "geom"] p).
Proof.
  destruct (props_expr_geometry_key (ColsStr " * ") "geom" ["id"; "name"; "geom"])
    as (p & Hp & Hall & _).
  exists p. split; [exact Hp|]. apply Hall. reflexivity.
Defined.

Lemma empty_export_text_witness :
  healthy (good_session []) []
  /\ read_file "roads.geojson" (files (snd (run_sample (good_session []))))
     = Some (collection_prefix ++ nl ++ "]}").
Proof.
  split; [repeat split|].
  apply (empty_export_text sample "roads" "roads.geojson" ColsNone None None None None
           None None (boot []) (good_session [])).
  repeat split.
Defined.

Lemma export_reads_as_feature_collection_witness :
  healthy (good_session three_rows) three_rows
  /\ batch_size sample <> 0
  /\ Forall2 reads_as (features_of three_rows)
             [point_object "1"; point_object "2"; point_object "3"]
  /\ exists content,
       read_file "roads.geojson" (files (snd (run_sample (good_session three_rows))))
       = Some content
       /\ parse_json content
          = Some (feature_collection
                    (map JObject [point_object "1"; point_object "2"; point_object "3"])).
Proof.
  assert (Hx : healthy (good_session three_rows) three_rows) by (repeat split).
  assert (Hb : batch_size sample <> 0) by discriminate.
  assert (Ho : Forall2 reads_as (features_of three_rows)
                 [point_object "1"; point_object "2"; point_object "3"])
    by (repeat constructor).
  split; [exact Hx|]. split; [exact Hb|]. split; [exact Ho|].
  apply (export_reads_as_feature_collection sample "roads" "roads.geojson" ColsNone None
           None None None None None (boot []) (good_session three_rows) three_rows
           [point_object "1"; point_object "2"; point_object "3"] Hx Hb Ho).
Defined.

Lemma failed_count_stops_the_export_witness :
  show_progress sample = true
  /\ connect_error (with_count (good_session three_rows) (Raise timeout)) = None
  /\ count_result (with_count (good_session three_rows) (Raise timeout)) = Raise timeout
  /\ fst (run_sample (with_count (good_session three_rows) (Raise timeout)))
     = Throw in_failed_transaction
  /\ files (snd (run_sample (with_count (good_session three_rows) (Raise timeout)))) = []
  /\ stderr_lines (log (snd (run_sample (with_count (good_session three_rows)
                                                    (Raise timeout)))))
     = [WarnCount timeout].
Proof.
  split; [reflexivity|]. split; [reflexivity|]. split; [reflexivity|].
  exact (proj2 (failed_count_stops_the_export sample "roads" "roads.geojson" ColsNone None
                  None None None None None (boot [])
                  (with_count (good_session three_rows) (Raise timeout)) timeout
                  eq_refl eq_refl eq_refl)).
Defined.

Lemma failed_count_reaches_the_output_witness :
  flowing (good_session three_rows) three_rows
  /\ batch_size sample <> 0
  /\ read_file "roads.geojson"
       (files (snd (export_table (with_show_progress sample false) "roads" "roads.geojson"
                      ColsNone None None None None None None
                      (boot [with_count (good_session three_rows) (Raise timeout)]))))
     = Some (collection_text (features_of three_rows))
  /\ files (snd (export_table (with_show_progress sample true) "roads" "roads.geojson"
                   ColsNone None None None None None None
                   (boot [with_count (good_session three_rows) (Raise timeout)])))
     = [].
Proof.
  assert (Hx : flowing (good_session three_rows) three_rows) by (repeat split).
  assert (Hb : batch_size sample <> 0) by discriminate.
  split; [exact Hx|]. split; [exact Hb|].
  destruct (proj2 (failed_count_reaches_the_output sample "roads" "roads.geojson" ColsNone
                     None None None None None None (boot []) (good_session three_rows))
                  timeout three_rows Hx Hb) as (_ & Hoff & _ & Hon).
  split; [exact Hoff | exact Hon].
Defined.

Lemma batch_size_is_irrelevant_witness :
  0 < 1 /\ 0 < 100
  /\ stream (good_session three_rows) = map Row three_rows
  /\ files (snd (export_table (with_batch_size sample 1) "roads" "roads.geojson" ColsNone
                   None None None None None None (boot [good_session three_rows])))
     = files (snd (export_table (with_batch_size sample 100) "roads" "roads.geojson"
                     ColsNone None None None None None None
                     (boot [good_session three_rows]))).
Proof.
  split; [lia|]. split; [lia|]. split; [reflexivity|].
  apply (batch_size_is_irrelevant sample "roads" "roads.geojson" ColsNone None None None
           None None None 1 100 (boot []) (good_session three_rows) three_rows);
    [lia | lia | reflexivity].
Defined.

Lemma query_names_are_quoted_witness :
  connect_error (good_session three_rows) = None
  /\ exists q,
       _build_query "public" "roads" (Some ["id"; "name"]) "geom" (Some "status = %s")
                    None None = Ok q
       /\ identifiers q = ["geom"; "id"; "name"; "public"; "roads"; "geom"]
       /\ In (EvExecute (Some "cur_public_roads") q [PyStr "ACTIVE"])
             (log (snd (export_table sample "roads" "roads.geojson"
                          (ColsList ["id"; "name"]) (Some "status = %s")
                          (Some [PyStr "ACTIVE"]) None None None None
                          (boot [good_session three_rows])))).
Proof.
  split; [reflexivity|].
  destruct (query_names_are_quoted sample "roads" "roads.geojson" (ColsList ["id"; "name"])
              (Some "status = %s") (Some [PyStr "ACTIVE"]) None None None None)
    as (q & Hq & Hid & _ & _ & Hrun).
  exists q. split; [exact Hq|]. split; [exact Hid|].
  apply (Hrun (boot []) (good_session three_rows)). reflexivity.
Defined.

Lemma export_many_stops_at_first_failure_witness :
  let s := boot [good_session three_rows; failing_session; good_session three_rows] in
  let s1 := snd (export_many sample [item_for "roads" "roads.geojson"] s) in
  let s2 := snd (export_item sample (item_for "rivers" "rivers.geojson") s1) in
  export_many sample [item_for "roads" "roads.geojson"] s = (Return tt, s1)
  /\ export_item sample (item_for "rivers" "rivers.geojson") s1 = (Throw no_table, s2)
  /\ export_many sample [item_for "roads" "roads.geojson";
                         item_for "rivers" "rivers.geojson";
                         item_for "lakes" "lakes.geojson"] s
     = (Throw no_table, s2)
  /\ pending s2 = [good_session three_rows]
  /\ read_file "lakes.geojson" (files s2) = None.
Proof.
  intros s s1 s2.
  assert (H1 : export_many sample [item_for "roads" "roads.geojson"] s = (Return tt, s1))
    by (vm_compute; reflexivity).
  assert (H2 : export_item sample (item_for "rivers" "rivers.geojson") s1
               = (Throw no_table, s2)) by (vm_compute; reflexivity).
  split; [exact H1|]. split; [exact H2|].
  split; [|split; vm_compute; reflexivity].
  exact (proj1 (export_many_stops_at_first_failure sample
                  [item_for "roads" "roads.geojson"] (item_for "rivers" "rivers.geojson")
                  [item_for "lakes" "lakes.geojson"] s s1 s2 no_table H1 H2)).
Defined.

End Properties.
(* ================================================================== *)
(** * The text of the statements *)
(* ================================================================== *)

Module QueryText.
Import QueryFacts RunFacts.

Lemma concat_empty_cons (x : string) (l : list string) :
  String.concat "" (x :: l) = x ++ String.concat "" l.
Proof. destruct l; cbn; [now rewrite append_nil_r | reflexivity]. Qed.

Lemma join_columns_text (cols : list string) :
  as_string (SQL_join ", " (map column_ref cols)) = columns_text cols.
Proof.
  unfold SQL_join, columns_text. cbn [as_string].
  induction cols as [|c cols IH]; [reflexivity|].
  destruct cols as [|c' cols]; [reflexivity|].
  change (intersperse (SQL ", ") (map column_ref (c :: c' :: cols)))
    with (column_ref c :: SQL ", " :: intersperse (SQL ", ") (map column_ref (c' :: cols))).
  cbn [map]. rewrite !concat_empty_cons. cbn [map] in IH. rewrite IH.
  cbn [as_string column_ref map String.concat]. reflexivity.
Qed.

(** X2: the geometry expression is always built; its text applies ST_AsGeoJSON to
    the quoted geometry column of the row, through ST_Transform to the target
    SRID exactly when one is given, the SRID written as an adapted literal. *)
Theorem geom_expr_text (geom_col : string) (target_srid : option Z) :
  exists g,
    _geom_expr geom_col target_srid = Ok g
    /\ as_string g = geom_text geom_col target_srid
    /\ identifiers g = [geom_col]
    /\ literals g = match target_srid with Some n => [PyInt n] | None => [] end.
Proof.
  exists (geom_shape geom_col target_srid). split; [apply geom_expr_shape|].
  destruct target_srid as [n|]; cbn; repeat split; now rewrite ?append_nil_r.
Qed.

(** X3: the properties expression is always built. Without columns its text
    removes the geometry column, written as a quoted string, from the row
    object; with columns it is the row of a sub-select over the listed columns,
    each a quoted identifier of the table alias, separated by commas, in the
    order of the list and with repeats kept. *)
Theorem props_expr_text (columns : option (list string)) (geom_col : string) :
  exists p,
    _props_expr columns geom_col = Ok p
    /\ as_string p
       = if no_columns columns
         then "to_jsonb(t) - '" ++ double_char "'"%char geom_col ++ "'"
         else "to_jsonb((SELECT r FROM (SELECT " ++ columns_text (cols_of columns)
                ++ ") r))".
Proof.
  exists (props_shape columns geom_col). split; [apply props_expr_shape|].
  unfold props_shape. destruct (no_columns columns).
  - cbn. now rewrite ?append_nil_r.
  - cbn [as_string map]. rewrite !concat_empty_cons. cbn [as_string map].
    rewrite join_columns_text. cbn [String.concat].
    now rewrite ?append_nil_r, !append_assoc.
Qed.

End QueryText.
(* ================================================================== *)
(** * Runs, step by step *)
(* ================================================================== *)

Module Steps.
Import QueryFacts RunFacts InvFacts.

(** X1: the COUNT helper runs one statement on a client-side cursor, with the
    caller's parameters beside it: the number of rows of the quoted schema and
    table under the caller's filter, when it is not blank, and without the
    condition on the geometry that the export adds. It returns the count, or
    raises what the query raised; either way its cursor is closed again and no
    file is touched. *)
Theorem count_rows_behaviour (conn : unit) (table sch : string)
        (where_sql : option string) (where_params : option (list pyval)) (s : state) :
  let r := _count_rows conn table sch where_sql where_params s in
  let q := count_query sch table where_sql in
  fst r = match count_result (live s) with
          | Ok n => Return n
          | Raise e => Throw e
          end
  /\ statements (log (snd r))
     = (statements (log s) ++ [(None, q, params_or where_params)])%list
  /\ as_string q = count_text sch table where_sql
  /\ identifiers q = [sch; table]
  /\ literals q = []
  /\ open_cursors (snd r) = open_cursors s
  /\ files (snd r) = files s.
Proof.
  intros r q. subst r q. destruct s as [p l f c cu lg]. rewrite count_rows_run.
  cbn [fst snd live log open_cursors files].
  split; [reflexivity|]. split.
  { unfold statements. rewrite !seen_cons. cbn. now rewrite !app_nil_r. }
  split.
  { unfold count_query, count_text, count_where_text.
    destruct where_sql as [w|]; [destruct (nonblank (Some w))|];
      cbn [as_string map String.concat]; rewrite ?append_nil_r, ?append_assoc;
      reflexivity. }
  unfold count_query.
  destruct where_sql as [w|]; [destruct (nonblank (Some w))|]; repeat split.
Qed.

End Steps.
(* ================================================================== *)
(** * The loop on streams that break, and what the loop logs *)
(* ================================================================== *)

Module Loops.
Import QueryFacts RunFacts InvFacts Steps.

Lemma firstn_add {A} n m (l : list A) :
  firstn (n + m) l = (firstn n l ++ firstn m (skipn n l))%list.
Proof.
  revert l. induction n as [|n IH]; intros l; [reflexivity|].
  destruct l as [|a l]; [now rewrite ?firstn_nil, ?skipn_nil, ?firstn_nil|].
  cbn. now rewrite IH.
Qed.

Lemma deliver_broken rows e rest : forall n,
  length rows < n ->
  deliver (firstn n (map Row rows ++ Broken e :: rest)) = Raise e.
Proof.
  induction rows as [|r rows IH]; intros n Hn.
  - destruct n; [cbn in Hn; lia | reflexivity].
  - destruct n; [cbn in Hn; lia|]. cbn [map app firstn deliver].
    rewrite IH; [reflexivity | cbn in Hn; lia].
Qed.

Lemma firstn_rows_then {A} n (l1 l2 : list A) :
  n <= length l1 -> firstn n (l1 ++ l2) = firstn n l1.
Proof.
  intros H. rewrite firstn_app. replace (n - length l1) with 0 by lia.
  cbn. apply app_nil_r.
Qed.

Lemma skipn_rows_then {A} n (l1 l2 : list A) :
  n <= length l1 -> skipn n (l1 ++ l2) = (skipn n l1 ++ l2)%list.
Proof.
  intros H. rewrite skipn_app. replace (n - length l1) with 0 by lia. reflexivity.
Qed.

Lemma div_step b n : b <> 0 -> b <= n -> n / b = S ((n - b) / b).
Proof.
  intros Hb Hn. replace n with ((n - b) + 1 * b) at 1 by lia.
  rewrite Nat.div_add by assumption. lia.
Qed.

Section Loop.

Variable g : GeojsonGenerator.

(** A loop over a stream that breaks after [rows]: the rows of the batches
    fetched in full are written, then the failure is raised. *)
Lemma stream_loop_broken cur path total e t err :
  batch_size g <> 0 ->
  forall fuel rows rest first written p ce cr ee oe pre fs0 c cu lg,
    length rows < fuel ->
    exists lg' st',
      stream_loop g fuel cur path total e t first written
        (mkState p (mkSession ce cr ee (map Row rows ++ Broken err :: rest) oe None)
                 (append_file path pre fs0) c cu lg)
      = (Throw err,
         mkState p (mkSession ce cr ee st' oe None)
           (append_file path
              (pre ++ batch_text first
                        (features_of
                           (firstn (batch_size g * (length rows / batch_size g)) rows)))
              fs0) c cu lg').
Proof.
  intros Hb. induction fuel as [|fuel IH];
    intros rows rest first written p ce cr ee oe pre fs0 c cu lg Hfuel; [lia|].
  cbn [stream_loop]. unfold bind at 1. unfold cursor_fetchmany. state_simpl.
  destruct (Nat.le_gt_cases (batch_size g) (length rows)) as [Hle|Hgt].
  - rewrite firstn_rows_then, skipn_rows_then by (now rewrite length_map).
    rewrite firstn_map, deliver_rows, skipn_map.
    destruct (firstn (batch_size g) rows) as [|r rs] eqn:Ef.
    { destruct (firstn_nil_inv _ _ Ef) as [|Hr]; [contradiction|].
      subst rows. cbn in Hle. lia. }
    unfold bind.
    match goal with
    | |- context [write_rows g path total e t (r :: rs) first written
                    (mkState ?p' (mkSession ?a1 ?a2 ?a3 ?a4 ?a5 None)
                       (append_file path ?pre' ?fs') ?c' ?cu' ?lg')] =>
        destruct (write_rows_healthy g path total e t (r :: rs) Hb first written
                    p' a1 a2 a3 a4 a5 pre' fs' c' cu' lg') as (lg1 & ->)
    end.
    cbn [fst snd].
    assert (Hlen : length (skipn (batch_size g) rows) < fuel).
    { rewrite length_skipn. lia. }
    match goal with
    | |- context [stream_loop g fuel cur path total e t ?f ?w
                    (mkState ?p' (mkSession ?a1 ?a2 ?a3 _ ?a5 None)
                       (append_file path ?pre' ?fs') ?c' ?cu' ?lg')] =>
        destruct (IH (skipn (batch_size g) rows) rest f w p' a1 a2 a3 a5 pre' fs' c' cu'
                     lg' Hlen) as (lg2 & st2 & ->)
    end.
    exists lg2, st2. rewrite <- Ef.
    rewrite append_assoc, <- batch_text_app, <- features_of_app.
    rewrite length_skipn.
    rewrite (div_step (batch_size g) (length rows) Hb Hle).
    rewrite Nat.mul_succ_r, (Nat.add_comm _ (batch_size g)), firstn_add.
    reflexivity.
  - rewrite deliver_broken by assumption.
    rewrite Nat.div_small by assumption. rewrite Nat.mul_0_r. cbn [firstn features_of].
    eexists. eexists. replace (batch_text first []) with "" by reflexivity.
    rewrite append_nil_r. reflexivity.
Qed.

(** A loop that fetches nothing at a time ends at once. *)
Lemma stream_loop_batch_zero cur path total e t fuel first written s :
  batch_size g = 0 ->
  stream_loop g (S fuel) cur path total e t first written s
  = (Return written,
     set_live (with_stream (live s) (stream (live s)))
              (record (EvFetch cur 0) s)).
Proof.
  intros Hb. cbn [stream_loop]. unfold bind, cursor_fetchmany. rewrite Hb.
  cbn [firstn skipn deliver]. reflexivity.
Qed.

End Loop.
End Loops.
(* ================================================================== *)
(** * What the loop logs *)
(* ================================================================== *)

Module Logs.
Import QueryFacts RunFacts InvFacts Steps Loops.

Lemma logged_refl s : logged s s [] [] [].
Proof. unfold logged. now rewrite !app_nil_r. Qed.

Lemma logged_trans s s1 s2 e1 o1 f1 e2 o2 f2 :
  logged s s1 e1 o1 f1 -> logged s1 s2 e2 o2 f2 ->
  logged s s2 (e1 ++ e2) (o1 ++ o2) (f1 ++ f2).
Proof.
  intros (A1 & B1 & C1) (A2 & B2 & C2). unfold logged.
  rewrite A2, A1, B2, B1, C2, C1, !app_assoc. auto.
Qed.

Lemma logged_same_log s s' : log s' = log s -> logged s s' [] [] [].
Proof. intros H. unfold logged. now rewrite H, !app_nil_r. Qed.

Lemma logged_event s s' ev :
  log s' = ev :: log s ->
  logged s s' (pick_stderr ev) (pick_stdout ev) (pick_fetch ev).
Proof.
  intros H. unfold logged, stderr_lines, stdout_lines, fetches.
  now rewrite H, !seen_cons.
Qed.

Lemma file_write_returns f text s s' :
  file_write f text s = (Return tt, s') ->
  log s' = EvWrite f text :: log s /\ stream (live s') = stream (live s).
Proof.
  unfold file_write. destruct (write_budget (live s)) as [[|b]|]; intros H;
    inversion H; subst; split; reflexivity.
Qed.

Lemma batches_zero b : b <> 0 -> batches b 0 = 0.
Proof. intros Hb. unfold batches. apply Nat.div_small. lia. Qed.

Lemma batches_step b n : b <> 0 -> n <> 0 -> batches b n = S (batches b (n - b)).
Proof.
  intros Hb Hn. unfold batches.
  rewrite (div_step b (n + b - 1)) by lia. f_equal.
  destruct (Nat.le_gt_cases b n).
  - f_equal. lia.
  - rewrite !Nat.div_small by lia. reflexivity.
Qed.



Section Logged.

Variable g : GeojsonGenerator.

Lemma progress_lines_app total e t from n m :
  progress_lines g total e t from (n + m)
  = (progress_lines g total e t from n ++ progress_lines g total e t (from + n) m)%list.
Proof.
  unfold progress_lines, progress_marks. destruct total as [tot|]; [|reflexivity].
  destruct (negb (tot =? 0)%nat && show_progress g); [|reflexivity].
  rewrite seq_app, filter_app, map_app. reflexivity.
Qed.

Lemma progress_lines_zero total e t from : progress_lines g total e t from 0 = [].
Proof.
  unfold progress_lines, progress_marks. destruct total; [|reflexivity].
  now destruct (negb _ && _).
Qed.

Lemma report_progress_returns total e t written s s' :
  batch_size g <> 0 ->
  report_progress g total e t (written + 1) s = (Return tt, s') ->
  logged s s' (progress_lines g total e t written 1) [] []
  /\ stream (live s') = stream (live s).
Proof.
  intros Hb. unfold report_progress, progress_lines, progress_marks.
  replace (written + 1) with (S written) by lia. cbn [seq filter].
  destruct total as [tot|]; [|intros H; inversion H; subst; split;
                               [apply logged_refl | reflexivity]].
  destruct (negb (tot =? 0)%nat && show_progress g);
    [|intros H; inversion H; subst; split; [apply logged_refl | reflexivity]].
  destruct (batch_size g =? 0)%nat eqn:E; [apply Nat.eqb_eq in E; contradiction|].
  destruct (S written mod batch_size g =? 0)%nat;
    intros H; inversion H; subst; split; try reflexivity.
  - apply (logged_event s _ (EvStderr (Progress e t (S written) tot))). reflexivity.
  - apply logged_refl.
Qed.

(** Rows that are all written: the counter and the lines. *)
Lemma write_rows_returns f total e t rows :
  batch_size g <> 0 ->
  forall first written s r s',
    write_rows g f total e t rows first written s = (Return r, s') ->
    snd r = written + length (features_of rows)
    /\ logged s s' (progress_lines g total e t written (length (features_of rows))) [] []
    /\ stream (live s') = stream (live s).
Proof.
  intros Hb. induction rows as [|[text|] rows IH]; intros first written s r s' H.
  - cbn in H. inversion H; subst. cbn [features_of length snd].
    rewrite Nat.add_0_r, progress_lines_zero.
    split; [reflexivity|]. split; [apply logged_refl | reflexivity].
  - cbn [write_rows] in H. unfold bind in H.
    destruct ((if first then ret tt else file_write f ",") s) as [[[]|?|] s1] eqn:E1;
      try discriminate H.
    assert (L1 : logged s s1 [] [] [] /\ stream (live s1) = stream (live s)).
    { destruct first.
      - inversion E1; subst. split; [apply logged_refl | reflexivity].
      - apply file_write_returns in E1 as [E1 E1']. split; [|exact E1'].
        apply (logged_event s s1 _ E1). }
    destruct (file_write f nl s1) as [[[]|?|] s2] eqn:E2; try discriminate H.
    apply file_write_returns in E2 as [E2 E2'].
    destruct (file_write f text s2) as [[[]|?|] s3] eqn:E3; try discriminate H.
    apply file_write_returns in E3 as [E3 E3'].
    destruct (report_progress g total e t (written + 1) s3) as [[[]|?|] s4] eqn:E4;
      try discriminate H.
    apply (report_progress_returns _ _ _ _ _ _ Hb) in E4 as [E4 E4'].
    apply IH in H as (Hr & Hl & Hs).
    destruct L1 as [L1 L1'].
    cbn [features_of length]. split; [lia|]. split; [|congruence].
    replace (S (length (features_of rows))) with (1 + length (features_of rows)) by lia.
    rewrite progress_lines_app.
    pose proof (logged_trans _ _ _ _ _ _ _ _ _ L1 (logged_event s1 s2 _ E2)) as L2.
    pose proof (logged_trans _ _ _ _ _ _ _ _ _ L2 (logged_event s2 s3 _ E3)) as L3.
    pose proof (logged_trans _ _ _ _ _ _ _ _ _ L3 E4) as L4.
    pose proof (logged_trans _ _ _ _ _ _ _ _ _ L4 Hl) as L5.
    cbn [pick_stderr pick_stdout pick_fetch app] in L5. exact L5.
  - cbn [write_rows features_of] in *. now apply IH in H.
Qed.

(** A loop that ends normally over a stream of [rows]: the counter, the
    lines, and one fetch per batch and one more. *)
Lemma stream_loop_returns cur f total e t :
  batch_size g <> 0 ->
  forall fuel rows first written s w s',
    stream (live s) = map Row rows ->
    stream_loop g fuel cur f total e t first written s = (Return w, s') ->
    w = written + length (features_of rows)
    /\ logged s s' (progress_lines g total e t written (length (features_of rows))) []
              (repeat (cur, batch_size g) (S (batches (batch_size g) (length rows)))).
Proof.
  intros Hb. induction fuel as [|fuel IH]; intros rows first written s w s' Hst H;
    [discriminate H|].
  cbn [stream_loop] in H. unfold bind at 1 in H. unfold cursor_fetchmany in H.
  rewrite Hst, firstn_map, deliver_rows, skipn_map in H.
  set (s0 := set_live _ _) in H.
  assert (L0 : logged s s0 [] [] [(cur, batch_size g)]).
  { apply (logged_event s s0 (EvFetch cur (batch_size g))). reflexivity. }
  assert (St0 : stream (live s0) = map Row (skipn (batch_size g) rows)) by reflexivity.
  clearbody s0.
  destruct (firstn (batch_size g) rows) as [|r rs] eqn:Ef.
  - destruct (firstn_nil_inv _ _ Ef) as [|Hr]; [contradiction|]. subst rows.
    inversion H; subst. cbn [features_of length]. rewrite Nat.add_0_r.
    split; [reflexivity|]. rewrite progress_lines_zero, batches_zero by assumption.
    exact L0.
  - unfold bind in H.
    destruct (write_rows g f total e t (r :: rs) first written s0) as [[fw|?|] s1] eqn:E1;
      try discriminate H.
    apply (write_rows_returns _ _ _ _ _ Hb) in E1 as (Hw & L1 & Hs1).
    apply (IH (skipn (batch_size g) rows)) in H as (Hw' & L2); [|congruence].
    assert (Hrows : rows = ((r :: rs) ++ skipn (batch_size g) rows)%list).
    { now rewrite <- Ef, firstn_skipn. }
    assert (Hn : length rows <> 0).
    { destruct rows; [rewrite firstn_nil in Ef; discriminate | cbn; lia]. }
    split.
    + rewrite Hrows at 1. rewrite features_of_app, length_app. lia.
    + rewrite (batches_step _ _ Hb Hn), <- length_skipn.
      rewrite Hrows at 1. rewrite features_of_app, length_app, progress_lines_app.
      rewrite Hw in L2.
      pose proof (logged_trans _ _ _ _ _ _ _ _ _ L0
                    (logged_trans _ _ _ _ _ _ _ _ _ L1 L2)) as L.
      cbn [app] in L. exact L.
Qed.

End Logged.
End Logs.
(* ================================================================== *)
(** * Runs that log only some kinds of events *)
(* ================================================================== *)

Module Kinds.
Import QueryFacts RunFacts InvFacts Steps Loops Logs.

Lemma of_kinds_nil ks : of_kinds ks [].
Proof. constructor. Qed.

Lemma of_kinds_app ks a b : of_kinds ks a -> of_kinds ks b -> of_kinds ks (a ++ b).
Proof. intros Ha Hb. apply Forall_app. now split. Qed.

Lemma of_kinds_incl ks ks' evs : incl ks ks' -> of_kinds ks evs -> of_kinds ks' evs.
Proof.
  intros Hi H. unfold of_kinds in *. eapply Forall_impl; [|exact H].
  intros ev. apply Hi.
Qed.

Lemma of_kinds_one ks ev : In (kind_of ev) ks -> of_kinds ks [ev].
Proof. intros H. constructor; [exact H | constructor]. Qed.

(** Events of kinds on which [pick] is silent leave nothing to see. *)
Lemma seen_of_kinds {X} (pick : event -> list X) ks evs :
  (forall ev, In (kind_of ev) ks -> pick ev = []) ->
  of_kinds ks evs -> seen pick evs = [].
Proof.
  intros Hp H. unfold seen. induction H as [|ev evs Hev _ IH]; [reflexivity|].
  cbn [rev]. rewrite flat_map_app, IH. cbn. now rewrite Hp.
Qed.

Lemma emits_incl {A} ks ks' (m : M A) : incl ks ks' -> emits ks m -> emits ks' m.
Proof.
  intros Hi H s. destruct (H s) as (evs & E & K). exists evs. split; [exact E|].
  now apply (of_kinds_incl ks).
Qed.

Lemma emits_ret {A} ks (a : A) : emits ks (ret a).
Proof. intros s. exists []. split; [reflexivity | constructor]. Qed.

Lemma emits_raise {A} ks e : emits ks (@raise A e).
Proof. intros s. exists []. split; [reflexivity | constructor]. Qed.

Lemma emits_lift {A} ks (r : result A) : emits ks (lift r).
Proof. destruct r; [apply emits_ret | apply emits_raise]. Qed.

Lemma emits_gets {A} ks (f : state -> A) : emits ks (gets f).
Proof. intros s. exists []. split; [reflexivity | constructor]. Qed.

Lemma emits_bind {A B} ks (m : M A) (k : A -> M B) :
  emits ks m -> (forall a, emits ks (k a)) -> emits ks (bind m k).
Proof.
  intros Hm Hk s. unfold bind. destruct (Hm s) as (evs & E & K).
  destruct (m s) as [[a|e|] s1]; cbn [snd] in *; [|now exists evs..].
  destruct (Hk a s1) as (evs' & E' & K'). exists (evs' ++ evs)%list.
  split; [now rewrite E', E, app_assoc | now apply of_kinds_app].
Qed.

Lemma emits_try_finally {A} ks (m : M A) (fin : M unit) :
  emits ks m -> emits ks fin -> emits ks (try_finally m fin).
Proof.
  intros Hm Hf s. unfold try_finally. destruct (Hm s) as (evs & E & K).
  destruct (m s) as [[a|e|] s1]; cbn [snd] in *; [| |now exists evs];
    destruct (Hf s1) as (evs' & E' & K'); unfold bind;
    destruct (fin s1) as [[[]|e'|] s2]; cbn [snd ret raise] in *;
    exists (evs' ++ evs)%list;
    (split; [now rewrite E', E, app_assoc | now apply of_kinds_app]).
Qed.

Lemma emits_try_except {A} ks (m : M A) (h : exn -> M A) :
  emits ks m -> (forall e, emits ks (h e)) -> emits ks (try_except m h).
Proof.
  intros Hm Hh s. unfold try_except. destruct (Hm s) as (evs & E & K).
  destruct (m s) as [[a|e|] s1]; cbn [snd] in *; [now exists evs| |now exists evs].
  destruct (Hh e s1) as (evs' & E' & K'). exists (evs' ++ evs)%list.
  split; [now rewrite E', E, app_assoc | now apply of_kinds_app].
Qed.

Lemma emits_record ks ev : In (kind_of ev) ks -> emits ks (modify (record ev)).
Proof. intros H s. exists [ev]. split; [reflexivity | now apply of_kinds_one]. Qed.

Lemma emits_file_write ks f text : In KWrite ks -> emits ks (file_write f text).
Proof.
  intros H s. unfold file_write.
  destruct (write_budget (live s)) as [[|b]|];
    [exists []; split; [reflexivity | constructor]
    | exists [EvWrite f text]; split; [reflexivity | now apply of_kinds_one]..].
Qed.

Lemma emits_file_close ks f : In KFileClose ks -> emits ks (file_close f).
Proof. intros H. now apply emits_record. Qed.

Lemma emits_cursor_fetchmany ks cur size : In KFetch ks -> emits ks (cursor_fetchmany cur size).
Proof.
  intros H s. unfold cursor_fetchmany. exists [EvFetch cur size].
  destruct (deliver _); (split; [reflexivity | now apply of_kinds_one]).
Qed.

Lemma emits_cursor_close ks cur : In KCursorClose ks -> emits ks (cursor_close cur).
Proof.
  intros H s. exists [EvCursorClose cur]. split; [reflexivity | now apply of_kinds_one].
Qed.

Lemma emits_conn_close ks : In KConnClose ks -> emits ks conn_close.
Proof.
  intros H s. exists [EvConnClose]. split; [reflexivity | now apply of_kinds_one].
Qed.

Lemma emits_print_stderr ks d : In KStderr ks -> emits ks (print_stderr d).
Proof. intros H. now apply emits_record. Qed.

Lemma emits_print_stdout ks d : In KStdout ks -> emits ks (print_stdout d).
Proof. intros H. now apply emits_record. Qed.

Section Emits.

Variable g : GeojsonGenerator.

Lemma emits_report_progress total e t written :
  emits (loop_kinds total) (report_progress g total e t written).
Proof.
  unfold report_progress. destruct total as [tot|]; [|apply emits_ret].
  destruct (negb _ && _); [|apply emits_ret].
  destruct (batch_size g =? 0)%nat; [apply emits_raise|].
  destruct (_ =? 0)%nat; [|apply emits_ret].
  apply emits_print_stderr. cbn. tauto.
Qed.

Lemma loop_kinds_write total : In KWrite (loop_kinds total).
Proof. destruct total; cbn; tauto. Qed.

Lemma loop_kinds_fetch total : In KFetch (loop_kinds total).
Proof. destruct total; cbn; tauto. Qed.

Lemma emits_write_rows f total e t rows :
  forall first written, emits (loop_kinds total) (write_rows g f total e t rows first written).
Proof.
  pose proof (loop_kinds_write total) as Hw.
  induction rows as [|[text|] rows IH]; intros first written; cbn [write_rows].
  - apply emits_ret.
  - apply emits_bind; [destruct first; [apply emits_ret | now apply emits_file_write]|].
    intros _. apply emits_bind; [now apply emits_file_write|].
    intros _. apply emits_bind; [now apply emits_file_write|].
    intros _. apply emits_bind; [apply emits_report_progress|].
    intros _. apply IH.
  - apply IH.
Qed.

Lemma emits_stream_loop cur f total e t fuel :
  forall first written,
    emits (loop_kinds total) (stream_loop g fuel cur f total e t first written).
Proof.
  induction fuel as [|fuel IH]; intros first written; cbn [stream_loop].
  - intros s. exists []. split; [reflexivity | constructor].
  - apply emits_bind; [apply emits_cursor_fetchmany, loop_kinds_fetch|].
    intros [|r rs]; [apply emits_ret|].
    apply emits_bind; [apply emits_write_rows|]. intros fw. apply IH.
Qed.

(** The body of the [with open] block. *)
Lemma emits_file_body cur path total e t :
  emits (loop_kinds total)
    (file_write path collection_prefix ;;;
     fuel <- gets (fun s => S (length (stream (live s)))) ;;
     written <- stream_loop g fuel cur path total e t true 0 ;;
     file_write path collection_suffix ;;;
     ret written).
Proof.
  pose proof (loop_kinds_write total) as Hw.
  apply emits_bind; [now apply emits_file_write|]. intros _.
  apply emits_bind; [apply emits_gets|]. intros fuel.
  apply emits_bind; [apply emits_stream_loop|]. intros w.
  apply emits_bind; [now apply emits_file_write | intros _; apply emits_ret].
Qed.

Lemma emits_report_done total e t written :
  emits (tail_kinds g) (report_done g total e t written).
Proof.
  unfold report_done, tail_kinds. destruct (show_progress g); [|apply emits_ret].
  destruct total; apply emits_print_stdout; cbn; tauto.
Qed.

Lemma tail_kinds_cursor_close : In KCursorClose (tail_kinds g).
Proof. unfold tail_kinds. destruct (show_progress g); cbn; tauto. Qed.

Lemma tail_kinds_conn_close : In KConnClose (tail_kinds g).
Proof. unfold tail_kinds. destruct (show_progress g); cbn; tauto. Qed.

End Emits.
End Kinds.
(* ================================================================== *)
(** * Steps that leave an observation alone *)
(* ================================================================== *)

Module Keeps.
Import QueryFacts RunFacts InvFacts Steps.

Section Obs.

Context {X : Type}.
Variable obs : state -> X.

Lemma kept_ret {A} (a : A) : keeps obs (ret a).
Proof. intros s. reflexivity. Qed.

Lemma kept_raise {A} e : keeps obs (@raise A e).
Proof. intros s. reflexivity. Qed.

Lemma kept_lift {A} (r : result A) : keeps obs (lift r).
Proof. destruct r; intros s; reflexivity. Qed.

Lemma kept_gets {A} (f : state -> A) : keeps obs (gets f).
Proof. intros s. reflexivity. Qed.

Lemma kept_bind {A B} (m : M A) (k : A -> M B) :
  keeps obs m -> (forall a, keeps obs (k a)) -> keeps obs (bind m k).
Proof.
  intros Hm Hk s. unfold bind. specialize (Hm s).
  destruct (m s) as [[a|e|] s1]; cbn [snd] in *; [|exact Hm..].
  now rewrite Hk.
Qed.

Lemma kept_try_finally {A} (m : M A) (fin : M unit) :
  keeps obs m -> keeps obs fin -> keeps obs (try_finally m fin).
Proof.
  intros Hm Hf s. unfold try_finally. specialize (Hm s).
  destruct (m s) as [[a|e|] s1]; cbn [snd] in *; [| |exact Hm];
    unfold bind; specialize (Hf s1);
    destruct (fin s1) as [[[]|e'|] s2]; cbn [snd ret raise] in *; congruence.
Qed.

Lemma kept_try_except {A} (m : M A) (h : exn -> M A) :
  keeps obs m -> (forall e, keeps obs (h e)) -> keeps obs (try_except m h).
Proof.
  intros Hm Hh s. unfold try_except. specialize (Hm s).
  destruct (m s) as [[a|e|] s1]; cbn [snd] in *; [exact Hm| |exact Hm].
  now rewrite Hh.
Qed.

(** Observations of the files only. *)
Hypothesis Hobs : forall s s', files s = files s' -> obs s = obs s'.

Lemma kept_connect h d u w n : keeps obs (connect h d u w n).
Proof.
  intros s. unfold connect. destruct (pending s) as [|x r]; [reflexivity|].
  destruct (connect_error x); apply Hobs; reflexivity.
Qed.

Lemma kept_conn_close : keeps obs conn_close.
Proof. intros s. apply Hobs; reflexivity. Qed.

Lemma kept_cursor_execute cu q params : keeps obs (cursor_execute cu q params).
Proof.
  intros s. unfold cursor_execute.
  destruct cu; [destruct (execute_error (live s)) | destruct (count_result (live s))];
    apply Hobs; reflexivity.
Qed.

Lemma kept_cursor_fetchone_int cu : keeps obs (cursor_fetchone_int cu).
Proof.
  intros s. unfold cursor_fetchone_int. destruct (count_result (live s)); reflexivity.
Qed.

Lemma kept_cursor_fetchmany cu size : keeps obs (cursor_fetchmany cu size).
Proof.
  intros s. unfold cursor_fetchmany. destruct (deliver _); apply Hobs; reflexivity.
Qed.

Lemma kept_file_close f : keeps obs (file_close f).
Proof. intros s. apply Hobs; reflexivity. Qed.

Lemma kept_print_stderr d : keeps obs (print_stderr d).
Proof. intros s. apply Hobs; reflexivity. Qed.

Lemma kept_print_stdout d : keeps obs (print_stdout d).
Proof. intros s. apply Hobs; reflexivity. Qed.

Lemma kept_conn_cursor name : keeps obs (conn_cursor name).
Proof. intros s. apply Hobs; reflexivity. Qed.

Lemma kept_cursor_close cu : keeps obs (cursor_close cu).
Proof. intros s. apply Hobs; reflexivity. Qed.

Lemma kept_count_rows conn table sch w wp : keeps obs (_count_rows conn table sch w wp).
Proof.
  unfold _count_rows. apply kept_bind; [apply kept_conn_cursor|]. intros cu.
  apply kept_try_finally; [|apply kept_cursor_close].
  apply kept_bind; [apply kept_lift|]. intros q.
  apply kept_bind.
  { destruct w; [destruct (nonblank _); [apply kept_lift | apply kept_ret]
                | apply kept_ret]. }
  intros q'. apply kept_bind; [apply kept_cursor_execute|]. intros _.
  apply kept_cursor_fetchone_int.
Qed.

Variable g : GeojsonGenerator.

Lemma kept_count_total conn table sch w wp : keeps obs (count_total g conn table sch w wp).
Proof.
  unfold count_total. destruct (show_progress g); [|apply kept_ret].
  apply kept_try_except.
  - apply kept_bind; [apply kept_count_rows | intros n; apply kept_ret].
  - intros e. apply kept_bind; [apply kept_print_stderr | intros _; apply kept_ret].
Qed.

Lemma kept_report_progress total e t written :
  keeps obs (report_progress g total e t written).
Proof.
  unfold report_progress. destruct total; [|apply kept_ret].
  destruct (negb _ && _); [|apply kept_ret].
  destruct (batch_size g =? 0)%nat; [apply kept_raise|].
  destruct (_ =? 0)%nat; [apply kept_print_stderr | apply kept_ret].
Qed.

Lemma kept_report_done total e t written : keeps obs (report_done g total e t written).
Proof.
  unfold report_done. destruct (show_progress g); [|apply kept_ret].
  destruct total; apply kept_print_stdout.
Qed.

(** The steps that write to the file [path], for an observation that these
    writes leave alone. *)
Variable path : string.
Hypothesis Hopen : keeps obs (file_open path).
Hypothesis Hwrite : forall text, keeps obs (file_write path text).

Lemma kept_write_rows total e t rows :
  forall first written, keeps obs (write_rows g path total e t rows first written).
Proof.
  induction rows as [|[text|] rows IH]; intros first written; cbn [write_rows].
  - apply kept_ret.
  - apply kept_bind; [destruct first; [apply kept_ret | apply Hwrite]|].
    intros _. apply kept_bind; [apply Hwrite|].
    intros _. apply kept_bind; [apply Hwrite|].
    intros _. apply kept_bind; [apply kept_report_progress|].
    intros _. apply IH.
  - apply IH.
Qed.

Lemma kept_stream_loop cu total e t fuel :
  forall first written, keeps obs (stream_loop g fuel cu path total e t first written).
Proof.
  induction fuel as [|fuel IH]; intros first written; cbn [stream_loop].
  - intros s. reflexivity.
  - apply kept_bind; [apply kept_cursor_fetchmany|].
    intros [|r rs]; [apply kept_ret|].
    apply kept_bind; [apply kept_write_rows|]. intros fw. apply IH.
Qed.

Lemma kept_stream_to_file cu total e t : keeps obs (stream_to_file g cu path total e t).
Proof.
  unfold stream_to_file, with_open. intros s. unfold bind at 1.
  pose proof (Hopen s) as H0. unfold file_open in *.
  destruct (open_error (live s)); [reflexivity|]. cbn [snd] in H0.
  rewrite <- H0.
  apply (kept_try_finally
           (file_write path collection_prefix ;;;
            fuel <- gets (fun s => S (length (stream (live s)))) ;;
            written <- stream_loop g fuel cu path total e t true 0 ;;
            file_write path collection_suffix ;;;
            ret written)
           (file_close path)); [|apply kept_file_close].
  apply kept_bind; [apply Hwrite|]. intros _.
  apply kept_bind; [apply kept_gets|]. intros fuel.
  apply kept_bind; [apply kept_stream_loop|]. intros w.
  apply kept_bind; [apply Hwrite | intros _; apply kept_ret].
Qed.

Lemma kept_export_table table columns where_sql where_params order_by target_srid
      schema_override geometry_column_override :
  keeps obs (export_table g table path columns where_sql where_params order_by
               target_srid schema_override geometry_column_override).
Proof.
  unfold export_table, _connect.
  apply kept_bind; [apply kept_connect|]. intros conn.
  apply kept_try_finally; [|apply kept_conn_close].
  apply kept_bind; [apply kept_count_total|]. intros tot.
  apply kept_bind; [apply kept_conn_cursor|]. intros cu.
  apply kept_bind; [apply kept_lift|]. intros q.
  apply kept_bind; [apply kept_cursor_execute|]. intros _.
  apply kept_bind; [apply kept_stream_to_file|]. intros w.
  apply kept_bind; [apply kept_report_done | intros _; apply kept_cursor_close].
Qed.

End Obs.

Lemma content_of_files other s s' :
  files s = files s' -> content_of other s = content_of other s'.
Proof. unfold content_of. now intros ->. Qed.

Lemma kept_other_open other path :
  other <> path -> keeps (content_of other) (file_open path).
Proof.
  intros Hne s. unfold file_open. destruct (open_error (live s)); [reflexivity|].
  unfold content_of. cbn. apply read_other_truncate. now apply String.eqb_neq.
Qed.

Lemma kept_other_write other path text :
  other <> path -> keeps (content_of other) (file_write path text).
Proof.
  intros Hne s. unfold file_write, content_of.
  destruct (write_budget (live s)) as [[|b]|]; [reflexivity|..];
    cbn; apply read_other_append; now apply String.eqb_neq.
Qed.

(** An export leaves the files other than its output alone. *)
Lemma kept_other_files g other table path columns where_sql where_params order_by
      target_srid schema_override geometry_column_override :
  other <> path ->
  keeps (content_of other)
        (export_table g table path columns where_sql where_params order_by target_srid
                      schema_override geometry_column_override).
Proof.
  intros Hne.
  apply (kept_export_table (content_of other) (content_of_files other)).
  - now apply kept_other_open.
  - intros text. now apply kept_other_write.
Qed.

End Keeps.
(* ================================================================== *)
(** * One export, whatever the session *)
(* ================================================================== *)

Module Runs.
Import QueryFacts RunFacts InvFacts Steps Loops Logs Kinds Keeps.

Ltac goal_simpl :=
  unfold record, set_files, set_live, set_pending, set_conns, set_cursors,
    with_stream, with_budget;
  cbn [pending live files open_conns open_cursors log connect_error count_result
       execute_error stream open_error write_budget].

Section Single.

Variable g : GeojsonGenerator.
Variables (table output_path : string) (columns : columns_arg)
          (where_sql : option string) (where_params : option (list pyval))
          (order_by : option string) (target_srid : option Z)
          (schema_override geometry_column_override : option string).

Let call : M unit :=
  export_table g table output_path columns where_sql where_params order_by
    target_srid schema_override geometry_column_override.
Let sch : string := str_or schema_override (schema g).
Let geom : string := str_or geometry_column_override (geometry_column g).
Let cur : cursor := Some ("cur_" ++ sch ++ "_" ++ table).
Let query : Composable :=
  assembled sch table (normalize_columns columns) geom where_sql order_by target_srid.

(** The log once the named cursor has run the streaming query. *)
Let executed (x : session) (lg : list event) : list event :=
  (EvExecute cur query (params_or where_params) :: EvCursor cur
     :: count_events g x table sch where_sql where_params
     ++ EvConnect (host g) (dbname g) (user g) (port g) :: lg)%list.

(** An export whose connection is refused. *)
Lemma export_table_refused s x rest e :
  pending s = x :: rest -> connect_error x = Some e ->
  call s = (Throw e, set_pending rest s).
Proof.
  intros Hp He. unfold call, export_table, _connect, bind, connect.
  now rewrite Hp, He.
Qed.

(** An export whose streaming query is refused, by the server or because the
    COUNT query left the transaction aborted. *)
Lemma export_table_rejected s x rest e :
  pending s = x :: rest -> connect_error x = None ->
  execute_error (after_count g x) = Some e ->
  call s = (Throw e,
            mkState rest (after_count g x) (files s) (open_conns s) []
                    (EvConnClose :: executed x (log s))).
Proof.
  intros Hp Hc He.
  exact (export_table_query_refused g table output_path columns where_sql where_params
           order_by target_srid schema_override geometry_column_override s x rest e
           Hp Hc He).
Qed.

(** An export whose output path cannot be opened. *)
Lemma export_table_unwritable s x rest e :
  pending s = x :: rest -> connect_error x = None ->
  execute_error (after_count g x) = None ->
  open_error x = Some e ->
  call s = (Throw e,
            mkState rest x (files s) (open_conns s) []
                    (EvConnClose :: executed x (log s))).
Proof.
  intros Hp Hc He Ho. pose proof (after_count_accepted g x He) as Hx. rewrite Hx in He.
  destruct s as [p l f c cu lg]. cbn [pending] in Hp. subst p.
  unfold call, export_table, _connect.
  unfold bind at 1. unfold connect. state_simpl. rewrite Hc. state_simpl.
  unfold try_finally. unfold bind at 1. rewrite count_total_run, Hx.
  unfold bind at 1. unfold conn_cursor. state_simpl.
  unfold bind at 1. rewrite build_query_shape. cbn [lift]. unfold ret at 1.
  unfold bind at 1. unfold cursor_execute. state_simpl. rewrite He.
  unfold bind at 1. unfold stream_to_file, with_open.
  unfold bind at 1. unfold file_open. state_simpl. rewrite Ho.
  unfold bind, conn_close, modify, raise. state_simpl. reflexivity.
Qed.

(** An export that reaches its loop: what is left to run, and the state in
    which it runs. *)
Lemma export_table_start s x rest :
  pending s = x :: rest -> connect_error x = None ->
  execute_error (after_count g x) = None ->
  open_error x = None -> write_budget x = None ->
  call s
  = try_finally
      (written <- try_finally
                    (written <- stream_loop g (S (length (stream x))) cur output_path
                                  (count_answer g x) sch table true 0 ;;
                     file_write output_path collection_suffix ;;;
                     ret written)
                    (file_close output_path) ;;
       report_done g (count_answer g x) sch table written ;;;
       cursor_close cur)
      conn_close
      (mkState rest x
               (append_file output_path collection_prefix
                            (truncate_file output_path (files s)))
               (S (open_conns s)) (cur :: open_cursors s)
               (EvWrite output_path collection_prefix :: EvOpen output_path
                  :: executed x (log s))).
Proof.
  intros Hp Hc He Ho Hw. pose proof (after_count_accepted g x He) as Hx.
  rewrite Hx in He.
  destruct s as [p l f c cu lg]. cbn [pending] in Hp. subst p.
  unfold call, export_table, _connect.
  unfold bind at 1. unfold connect. state_simpl. rewrite Hc. state_simpl.
  unfold try_finally at 1. symmetry. unfold try_finally at 1. symmetry.
  unfold bind at 1. rewrite count_total_run, Hx.
  unfold bind at 1. unfold conn_cursor. state_simpl.
  unfold bind at 1. rewrite build_query_shape. cbn [lift]. unfold ret at 1.
  unfold bind at 1. unfold cursor_execute. state_simpl. rewrite He.
  unfold bind at 1. symmetry. unfold bind at 1. symmetry.
  unfold stream_to_file, with_open.
  unfold bind at 1. unfold file_open. state_simpl. rewrite Ho.
  unfold try_finally at 1. symmetry. unfold try_finally at 1. symmetry.
  unfold bind at 1. unfold file_write at 1. state_simpl. rewrite Hw.
  unfold bind at 1. unfold gets. state_simpl.
  reflexivity.
Qed.



(** The body of the [with open] block. *)
Let file_body (x : session) : M nat :=
  file_write output_path collection_prefix ;;;
  fuel <- gets (fun s => S (length (stream (live s)))) ;;
  written <- stream_loop g fuel cur output_path (count_answer g x) sch table true 0 ;;
  file_write output_path collection_suffix ;;;
  ret written.

(** An export whose output file is open: what is left to run, and the state
    in which it runs. *)
Lemma export_table_opened s x rest :
  pending s = x :: rest -> connect_error x = None ->
  execute_error (after_count g x) = None ->
  open_error x = None ->
  call s
  = try_finally
      (written <- try_finally (file_body x) (file_close output_path) ;;
       report_done g (count_answer g x) sch table written ;;;
       cursor_close cur)
      conn_close
      (mkState rest x (truncate_file output_path (files s))
               (S (open_conns s)) (cur :: open_cursors s)
               (EvOpen output_path :: executed x (log s))).
Proof.
  intros Hp Hc He Ho. pose proof (after_count_accepted g x He) as Hx. rewrite Hx in He.
  destruct s as [p l f c cu lg]. cbn [pending] in Hp. subst p.
  unfold call, export_table, _connect.
  unfold bind at 1. unfold connect. state_simpl. rewrite Hc. state_simpl.
  unfold try_finally at 1. symmetry. unfold try_finally at 1. symmetry.
  unfold bind at 1. rewrite count_total_run, Hx.
  unfold bind at 1. unfold conn_cursor. state_simpl.
  unfold bind at 1. rewrite build_query_shape. cbn [lift]. unfold ret at 1.
  unfold bind at 1. unfold cursor_execute. state_simpl. rewrite He.
  unfold bind at 1. symmetry. unfold bind at 1. symmetry.
  unfold stream_to_file, with_open.
  unfold bind at 1. unfold file_open. state_simpl. rewrite Ho.
  reflexivity.
Qed.

Lemma file_body_ends x s : stream (live s) = stream x -> fst (file_body x s) <> Diverge.
Proof.
  intros Hst. unfold file_body.
  pose proof (ends_file_write output_path collection_prefix s) as H1.
  pose proof (keeps_file_write output_path collection_prefix s) as K1.
  unfold bind at 1.
  destruct (file_write output_path collection_prefix s) as [[[]|err|] s1];
    cbn [fst snd] in *; [|discriminate|contradiction].
  unfold bind at 1. unfold gets. cbn [fst snd].
  pose proof (stream_loop_ends g (Some ("cur_" ++ sch ++ "_" ++ table)) output_path
                (count_answer g x) sch table (S (length (stream (live s1)))) true 0 s1
                (Nat.lt_succ_diag_r _)) as H2.
  fold cur in H2. unfold bind at 1.
  destruct (stream_loop g _ cur output_path _ sch table true 0 s1) as [[w|err|] s2];
    cbn [fst] in *; [|discriminate|contradiction].
  apply ends_bind; [apply ends_file_write | intros _; apply ends_ret].
Qed.

(** The log of an export whose output file was opened: the events up to the
    query, the opening, the events of the loop, the closing of the file, and
    what follows. *)
Lemma export_table_shape s x rest :
  pending s = x :: rest -> connect_error x = None ->
  execute_error (after_count g x) = None ->
  open_error x = None ->
  exists evs tl,
    log (snd (call s))
    = (tl ++ EvFileClose output_path :: evs ++ EvOpen output_path :: executed x (log s))%list
    /\ of_kinds (loop_kinds (count_answer g x)) evs
    /\ of_kinds (tail_kinds g) tl.
Proof.
  intros Hp Hc He Ho. rewrite (export_table_opened s x rest Hp Hc He Ho).
  set (s0 := mkState _ _ _ _ _ _).
  destruct (emits_file_body g cur output_path (count_answer g x) sch table s0)
    as (evs & E & K).
  fold (file_body x) in E.
  pose proof (file_body_ends x s0 eq_refl) as Hend.
  unfold try_finally at 1. unfold bind at 1. unfold try_finally at 1.
  destruct (file_body x s0) as [[w|err|] s1]; cbn [fst snd] in *; [| |contradiction].
  - unfold bind at 1. unfold file_close, modify. cbn [ret].
    unfold bind at 1.
    destruct (emits_report_done g (count_answer g x) sch table w
                (record (EvFileClose output_path) s1)) as (e1 & E1 & K1).
    destruct (report_done g (count_answer g x) sch table w
                (record (EvFileClose output_path) s1)) as [[[]|err|] s2];
      cbn [snd] in *.
    + unfold cursor_close, conn_close, modify, bind, ret. cbn [snd]. state_simpl.
      exists evs, (EvConnClose :: EvCursorClose cur :: e1)%list.
      rewrite E1, E. cbn [app]. split; [reflexivity|]. split; [exact K|].
      constructor; [apply tail_kinds_conn_close|].
      constructor; [apply tail_kinds_cursor_close | exact K1].
    + unfold conn_close, modify, bind, raise. cbn [snd]. state_simpl.
      exists evs, (EvConnClose :: e1)%list.
      rewrite E1, E. cbn [app]. split; [reflexivity|]. split; [exact K|].
      constructor; [apply tail_kinds_conn_close | exact K1].
    + cbn [snd]. state_simpl.
      exists evs, e1. rewrite E1, E. cbn [app]. split; [reflexivity|]. now split.
  - unfold bind at 1. unfold file_close, modify. cbn [raise].
    unfold bind at 1. unfold conn_close, modify, bind, raise. cbn [snd]. state_simpl.
    exists evs, [EvConnClose]. rewrite E. cbn [app]. split; [reflexivity|].
    split; [exact K|]. constructor; [apply tail_kinds_conn_close | constructor].
Qed.

Lemma seen_count_events s x :
  stderr_lines (count_events g x table sch where_sql where_params ++ log s)
  = (stderr_lines (log s) ++ count_warning g x)%list
  /\ stdout_lines (count_events g x table sch where_sql where_params ++ log s)
     = stdout_lines (log s)
  /\ fetches (count_events g x table sch where_sql where_params ++ log s)
     = fetches (log s).
Proof.
  unfold stderr_lines, stdout_lines, fetches, count_events, count_warning.
  rewrite !seen_app.
  destruct (show_progress g); [destruct (count_result x)|]; cbn;
    rewrite ?app_nil_r; auto.
Qed.

(** What is logged up to the first write to the output file. *)
Lemma logged_start s x s0 :
  log s0 = EvWrite output_path collection_prefix :: EvOpen output_path
             :: executed x (log s) ->
  logged s s0 (count_warning g x) [] [].
Proof.
  intros H. unfold logged, stderr_lines, stdout_lines, fetches. rewrite H.
  unfold executed. rewrite !seen_cons.
  change (count_events g x table sch where_sql where_params
            ++ EvConnect (host g) (dbname g) (user g) (port g) :: log s)%list
    with (count_events g x table sch where_sql where_params
            ++ log (record (EvConnect (host g) (dbname g) (user g) (port g)) s))%list.
  destruct (seen_count_events (record (EvConnect (host g) (dbname g) (user g) (port g)) s) x)
    as (A & B & C).
  unfold stderr_lines, stdout_lines, fetches in A, B, C. rewrite A, B, C.
  cbn [log record]. rewrite !seen_cons. cbn. now rewrite !app_nil_r.
Qed.

(** A completed export: the lines it prints and the fetches it makes. *)
Lemma export_table_logged s x rest rows :
  pending s = x :: rest -> healthy x rows -> batch_size g <> 0 ->
  logged s (snd (call s))
         (count_warning g x
            ++ progress_lines g (count_answer g x) sch table 0 (length (features_of rows)))
         (done_line g (count_answer g x) sch table (length (features_of rows)))
         (repeat (cur, batch_size g) (S (batches (batch_size g) (length rows)))).
Proof.
  intros Hp (Hcr & Hce & Hee & Hst & Hoe & Hwb) Hb.
  assert (Hee' : execute_error (after_count g x) = None)
    by (now rewrite after_count_answers).
  rewrite (export_table_start s x rest Hp Hce Hee' Hoe Hwb).
  set (s0 := mkState _ _ _ _ _ _).
  assert (L0 : logged s s0 (count_warning g x) [] []) by (now apply logged_start).
  assert (Hst0 : stream (live s0) = map Row rows) by exact Hst.
  unfold try_finally at 1. unfold bind at 1. unfold try_finally at 1. unfold bind at 1.
  rewrite Hst, length_map.
  destruct (stream_loop g (S (length rows)) cur output_path (count_answer g x) sch table
              true 0 s0) as [[w|err|] s1] eqn:E1.
  2,3: exfalso;
    destruct x as [ce cr ee st oe wb]; cbn in Hce, Hee, Hst, Hoe, Hwb; subst;
    unfold s0 in E1;
    match type of E1 with
    | stream_loop g ?fuel cur ?path ?tot ?e ?t ?fst ?w
        (mkState ?p' (mkSession ?a1 ?a2 ?a3 _ ?a5 None) (append_file ?path ?pre' ?fs')
           ?c' ?cu' ?lg') = _ =>
        destruct (stream_loop_healthy g cur path tot e t fuel rows fst w p' a1 a2 a3 a5
                    pre' fs' c' cu' lg' (Nat.lt_succ_diag_r _) (or_introl Hb))
          as (lg2 & E2)
    end; rewrite E2 in E1; discriminate E1.
  assert (Hwb1 : write_budget (live s1) = None).
  { destruct x as [ce cr ee st oe wb]; cbn in Hce, Hee, Hst, Hoe, Hwb; subst.
    unfold s0 in E1.
    match type of E1 with
    | stream_loop g ?fuel cur ?path ?tot ?e ?t ?fst ?w
        (mkState ?p' (mkSession ?a1 ?a2 ?a3 _ ?a5 None) (append_file ?path ?pre' ?fs')
           ?c' ?cu' ?lg') = _ =>
        destruct (stream_loop_healthy g cur path tot e t fuel rows fst w p' a1 a2 a3 a5
                    pre' fs' c' cu' lg' (Nat.lt_succ_diag_r _) (or_introl Hb))
          as (lg2 & E2)
    end. rewrite E2 in E1. inversion E1; subst. reflexivity. }
  destruct (stream_loop_returns g cur output_path (count_answer g x) sch table Hb _ rows
              true 0 s0 w s1 Hst0 E1) as (Hw & L1).
  cbn [Nat.add] in Hw, L1. subst w.
  pose proof (logged_trans _ _ _ _ _ _ _ _ _ L0 L1) as L. rewrite !app_nil_r in L.
  cbn [app] in L. clear L0 L1 E1.
  unfold bind at 1. unfold file_write. rewrite Hwb1. goal_simpl.
  unfold bind at 1. unfold ret at 1.
  unfold bind at 1. unfold file_close, modify. goal_simpl. unfold ret at 1.
  destruct L as (A & B & C). unfold logged, stderr_lines, stdout_lines, fetches in *.
  unfold report_done, done_line.
  destruct (show_progress g); [destruct (count_answer g x)|];
    unfold bind, ret, print_stdout, cursor_close, conn_close, modify;
    cbn [snd fst]; goal_simpl; rewrite !seen_cons, A, B, C; cbn;
    rewrite ?app_nil_r; auto.
Qed.

(** The events up to the query: which kinds they are of. *)
Lemma executed_kinds x lg :
  exists pre,
    executed x lg = (pre ++ lg)%list
    /\ of_kinds [KConnect; KCursor; KCursorClose; KExecute; KStderr] pre.
Proof.
  unfold executed.
  exists (EvExecute cur query (params_or where_params) :: EvCursor cur
            :: count_events g x table sch where_sql where_params
            ++ [EvConnect (host g) (dbname g) (user g) (port g)])%list.
  split; [cbn [app]; now rewrite <- app_assoc|].
  constructor; [cbn; tauto|]. constructor; [cbn; tauto|].
  apply of_kinds_app; [|apply of_kinds_one; cbn; tauto].
  unfold count_events. destruct (show_progress g); [|constructor].
  destruct (count_result x); repeat (constructor; [cbn; tauto|]); constructor.
Qed.

Lemma seen_executed {X} (pick : event -> list X) x lg :
  (forall ev, In (kind_of ev) [KConnect; KCursor; KCursorClose; KExecute; KStderr] ->
              pick ev = []) ->
  seen pick (executed x lg) = seen pick lg.
Proof.
  intros Hp. destruct (executed_kinds x lg) as (pre & -> & K).
  rewrite seen_app, (seen_of_kinds pick _ pre Hp K). apply app_nil_r.
Qed.

(** The statements among the events up to the query. *)
Lemma statements_executed x lg :
  statements (executed x lg)
  = (statements lg
       ++ (if show_progress g
           then [(None, count_query sch table where_sql, params_or where_params)]
           else [])
       ++ [(cur, query, params_or where_params)])%list.
Proof.
  unfold statements, executed, count_events. rewrite !seen_cons, seen_app, seen_cons.
  cbn [pick_execute]. rewrite !app_nil_r.
  destruct (show_progress g); [destruct (count_result x)|]; cbn;
    rewrite ?app_nil_r, <- ?app_assoc; reflexivity.
Qed.

Lemma connections_executed x lg :
  connections (executed x lg)
  = (connections lg ++ [(host g, dbname g, user g, port g)])%list.
Proof.
  unfold connections, executed, count_events. rewrite !seen_cons, seen_app, seen_cons.
  cbn [pick_connect]. rewrite !app_nil_r.
  destruct (show_progress g); [destruct (count_result x)|]; cbn;
    rewrite ?app_nil_r; reflexivity.
Qed.

(** What the log of an export that opened its output file shows to a [pick]
    that is silent on the events of the loop and of what follows it. *)
Lemma seen_opened_run {X} (pick : event -> list X) s x rest :
  pending s = x :: rest -> connect_error x = None ->
  execute_error (after_count g x) = None ->
  open_error x = None ->
  (forall ev, In (kind_of ev) (loop_kinds (count_answer g x)) -> pick ev = []) ->
  (forall ev, In (kind_of ev) (tail_kinds g) -> pick ev = []) ->
  seen pick (log (snd (call s)))
  = (seen pick (executed x (log s)) ++ pick (EvOpen output_path)
       ++ pick (EvFileClose output_path))%list.
Proof.
  intros Hp Hc He Ho Hl Ht.
  destruct (export_table_shape s x rest Hp Hc He Ho) as (evs & tl & -> & K & T).
  rewrite seen_app, seen_cons, seen_app, seen_cons.
  rewrite (seen_of_kinds pick _ evs Hl K), (seen_of_kinds pick _ tl Ht T).
  cbn [app]. now rewrite app_nil_r, <- !app_assoc.
Qed.

Lemma facing_closes_connection s x :
  open_conns (snd (call (facing x s))) = open_conns s.
Proof.
  exact (export_table_closes_connection g table output_path columns where_sql
           where_params order_by target_srid schema_override geometry_column_override
           (facing x s)).
Qed.

(** ** Failures before the first write *)

(** X6: an export that cannot connect, whose streaming query is refused (by the
    server, or because the COUNT query left the transaction aborted), or whose
    output path cannot be opened raises that error and leaves every file as it
    was: the output file is neither created nor emptied, and no file is
    opened. *)
Theorem early_failure_leaves_files (s : state) (x : session) (e : exn) :
  early_error (after_count g x) = Some e ->
  let r := call (facing x s) in
  fst r = Throw e
  /\ files (snd r) = files s
  /\ opened (log (snd r)) = opened (log s)
  /\ open_conns (snd r) = open_conns s.
Proof.
  intros He r. subst r. unfold early_error in He.
  destruct (after_count_fields g x) as (Fc & _ & _ & Fo & _). rewrite Fc, Fo in He.
  destruct (connect_error x) as [e1|] eqn:Hc.
  { injection He as ->.
    rewrite (export_table_refused (facing x s) x (pending s) e eq_refl Hc).
    repeat split. }
  destruct (execute_error (after_count g x)) as [e2|] eqn:Hx.
  { injection He as ->.
    rewrite (export_table_rejected (facing x s) x (pending s) e eq_refl Hc Hx).
    cbn [fst snd files log facing set_pending open_conns]. repeat split.
    unfold opened. rewrite seen_cons, seen_executed; [apply app_nil_r|].
    intros [] H; cbn in H; try reflexivity; intuition discriminate. }
  rewrite (export_table_unwritable (facing x s) x (pending s) e eq_refl Hc Hx He).
  cbn [fst snd files log facing set_pending open_conns]. repeat split.
  unfold opened. rewrite seen_cons, seen_executed; [apply app_nil_r|].
  intros [] H; cbn in H; try reflexivity; intuition discriminate.
Qed.

(** ** Statements, connections and files of an export *)

(** X7: an export that connects runs the streaming query on its named cursor and,
    before it and only when progress is shown, the COUNT statement on a
    client-side cursor, both with the caller's parameters; whatever happens
    afterwards, it runs no other statement. *)
Theorem statements_of_an_export (s : state) (x : session) :
  connect_error x = None ->
  exists q,
    _build_query sch table (normalize_columns columns) geom where_sql order_by
                 target_srid = Ok q
    /\ statements (log (snd (call (facing x s))))
       = (statements (log s)
            ++ (if show_progress g
                then [(None, count_query sch table where_sql, params_or where_params)]
                else [])
            ++ [(cur, q, params_or where_params)])%list.
Proof.
  intros Hc. exists query. split; [apply build_query_shape|].
  rewrite <- (statements_executed x (log s)).
  destruct (execute_error (after_count g x)) as [e|] eqn:Hx.
  { rewrite (export_table_rejected (facing x s) x (pending s) e eq_refl Hc Hx).
    cbn [snd log facing set_pending]. unfold statements. rewrite seen_cons.
    apply app_nil_r. }
  destruct (open_error x) as [e|] eqn:Ho.
  { rewrite (export_table_unwritable (facing x s) x (pending s) e eq_refl Hc Hx Ho).
    cbn [snd log facing set_pending]. unfold statements. rewrite seen_cons.
    apply app_nil_r. }
  unfold statements.
  rewrite (seen_opened_run pick_execute (facing x s) x (pending s) eq_refl Hc Hx Ho).
  - cbn [pick_execute app]. apply app_nil_r.
  - intros [] H; try reflexivity. exfalso. revert H.
    destruct (count_answer g x); cbn; intuition discriminate.
  - intros [] H; try reflexivity. exfalso. revert H. unfold tail_kinds.
    destruct (show_progress g); cbn; intuition discriminate.
Qed.

(** X8: an export makes one connection, with the host, database, user and port of
    the instance, and none when connecting fails; the connection it made is
    closed again, whatever happens. *)
Theorem one_connection_per_export (s : state) (x : session) :
  let r := call (facing x s) in
  connections (log (snd r))
  = (connections (log s)
       ++ match connect_error x with
          | None => [(host g, dbname g, user g, port g)]
          | Some _ => []
          end)%list
  /\ open_conns (snd r) = open_conns s.
Proof.
  intros r. subst r. split; [|apply facing_closes_connection].
  destruct (connect_error x) as [e|] eqn:Hc.
  { rewrite (export_table_refused (facing x s) x (pending s) e eq_refl Hc).
    cbn. now rewrite app_nil_r. }
  rewrite <- (connections_executed x (log s)).
  destruct (execute_error (after_count g x)) as [e|] eqn:Hx.
  { rewrite (export_table_rejected (facing x s) x (pending s) e eq_refl Hc Hx).
    cbn [snd log facing set_pending]. unfold connections. rewrite seen_cons.
    apply app_nil_r. }
  destruct (open_error x) as [e|] eqn:Ho.
  { rewrite (export_table_unwritable (facing x s) x (pending s) e eq_refl Hc Hx Ho).
    cbn [snd log facing set_pending]. unfold connections. rewrite seen_cons.
    apply app_nil_r. }
  unfold connections.
  rewrite (seen_opened_run pick_connect (facing x s) x (pending s) eq_refl Hc Hx Ho).
  - cbn [pick_connect app]. apply app_nil_r.
  - intros [] H; try reflexivity. exfalso. revert H.
    destruct (count_answer g x); cbn; intuition discriminate.
  - intros [] H; try reflexivity. exfalso. revert H. unfold tail_kinds.
    destruct (show_progress g); cbn; intuition discriminate.
Qed.

(** X9: the only path an export opens is its output path, at most once, and the
    file it opened is closed again, whatever fails afterwards; no file is
    opened when connecting, executing the query or opening the path fails. *)
Theorem output_file_is_closed (s : state) (x : session) :
  let r := call (facing x s) in
  let l := match early_error (after_count g x) with
           | None => [output_path]
           | Some _ => []
           end in
  opened (log (snd r)) = (opened (log s) ++ l)%list
  /\ closed_files (log (snd r)) = (closed_files (log s) ++ l)%list.
Proof.
  intros r l. subst r l. unfold early_error.
  destruct (after_count_fields g x) as (Fc & _ & _ & Fo & _). rewrite Fc, Fo.
  assert (Hsilent : forall ev,
             In (kind_of ev) [KConnect; KCursor; KCursorClose; KExecute; KStderr] ->
             pick_open ev = [] /\ pick_file_close ev = []).
  { intros [] H; cbn in H; (split; try reflexivity); intuition discriminate. }
  destruct (connect_error x) as [e|] eqn:Hc.
  { rewrite (export_table_refused (facing x s) x (pending s) e eq_refl Hc).
    cbn. now rewrite !app_nil_r. }
  destruct (execute_error (after_count g x)) as [e|] eqn:Hx.
  { rewrite (export_table_rejected (facing x s) x (pending s) e eq_refl Hc Hx).
    cbn [snd log facing set_pending]. unfold opened, closed_files.
    rewrite !seen_cons, !seen_executed by (intros ev H; now apply Hsilent).
    cbn. now rewrite !app_nil_r. }
  destruct (open_error x) as [e|] eqn:Ho.
  { rewrite (export_table_unwritable (facing x s) x (pending s) e eq_refl Hc Hx Ho).
    cbn [snd log facing set_pending]. unfold opened, closed_files.
    rewrite !seen_cons, !seen_executed by (intros ev H; now apply Hsilent).
    cbn. now rewrite !app_nil_r. }
  unfold opened, closed_files.
  assert (Hl : forall ev, In (kind_of ev) (loop_kinds (count_answer g x)) ->
                          pick_open ev = [] /\ pick_file_close ev = []).
  { intros [] H; (split; try reflexivity); exfalso; revert H;
      destruct (count_answer g x); cbn; intuition discriminate. }
  assert (Ht : forall ev, In (kind_of ev) (tail_kinds g) ->
                          pick_open ev = [] /\ pick_file_close ev = []).
  { intros [] H; (split; try reflexivity); exfalso; revert H; unfold tail_kinds;
      destruct (show_progress g); cbn; intuition discriminate. }
  rewrite (seen_opened_run pick_open (facing x s) x (pending s) eq_refl Hc Hx Ho)
    by (intros ev H; first [now apply Hl | now apply Ht]).
  rewrite (seen_opened_run pick_file_close (facing x s) x (pending s) eq_refl Hc Hx Ho)
    by (intros ev H; first [now apply Hl | now apply Ht]).
  rewrite !seen_executed by (intros ev H; now apply Hsilent).
  cbn [pick_open pick_file_close app facing set_pending log]. now rewrite ?app_nil_r.
Qed.

(** X10: an export writes to its output path only: the content of every other
    file, and whether it exists, is as before, whatever the session does. *)
Theorem other_files_are_untouched (s : state) (other : string) :
  other <> output_path ->
  read_file other (files (snd (call s))) = read_file other (files s).
Proof.
  intros Hne. unfold call.
  now apply (kept_other_files g other table output_path).
Qed.

(** The line that reports the end, if any, and nothing else. *)
Lemma report_done_run total w s :
  exists evs,
    report_done g total sch table w s
    = (Return tt,
       mkState (pending s) (live s) (files s) (open_conns s) (open_cursors s)
               (evs ++ log s)%list)
    /\ of_kinds [KStdout] evs.
Proof.
  destruct s as [p l f c cu lg]. unfold report_done, print_stdout, modify, record.
  destruct (show_progress g); [destruct total|];
    first [ exists []; split; [reflexivity | constructor]
          | eexists [_]; split; [reflexivity | apply of_kinds_one; cbn; tauto] ].
Qed.

(** The cursors closed among the events up to the query: the cursor of the
    COUNT query. *)
Lemma closed_executed x lg :
  closed_cursors (executed x lg)
  = (closed_cursors lg ++ (if show_progress g then [None] else []))%list.
Proof.
  unfold closed_cursors, executed, count_events. rewrite !seen_cons, seen_app, seen_cons.
  cbn [pick_cursor_close]. rewrite !app_nil_r.
  destruct (show_progress g); [destruct (count_result x)|]; cbn;
    rewrite ?app_nil_r; reflexivity.
Qed.

(** X11: an export that connected calls [close] on its named cursor when it
    returns normally, and only then: after a failure that follows the creation
    of the cursor, the cursor is closed by the closing of the connection
    alone. The only other cursor closed is the one of the COUNT query, and no
    cursor is left open. *)
Theorem named_cursor_closed_only_on_success (s : state) (x : session) :
  connect_error x = None ->
  let r := call (facing x s) in
  closed_cursors (log (snd r))
  = (closed_cursors (log s)
       ++ (if show_progress g then [None] else [])
       ++ match fst r with
          | Return _ => [cur]
          | _ => []
          end)%list
  /\ open_cursors (snd r) = [].
Proof.
  intros Hc r. subst r.
  destruct (execute_error (after_count g x)) as [e|] eqn:Hx.
  { rewrite (export_table_rejected (facing x s) x (pending s) e eq_refl Hc Hx).
    cbn [fst snd log open_cursors facing set_pending]. split; [|reflexivity].
    unfold closed_cursors. rewrite seen_cons. fold (closed_cursors (executed x (log s))).
    rewrite closed_executed. cbn [pick_cursor_close]. now rewrite !app_nil_r. }
  destruct (open_error x) as [e|] eqn:Ho.
  { rewrite (export_table_unwritable (facing x s) x (pending s) e eq_refl Hc Hx Ho).
    cbn [fst snd log open_cursors facing set_pending]. split; [|reflexivity].
    unfold closed_cursors. rewrite seen_cons. fold (closed_cursors (executed x (log s))).
    rewrite closed_executed. cbn [pick_cursor_close]. now rewrite !app_nil_r. }
  rewrite (export_table_opened (facing x s) x (pending s) eq_refl Hc Hx Ho).
  set (s0 := mkState _ _ _ _ _ _).
  destruct (emits_file_body g cur output_path (count_answer g x) sch table s0)
    as (evs & E & K).
  fold (file_body x) in E.
  assert (Hevs : seen pick_cursor_close evs = []).
  { apply (seen_of_kinds pick_cursor_close (loop_kinds (count_answer g x))); [|exact K].
    intros [] H; try reflexivity. exfalso. revert H.
    destruct (count_answer g x); cbn; intuition discriminate. }
  pose proof (file_body_ends x s0 eq_refl) as Hend.
  match goal with
  | |- closed_cursors (log (snd ?R)) = _ /\ _ => destruct R as [o s'] eqn:ER
  end.
  cbn [fst snd]. unfold try_finally at 1 in ER. unfold bind at 1 in ER.
  unfold try_finally at 1 in ER.
  destruct (file_body x s0) as [[w|err|] s1]; cbn [fst snd] in *; [| |contradiction].
  - unfold bind at 1 in ER. unfold file_close, modify in ER. cbn [ret] in ER.
    unfold bind at 1 in ER.
    destruct (report_done_run (count_answer g x) w (record (EvFileClose output_path) s1))
      as (e1 & R1 & K1).
    rewrite R1 in ER.
    unfold bind, cursor_close, conn_close, modify, ret in ER. cbn [fst snd] in ER.
    injection ER as <- <-. goal_simpl. split; [|reflexivity].
    unfold closed_cursors. rewrite E. subst s0. cbn [log].
    rewrite !seen_cons, seen_app, !seen_cons, seen_app, seen_cons, Hevs.
    rewrite (seen_of_kinds pick_cursor_close [KStdout] e1)
      by (exact K1 || (intros [] H; try reflexivity; cbn in H; intuition discriminate)).
    fold (closed_cursors (executed x (log s))). rewrite closed_executed.
    cbn [pick_cursor_close app]. now rewrite !app_nil_r, <- !app_assoc.
  - unfold bind at 1 in ER. unfold file_close, modify in ER. cbn [raise] in ER.
    unfold bind, conn_close, modify, raise in ER. cbn [fst snd] in ER.
    injection ER as <- <-. goal_simpl. split; [|reflexivity].
    unfold closed_cursors. rewrite E. subst s0. cbn [log].
    rewrite !seen_cons, seen_app, seen_cons, Hevs.
    fold (closed_cursors (executed x (log s))). rewrite closed_executed.
    cbn [pick_cursor_close app]. now rewrite !app_nil_r.
Qed.

(** ** Diagnostics *)

(** X12: with progress switched off an export prints nothing, on either stream,
    whatever the session does. *)
Theorem silent_export_prints_nothing (s : state) :
  show_progress g = false ->
  stderr_lines (log (snd (call s))) = stderr_lines (log s)
  /\ stdout_lines (log (snd (call s))) = stdout_lines (log s).
Proof.
  intros Hs.
  destruct (pending s) as [|x rest] eqn:Hp.
  { unfold call, export_table, _connect, bind, connect. rewrite Hp. now split. }
  destruct (connect_error x) as [e|] eqn:Hc.
  { rewrite (export_table_refused s x rest e Hp Hc). now split. }
  assert (Hex : stderr_lines (executed x (log s)) = stderr_lines (log s)
                /\ stdout_lines (executed x (log s)) = stdout_lines (log s)).
  { unfold stderr_lines, stdout_lines, executed, count_events. rewrite Hs.
    cbn [app]. rewrite !seen_cons. cbn. now rewrite !app_nil_r. }
  destruct Hex as [Herr Hout].
  destruct (execute_error (after_count g x)) as [e|] eqn:Hx.
  { rewrite (export_table_rejected s x rest e Hp Hc Hx). cbn [snd log].
    unfold stderr_lines, stdout_lines in *. rewrite !seen_cons, Herr, Hout.
    cbn. now rewrite !app_nil_r. }
  destruct (open_error x) as [e|] eqn:Ho.
  { rewrite (export_table_unwritable s x rest e Hp Hc Hx Ho). cbn [snd log].
    unfold stderr_lines, stdout_lines in *. rewrite !seen_cons, Herr, Hout.
    cbn. now rewrite !app_nil_r. }
  assert (Hl : forall ev, In (kind_of ev) (loop_kinds (count_answer g x)) ->
                          pick_stderr ev = [] /\ pick_stdout ev = []).
  { unfold count_answer. rewrite Hs.
    intros [] H; cbn in H; (split; try reflexivity); intuition discriminate. }
  assert (Ht : forall ev, In (kind_of ev) (tail_kinds g) ->
                          pick_stderr ev = [] /\ pick_stdout ev = []).
  { unfold tail_kinds. rewrite Hs.
    intros [] H; cbn in H; (split; try reflexivity); intuition discriminate. }
  unfold stderr_lines, stdout_lines in *.
  rewrite (seen_opened_run pick_stderr s x rest Hp Hc Hx Ho)
    by (intros ev H; first [now apply Hl | now apply Ht]).
  rewrite (seen_opened_run pick_stdout s x rest Hp Hc Hx Ho)
    by (intros ev H; first [now apply Hl | now apply Ht]).
  rewrite Herr, Hout. cbn. now rewrite !app_nil_r.
Qed.



(** X15: a completed export over a stream of n rows fetches from its named cursor
    with the batch size each time: once per batch of rows, the last one
    possibly short, and once more for the empty batch that ends the loop. *)
Theorem fetches_of_an_export (s : state) (x : session) (rows : list (option string)) :
  healthy x rows ->
  batch_size g <> 0 ->
  fetches (log (snd (call (facing x s))))
  = (fetches (log s)
       ++ repeat (cur, batch_size g) (S (batches (batch_size g) (length rows))))%list.
Proof.
  intros Hx Hb.
  apply (export_table_logged (facing x s) x (pending s) rows eq_refl Hx Hb).
Qed.

(** ** Streams that break, and the batch size zero *)

(** X16: when the named cursor fails after delivering some rows, the export raises
    that failure and leaves the output file without its closing text: the
    prefix and the features of the batches that were fetched in full, that is
    of the first b * (n / b) rows. The connection is closed. *)
Theorem interrupted_export_leaves_full_batches (s : state) (x : session)
        (rows : list (option string)) (e : exn) :
  batch_size g <> 0 ->
  breaks_after x rows e ->
  let r := call (facing x s) in
  let b := batch_size g in
  fst r = Throw e
  /\ read_file output_path (files (snd r))
     = Some (collection_prefix
               ++ batch_text true (features_of (firstn (b * (length rows / b)) rows)))
  /\ open_conns (snd r) = open_conns s.
Proof.
  intros Hb (Hcr & Hce & Hee & (rest & Hst) & Hoe & Hwb) r b. subst r b.
  assert (Hee' : execute_error (after_count g x) = None)
    by (now rewrite after_count_answers).
  split; [|split; [|apply facing_closes_connection]].
  all: rewrite (export_table_start (facing x s) x (pending s) eq_refl Hce Hee' Hoe Hwb).
  all: destruct x as [ce cr ee st oe wb]; cbn in Hce, Hee, Hst, Hoe, Hwb; subst.
  all: unfold try_finally at 1; unfold bind at 1; unfold try_finally at 1;
    unfold bind at 1.
  all: match goal with
       | |- context [stream_loop g ?fuel cur ?path ?tot ?sc ?t ?fst ?w
                       (mkState ?p' (mkSession ?a1 ?a2 ?a3 _ ?a5 None)
                          (append_file ?path ?pre' ?fs') ?c' ?cu' ?lg')] =>
           destruct (stream_loop_broken g cur path tot sc t e Hb fuel rows rest fst w
                       p' a1 a2 a3 a5 pre' fs' c' cu' lg') as (lg2 & st2 & ->);
             [cbn [stream]; rewrite length_app, length_map; cbn [length]; lia|]
       end.
  all: unfold bind, file_close, conn_close, modify, raise; cbn [fst snd]; goal_simpl.
  - reflexivity.
  - apply read_append_truncate.
Qed.

(** X17: with a batch size of zero the first fetch brings no row and ends the
    loop: the export completes, and its output is the empty collection,
    whatever rows the query has. *)
Theorem zero_batch_size_exports_nothing (s : state) (x : session)
        (rows : list (option string)) :
  batch_size g = 0 ->
  healthy x rows ->
  let r := call (facing x s) in
  fst r = Return tt
  /\ read_file output_path (files (snd r)) = Some (collection_text [])
  /\ fetches (log (snd r)) = (fetches (log s) ++ [(cur, 0)])%list.
Proof.
  intros Hb (Hcr & Hce & Hee & Hst & Hoe & Hwb) r. subst r.
  assert (Hee' : execute_error (after_count g x) = None)
    by (now rewrite after_count_answers).
  rewrite (export_table_start (facing x s) x (pending s) eq_refl Hce Hee' Hoe Hwb).
  unfold fetches.
  split; [|split].
  all: unfold try_finally at 1; unfold bind at 1; unfold try_finally at 1;
    unfold bind at 1;
    rewrite (stream_loop_batch_zero g cur output_path (count_answer g x) sch table _
               true 0 _ Hb);
    unfold bind at 1; unfold file_write; goal_simpl; rewrite Hwb; goal_simpl;
    unfold bind at 1; unfold ret at 1;
    unfold bind at 1; unfold file_close, modify; goal_simpl; unfold ret at 1;
    unfold report_done;
    destruct (show_progress g); [destruct (count_answer g x)|];
    unfold bind, ret, print_stdout, cursor_close, conn_close, modify;
    cbn [snd fst]; goal_simpl.
  1-3: reflexivity.
  1-3: rewrite append_file_twice; apply read_append_truncate.
  all: rewrite !seen_cons, seen_executed
    by (intros [] H; cbn in H; try reflexivity; intuition discriminate).
  all: cbn; rewrite ?app_nil_r; reflexivity.
Qed.

End Single.
End Runs.
(* ================================================================== *)
(** * Arguments that mean the default *)
(* ================================================================== *)

Module Options.
Import QueryFacts RunFacts InvFacts Steps.

Lemma nonblank_plain o : nonblank (plain_text o) = nonblank o.
Proof. unfold plain_text. destruct (nonblank o) eqn:E; [exact E | reflexivity]. Qed.

Lemma with_where_plain o q : with_where (plain_text o) q = with_where o q.
Proof.
  unfold with_where, plain_text. destruct o as [w|]; [|reflexivity].
  destruct (nonblank (Some w)) eqn:E; [now rewrite E | reflexivity].
Qed.

Lemma with_order_plain o q : with_order (plain_text o) q = with_order o q.
Proof.
  unfold with_order, plain_text. destruct o as [w|]; [|reflexivity].
  destruct (nonblank (Some w)) eqn:E; [now rewrite E | reflexivity].
Qed.

Lemma count_query_plain sch table o :
  count_query sch table (plain_text o) = count_query sch table o.
Proof.
  unfold count_query, plain_text. destruct o as [w|]; [|reflexivity].
  destruct (nonblank (Some w)) eqn:E; [now rewrite E | reflexivity].
Qed.

Lemma params_or_plain p : params_or (plain_params p) = params_or p.
Proof. destruct p as [[|]|]; reflexivity. Qed.

Lemma str_or_plain o d : str_or (plain_override o) d = str_or o d.
Proof.
  unfold plain_override, str_or. destruct (truthy o) eqn:E; [now rewrite E | reflexivity].
Qed.

Lemma chars_nil s : chars s = [] -> s = "".
Proof.
  destruct s as [|c r]; [reflexivity|]. cbn [chars].
  destruct r as [|d r']; [discriminate|]. cbv zeta.
  destruct (is_continuation d); [|discriminate].
  destruct (chars (String d r')); discriminate.
Qed.

Lemma no_columns_plain c :
  no_columns (normalize_columns (plain_columns c)) = no_columns (normalize_columns c)
  /\ (no_columns (normalize_columns c) = false ->
      normalize_columns (plain_columns c) = normalize_columns c).
Proof.
  unfold plain_columns, omitted_columns.
  destruct c as [|s|l]; cbn [normalize_columns].
  - now split.
  - destruct s as [|a s]; [cbn; split; [reflexivity | discriminate]|].
    cbn [is_empty orb].
    destruct (String.eqb (strip (String a s)) star) eqn:E; cbn [normalize_columns];
      rewrite ?E; split; try reflexivity; discriminate.
  - destruct l; cbn; split; try reflexivity; discriminate.
Qed.

Lemma props_shape_plain c geom :
  props_shape (normalize_columns (plain_columns c)) geom
  = props_shape (normalize_columns c) geom.
Proof.
  destruct (no_columns_plain c) as [H1 H2]. unfold props_shape. rewrite H1.
  destruct (no_columns (normalize_columns c)); [reflexivity|]. now rewrite H2.
Qed.

Lemma build_query_plain sch table c geom w ob srid :
  _build_query sch table (normalize_columns (plain_columns c)) geom (plain_text w)
               (plain_text ob) srid
  = _build_query sch table (normalize_columns c) geom w ob srid.
Proof.
  rewrite !build_query_shape, with_order_plain, with_where_plain.
  unfold select_shape. now rewrite props_shape_plain.
Qed.

Lemma count_total_plain g conn table sch w wp s :
  count_total g conn table sch (plain_text w) (plain_params wp) s
  = count_total g conn table sch w wp s.
Proof.
  destruct s as [p l f c cu lg]. rewrite !count_total_run.
  unfold count_events. now rewrite count_query_plain, params_or_plain.
Qed.

Section OneCall.

Variable g : GeojsonGenerator.
Variables (table output_path : string) (target_srid : option Z).

Lemma plain_text_twice o : plain_text (plain_text o) = plain_text o.
Proof.
  unfold plain_text at 1. rewrite nonblank_plain. unfold plain_text.
  now destruct (nonblank o).
Qed.

(** A filter of blanks is no filter. *)
Lemma export_table_plain_where (columns : columns_arg)
      (where_sql : option string) (where_params : option (list pyval))
      (order_by schema_override geometry_column_override : option string)
      (s : state) :
  export_table g table output_path columns where_sql where_params order_by target_srid
               schema_override geometry_column_override s
  = export_table g table output_path columns (plain_text where_sql) where_params
                 order_by target_srid schema_override geometry_column_override s.
Proof.
  unfold export_table, _connect.
  rewrite !build_query_shape, with_where_plain.
  unfold bind at 1. symmetry. unfold bind at 1. symmetry.
  destruct (connect (host g) (dbname g) (user g) (password g) (port g) s)
    as [[[]|e|] s1]; [|reflexivity..].
  unfold try_finally. unfold bind at 1. symmetry. unfold bind at 1. symmetry.
  destruct s1 as [p l f c cu lg]. rewrite !count_total_run.
  unfold count_events. rewrite count_query_plain. reflexivity.
Qed.

(** X4: arguments that are omitted and arguments that are empty are the same
    to an export: for the columns the empty list, the empty string and the
    sentinel with blanks around it; for the filter and the ordering a text of
    blanks; for the parameters the empty list; for the schema and the geometry
    column the empty string. Each of them gives the run that leaving the
    argument out gives. *)
Theorem empty_arguments_are_defaults (columns : columns_arg)
        (where_sql : option string) (where_params : option (list pyval))
        (order_by schema_override geometry_column_override : option string)
        (s : state) :
  export_table g table output_path columns where_sql where_params order_by target_srid
               schema_override geometry_column_override s
  = export_table g table output_path (plain_columns columns) (plain_text where_sql)
                 (plain_params where_params) (plain_text order_by) target_srid
                 (plain_override schema_override)
                 (plain_override geometry_column_override) s.
Proof.
  unfold export_table, _connect. rewrite !str_or_plain, build_query_plain, params_or_plain.
  unfold bind at 1. symmetry. unfold bind at 1. symmetry.
  destruct (connect (host g) (dbname g) (user g) (password g) (port g) s)
    as [[[]|e|] s1]; [|reflexivity..].
  unfold try_finally. unfold bind at 1. symmetry. unfold bind at 1. symmetry.
  rewrite count_total_plain. reflexivity.
Qed.

(** X5: a [columns] argument that is a string, other than the sentinel, is read
    as a sequence of one-character column names: the export is the one of the
    list of its characters, and these are the columns the query selects. *)
Theorem string_columns_are_split (cols : string)
        (where_sql : option string) (where_params : option (list pyval))
        (order_by schema_override geometry_column_override : option string)
        (s : state) :
  ascii_only cols = true ->
  cols <> "" ->
  strip cols <> "*" ->
  let sch := str_or schema_override (schema g) in
  let geom := str_or geometry_column_override (geometry_column g) in
  export_table g table output_path (ColsStr cols) where_sql where_params order_by
               target_srid schema_override geometry_column_override s
  = export_table g table output_path (ColsList (chars cols)) where_sql where_params
                 order_by target_srid schema_override geometry_column_override s
  /\ exists q,
       _build_query sch table (normalize_columns (ColsStr cols)) geom where_sql order_by
                    target_srid = Ok q
       /\ identifiers q = (geom :: chars cols ++ [sch; table; geom])%list.
Proof.
  intros _ Hne Hstar sch geom.
  assert (Hn : normalize_columns (ColsStr cols) = Some (chars cols)).
  { cbn [normalize_columns]. destruct (String.eqb (strip cols) star) eqn:E;
      [apply String.eqb_eq in E; contradiction | reflexivity]. }
  split.
  - unfold export_table. rewrite Hn. reflexivity.
  - exists (assembled sch table (Some (chars cols)) geom where_sql order_by target_srid).
    rewrite Hn. split; [apply build_query_shape|].
    rewrite Properties.assembled_identifiers.
    destruct (chars cols) as [|c cs] eqn:E; [|reflexivity].
    now apply chars_nil in E.
Qed.

End OneCall.

End Options.
(* ================================================================== *)
(** * Batches of exports *)
(* ================================================================== *)

Module Batch.
Import QueryFacts RunFacts InvFacts Steps Keeps Options.

Section Many.

Variable g : GeojsonGenerator.

Lemma export_item_closes_connection item s :
  open_conns (snd (export_item g item s)) = open_conns s
  /\ fst (export_item g item s) <> Diverge.
Proof.
  unfold export_item, subscript, bind.
  destruct (i_table item) as [t|]; [|split; [reflexivity | discriminate]].
  cbn [ret]. destruct (i_output item) as [o|]; [|split; [reflexivity | discriminate]].
  cbn [ret raise]. split; [apply export_table_closes_connection | apply export_table_ends].
Qed.

(** X18: a batch ends, and leaves as many connections open as it found: each
    connection an item made is closed again, also when that item or a later
    one fails. *)
Theorem export_many_closes_connections (items : list item_dict) (s : state) :
  open_conns (snd (export_many g items s)) = open_conns s
  /\ fst (export_many g items s) <> Diverge.
Proof.
  revert s. induction items as [|item items IH]; intros s; cbn [export_many].
  - split; [reflexivity | discriminate].
  - unfold bind. destruct (export_item_closes_connection item s) as [Hc Hd].
    destruct (export_item g item s) as [[[]|e|] s1]; cbn [fst snd] in *.
    + destruct (IH s1) as [Hc1 Hd1]. split; [congruence | exact Hd1].
    + split; [exact Hc | discriminate].
    + now elim Hd.
Qed.

(** X19: an item that lacks the key of its table, or of its output, raises
    KeyError for that key, the table first; nothing is connected to, no file
    is touched and no later item is started. *)
Theorem item_without_table_or_output (item : item_dict) (later : list item_dict)
        (s : state) :
  i_table item = None \/ i_output item = None ->
  export_many g (item :: later) s
  = (Throw (KeyError (match i_table item with None => "table" | Some _ => "output" end)),
     s).
Proof.
  intros H. cbn [export_many]. unfold bind at 1. unfold export_item, subscript.
  destruct (i_table item) as [t|]; [|reflexivity].
  destruct H as [H|H]; [discriminate H|]. rewrite H. reflexivity.
Qed.

Lemma opt_or_chain item :
  opt_or (opt_or (opt_or (i_where_sql item) (i_where item)) (i_filter item)) None
  = chosen_filter item.
Proof.
  unfold chosen_filter, opt_or.
  destruct (truthy (i_where_sql item)) eqn:Ea; rewrite ?Ea; [reflexivity|].
  destruct (truthy (i_where item)) eqn:Eb; rewrite ?Eb; [reflexivity|].
  destruct (truthy (i_filter item)); reflexivity.
Qed.

Lemma nonblank_truthy o : nonblank o = true -> truthy o = true.
Proof.
  destruct o as [w|]; [|discriminate]. cbn. intros H.
  now apply andb_true_iff in H as [H _].
Qed.

(** X20: the keys [where_sql], [where] and [filter] of an item name one filter:
    the first of them, in this order, that holds a non-empty text, the others
    being ignored; and a filter of blanks is no filter, also when a later key
    holds one. The export of the item is the one of the item with that filter
    under [where_sql] alone. *)
Theorem filter_keys_of_an_item (item : item_dict) (s : state) :
  export_item g item s
  = export_item g (with_filters item (plain_text (chosen_filter item)) None None) s.
Proof.
  unfold export_item, with_filters.
  cbn [i_table i_output i_columns i_where_sql i_where i_filter i_where_params
       i_order_by i_target_srid i_schema i_geometry_column].
  rewrite opt_or_chain.
  assert (E : opt_or (opt_or (opt_or (plain_text (chosen_filter item)) None) None) None
              = plain_text (chosen_filter item)).
  { unfold plain_text. destruct (nonblank (chosen_filter item)) eqn:En; [|reflexivity].
    assert (T : opt_or (chosen_filter item) None = chosen_filter item).
    { unfold opt_or. now rewrite (nonblank_truthy _ En). }
    now rewrite !T. }
  rewrite E. unfold bind.
  destruct (subscript "table" (i_table item) s) as [[t|e|] s1]; [|reflexivity..].
  destruct (subscript "output" (i_output item) s1) as [[o|e|] s2]; [|reflexivity..].
  apply export_table_plain_where.
Qed.

(** ** Files of a batch *)

Lemma kept_export_item other item :
  i_output item <> Some other -> keeps (content_of other) (export_item g item).
Proof.
  intros Hne s. unfold export_item, subscript, bind.
  destruct (i_table item) as [t|]; [|reflexivity]. cbn [ret].
  destruct (i_output item) as [o|]; [|reflexivity]. cbn [ret].
  assert (Hne' : other <> o) by congruence.
  now apply kept_other_files.
Qed.

Lemma kept_export_many other items :
  ~ In (Some other) (map i_output items) ->
  keeps (content_of other) (export_many g items).
Proof.
  induction items as [|item items IH]; intros Hn; cbn [export_many].
  - intros s. reflexivity.
  - apply kept_bind.
    + apply kept_export_item. intros H. apply Hn. left. exact H.
    + intros _. apply IH. intros H. apply Hn. right. exact H.
Qed.

(** X21: a batch writes to the outputs of its items only: a file that no item
    names as its output is as before, whatever the sessions do. *)
Theorem export_many_touches_outputs_only (items : list item_dict) (s : state)
        (other : string) :
  ~ In (Some other) (map i_output items) ->
  read_file other (files (snd (export_many g items s)))
  = read_file other (files s).
Proof. intros Hn. exact (kept_export_many other items Hn s). Qed.

Lemma export_item_ready (j : job) (s : state) (rest : list session) :
  batch_size g <> 0 ->
  job_ready j ->
  pending s = job_session j :: rest ->
  exists s',
    export_item g (job_item j) s = (Return tt, s')
    /\ job_done (files s') j
    /\ pending s' = rest
    /\ open_conns s' = open_conns s.
Proof.
  intros Hb (Hx & Ht & Ho) Hp. unfold export_item, subscript, bind.
  destruct (i_table (job_item j)) as [t|] eqn:Et; [|contradiction]. cbn [ret].
  destruct (i_output (job_item j)) as [o|] eqn:Eo; [|contradiction]. cbn [ret].
  match goal with
  | |- context [export_table g t o ?c ?w ?wp ?ob ?srid ?so ?go s] =>
      destruct (export_table_healthy g t o c w wp ob srid so go s (job_session j) rest
                  (job_rows j) Hp Hx (or_introl Hb)) as (s' & Hrun & Hf & Hpend & Hc & _)
  end.
  exists s'. split; [exact Hrun|]. split; [|split; assumption].
  exists o. split; [exact Eo|]. rewrite Hf. apply read_append_truncate.
Qed.

(** X22: a batch of items that name their table and their output, no two of them
    the same output, over sessions where nothing fails: the batch completes,
    each connection serves one item, in the order of the list, and each output
    holds the collection of the rows of its own item. *)
Theorem export_many_exports_each_item (jobs : list job) (s : state) :
  batch_size g <> 0 ->
  Forall job_ready jobs ->
  NoDup (map (fun j => i_output (job_item j)) jobs) ->
  let r := export_many g (map job_item jobs)
                       (set_pending (map job_session jobs ++ pending s) s) in
  fst r = Return tt
  /\ Forall (job_done (files (snd r))) jobs
  /\ pending (snd r) = pending s
  /\ open_conns (snd r) = open_conns s.
Proof.
  intros Hb Hready Hnd r. subst r.
  assert (H : forall s0 rest,
             pending s0 = (map job_session jobs ++ rest)%list ->
             exists s',
               export_many g (map job_item jobs) s0 = (Return tt, s')
               /\ Forall (job_done (files s')) jobs
               /\ pending s' = rest
               /\ open_conns s' = open_conns s0).
  { clear s. induction jobs as [|j jobs IH]; intros s0 rest Hp.
    - exists s0. cbn. repeat split; [constructor | exact Hp].
    - inversion Hready as [|? ? Hj Hjs]; subst.
      inversion Hnd as [|? ? Hnotin Hnd']; subst.
      cbn [map app] in Hp.
      destruct (export_item_ready j s0 _ Hb Hj Hp) as (s1 & Hrun & Hdone & Hp1 & Hc1).
      destruct (IH Hjs Hnd' s1 rest Hp1) as (s2 & Hrun2 & Hdone2 & Hp2 & Hc2).
      exists s2. cbn [map export_many]. unfold bind. rewrite Hrun.
      split; [exact Hrun2|]. split; [|split; congruence].
      constructor; [|exact Hdone2].
      destruct Hdone as (o & Eo & Hread). exists o. split; [exact Eo|].
      rewrite <- Hread.
      pose proof (kept_export_many o (map job_item jobs)) as K.
      rewrite map_map in K. rewrite <- Eo in K. specialize (K Hnotin s1).
      unfold content_of in K. rewrite Hrun2 in K. exact K. }
  destruct (H (set_pending (map job_session jobs ++ pending s) s) (pending s) eq_refl)
    as (s' & Hrun & Hdone & Hp & Hc).
  rewrite Hrun. cbn [fst snd]. repeat split; assumption.
Qed.

End Many.
End Batch.
(* ================================================================== *)
(** * The further theorems at work on the samples *)
(* ================================================================== *)

Module Examples.
Import Steps Runs Options Batch.

Lemma early_failure_leaves_files_witness :
  early_error (after_count sample failing_session) = Some no_table
  /\ fst (run_sample failing_session) = Throw no_table
  /\ files (snd (run_sample failing_session)) = [].
Proof.
  split; [reflexivity|].
  destruct (early_failure_leaves_files sample "roads" "roads.geojson" ColsNone None None
              None None None None (boot []) failing_session no_table eq_refl)
    as (H1 & H2 & _).
  split; [exact H1 | exact H2].
Defined.

Lemma statements_of_an_export_witness :
  connect_error (good_session three_rows) = None
  /\ exists q,
       _build_query "public" "roads" None "geom" (Some "status = %s") None None = Ok q
       /\ statements (log (snd (export_table sample "roads" "roads.geojson" ColsNone
                                  (Some "status = %s") (Some [PyStr "ACTIVE"]) None None
                                  None None (boot [good_session three_rows]))))
          = [(None, count_query "public" "roads" (Some "status = %s"), [PyStr "ACTIVE"]);
             (Some "cur_public_roads", q, [PyStr "ACTIVE"])].
Proof.
  split; [reflexivity|].
  destruct (statements_of_an_export sample "roads" "roads.geojson" ColsNone
              (Some "status = %s") (Some [PyStr "ACTIVE"]) None None None None
              (boot []) (good_session three_rows) eq_refl) as (q & Hq & Hs).
  exists q. split; [exact Hq | exact Hs].
Defined.

Lemma other_files_are_untouched_witness :
  "notes.txt" <> "roads.geojson"
  /\ read_file "notes.txt"
       (files (snd (export_table sample "roads" "roads.geojson" ColsNone None None None
                      None None None
                      (mkState [good_session three_rows] idle [("notes.txt", "keep")]
                               0 [] []))))
     = Some "keep".
Proof.
  assert (Hne : "notes.txt" <> "roads.geojson") by discriminate.
  split; [exact Hne|].
  exact (other_files_are_untouched sample "roads" "roads.geojson" ColsNone None None None
           None None None
           (mkState [good_session three_rows] idle [("notes.txt", "keep")] 0 [] [])
           "notes.txt" Hne).
Defined.

Lemma silent_export_prints_nothing_witness :
  show_progress (with_show_progress sample false) = false
  /\ stderr_lines (log (snd (export_table (with_show_progress sample false) "roads"
                               "roads.geojson" ColsNone None None None None None None
                               (boot [good_session three_rows])))) = []
  /\ stdout_lines (log (snd (export_table (with_show_progress sample false) "roads"
                               "roads.geojson" ColsNone None None None None None None
                               (boot [good_session three_rows])))) = [].
Proof.
  split; [reflexivity|].
  exact (silent_export_prints_nothing (with_show_progress sample false) "roads"
           "roads.geojson" ColsNone None None None None None None
           (boot [good_session three_rows]) eq_refl).
Defined.



Lemma fetches_of_an_export_witness :
  healthy (good_session three_rows) three_rows
  /\ batch_size sample <> 0
  /\ fetches (log (snd (run_sample (good_session three_rows))))
     = [(Some "cur_public_roads", 2); (Some "cur_public_roads", 2);
        (Some "cur_public_roads", 2)].
Proof.
  assert (Hx : healthy (good_session three_rows) three_rows) by (repeat split).
  assert (Hb : batch_size sample <> 0) by discriminate.
  split; [exact Hx|]. split; [exact Hb|].
  exact (fetches_of_an_export sample "roads" "roads.geojson" ColsNone None None None
           None None None (boot []) (good_session three_rows) three_rows Hx Hb).
Defined.

Lemma interrupted_export_leaves_full_batches_witness :
  batch_size (with_batch_size sample 1) <> 0
  /\ breaks_after broken_session [Some (point "1")] timeout
  /\ fst (export_table (with_batch_size sample 1) "roads" "roads.geojson" ColsNone None
            None None None None None (boot [broken_session])) = Throw timeout
  /\ read_file "roads.geojson"
       (files (snd (export_table (with_batch_size sample 1) "roads" "roads.geojson"
                      ColsNone None None None None None None (boot [broken_session]))))
     = Some (collection_prefix ++ nl ++ point "1").
Proof.
  assert (Hb : batch_size (with_batch_size sample 1) <> 0) by discriminate.
  assert (Hx : breaks_after broken_session [Some (point "1")] timeout).
  { split; [reflexivity|]. split; [reflexivity|]. split; [reflexivity|].
    split; [exists []; reflexivity|]. split; reflexivity. }
  split; [exact Hb|]. split; [exact Hx|].
  destruct (interrupted_export_leaves_full_batches (with_batch_size sample 1) "roads"
              "roads.geojson" ColsNone None None None None None None (boot [])
              broken_session [Some (point "1")] timeout Hb Hx) as (H1 & H2 & _).
  split; [exact H1 | exact H2].
Defined.

Lemma zero_batch_size_exports_nothing_witness :
  batch_size (with_batch_size sample 0) = 0
  /\ healthy (good_session three_rows) three_rows
  /\ read_file "roads.geojson"
       (files (snd (export_table (with_batch_size sample 0) "roads" "roads.geojson"
                      ColsNone None None None None None None
                      (boot [good_session three_rows]))))
     = Some (collection_text []).
Proof.
  assert (Hx : healthy (good_session three_rows) three_rows) by (repeat split).
  split; [reflexivity|]. split; [exact Hx|].
  destruct (zero_batch_size_exports_nothing (with_batch_size sample 0) "roads"
              "roads.geojson" ColsNone None None None None None None (boot [])
              (good_session three_rows) three_rows eq_refl Hx) as (_ & H2 & _).
  exact H2.
Defined.

Lemma string_columns_are_split_witness :
  ascii_only "id" = true /\ "id" <> "" /\ strip "id" <> "*"
  /\ exists q,
       _build_query "public" "roads" (normalize_columns (ColsStr "id")) "geom" None None
                    None = Ok q
       /\ identifiers q = ["geom"; "i"; "d"; "public"; "roads"; "geom"].
Proof.
  assert (H1 : "id" <> "") by discriminate.
  assert (H2 : strip "id" <> "*") by discriminate.
  split; [reflexivity|]. split; [exact H1|]. split; [exact H2|].
  exact (proj2 (string_columns_are_split sample "roads" "roads.geojson" None "id" None
                  None None None None (boot []) eq_refl H1 H2)).
Defined.

Lemma item_without_table_or_output_witness :
  let item := mkItem None (Some "roads.geojson") ColsNone None None None None None None
                     None None in
  (i_table item = None \/ i_output item = None)
  /\ export_many sample [item; item_for "rivers" "rivers.geojson"]
                 (boot [good_session three_rows])
     = (Throw (KeyError "table"), boot [good_session three_rows]).
Proof.
  intros item.
  assert (H : i_table item = None \/ i_output item = None) by (left; reflexivity).
  split; [exact H|].
  exact (item_without_table_or_output sample item [item_for "rivers" "rivers.geojson"]
           (boot [good_session three_rows]) H).
Defined.

Lemma export_many_touches_outputs_only_witness :
  ~ In (Some "notes.txt")
       (map i_output [item_for "roads" "roads.geojson"; item_for "rivers" "rivers.geojson"])
  /\ read_file "notes.txt"
       (files (snd (export_many sample
                      [item_for "roads" "roads.geojson"; item_for "rivers" "rivers.geojson"]
                      (mkState [good_session three_rows; broken_session] idle
                               [("notes.txt", "keep")] 0 [] []))))
     = Some "keep".
Proof.
  assert (Hn : ~ In (Some "notes.txt")
                    (map i_output [item_for "roads" "roads.geojson";
                                   item_for "rivers" "rivers.geojson"])).
  { cbn. intros [H|[H|[]]]; discriminate H. }
  split; [exact Hn|].
  exact (export_many_touches_outputs_only sample _ _ "notes.txt" Hn).
Defined.

Lemma export_many_exports_each_item_witness :
  let jobs : list job :=
    [(item_for "roads" "roads.geojson", (good_session three_rows, three_rows));
     (item_for "rivers" "rivers.geojson", (good_session [], []))] in
  batch_size sample <> 0
  /\ Forall job_ready jobs
  /\ NoDup (map (fun j => i_output (job_item j)) jobs)
  /\ fst (export_many sample (map job_item jobs) (boot (map job_session jobs)))
     = Return tt
  /\ Forall (job_done (files (snd (export_many sample (map job_item jobs)
                                     (boot (map job_session jobs)))))) jobs.
Proof.
  intros jobs.
  assert (Hb : batch_size sample <> 0) by discriminate.
  assert (Hr : Forall job_ready jobs).
  { apply Forall_cons; [|apply Forall_cons; [|apply Forall_nil]];
      (split; [repeat split | split; discriminate]). }
  assert (Hn : NoDup (map (fun j => i_output (job_item j)) jobs)).
  { apply NoDup_cons; [cbn; intros [H|[]]; discriminate H|].
    apply NoDup_cons; [cbn; tauto | apply NoDup_nil]. }
  split; [exact Hb|]. split; [exact Hr|]. split; [exact Hn|].
  destruct (export_many_exports_each_item sample jobs (boot []) Hb Hr Hn) as (H1 & H2 & _).
  split; [exact H1 | exact H2].
Defined.

Lemma named_cursor_closed_only_on_success_witness :
  connect_error full_disk_session = None
  /\ closed_cursors (log (snd (run_sample full_disk_session)))
     = (closed_cursors (log (boot []))
          ++ (if show_progress sample then [None] else [])
          ++ match fst (run_sample full_disk_session) with
             | Return _ => [Some "cur_public_roads"]
             | _ => []
             end)%list
  /\ open_cursors (snd (run_sample full_disk_session)) = [].
Proof.
  split; [reflexivity|].
  exact (named_cursor_closed_only_on_success sample "roads" "roads.geojson" ColsNone None
           None None None None None (boot []) full_disk_session eq_refl).
Defined.

End Examples.
